(** * core-github-search: the orchestration engine, its workers and the review route

    A shallow embedding of
      - [OrchestratorAgent] ([lib/agents/orchestrator]): [start], and
        [continue] with its queue draining, correction monitor, synthesis
        and hand-off,
      - [GithubAnalystAgent.run] ([lib/agents/analyst.ts]),
      - [JudgeAgent.review] ([lib/agents/judge]),
      - the handlers of [agentRouter] ([POST /search],
        [POST /hitl/{reviewId}/review], the two [GET] routes),
      - the tables of [db/schema/github_research.ts] and
        [db/schema/search_configs.ts],
    followed by the properties of the specification that hold of it and the
    ones that do not.

    Text columns stay strings, nullable columns are options, integer
    columns are [Z]; a table is the list of its rows in the order in which
    a query without [orderBy] returns them.  Everything outside the
    repository (the URL parser, the GitHub tools, the language model, UUID
    generation, the database refusing a row, which of several promises
    rejects first) is a field of an environment record, so every operation
    is an executable function of the environment and the store.
    [BaseAgent] ([lib/agents/core/base]) is not among the sources; its
    helpers are modelled where they are introduced. *)

From Stdlib Require Import List String Ascii ZArith Lia Bool Arith PeanoNat.
From Stdlib Require Import DecimalString.
From Stdlib Require Import Permutation Sorted.
Import ListNotations.

Local Open Scope string_scope.
Local Open Scope list_scope.

Set Implicit Arguments.
Set Warnings "-register-all".

(* ===================================================================== *)
(** ** Results of fallible calls *)

(** A JavaScript call either returns a value or throws an [Error] carrying
    a message. *)
Inductive Result (A : Type) : Type :=
| Ok (a : A)
| Throw (message : string).

Arguments Ok {A} a.
Arguments Throw {A} message.

(* ===================================================================== *)
(** ** JSON values and zod schemas *)

(** Numbers are the integer-valued ones, of a size JavaScript prints in
    decimal: the one number the agents read, [ai_ranking], goes into an
    integer column. *)
Inductive Json : Type :=
| JNull
| JBool (b : bool)
| JNum (n : Z)
| JStr (s : string)
| JArr (items : list Json)
| JObj (fields : list (string * Json)).

(** The schema combinators the agents use: [z.number()], [z.string()],
    [z.array(s)], [z.object({...})]. *)
Inductive Schema : Type :=
| ZNumber
| ZString
| ZArray (item : Schema)
| ZObject (shape : list (string * Schema)).

Fixpoint field (k : string) (fields : list (string * Json)) : option Json :=
  match fields with
  | [] => None
  | (k', v) :: rest => if String.eqb k k' then Some v else field k rest
  end.

(** [schema.safeParse(j).success] *)
Fixpoint conforms (s : Schema) (j : Json) {struct s} : bool :=
  match s, j with
  | ZNumber, JNum _ => true
  | ZString, JStr _ => true
  | ZArray item, JArr items => forallb (conforms item) items
  | ZObject shape, JObj fields =>
      (fix each (sh : list (string * Schema)) : bool :=
         match sh with
         | [] => true
         | (k, s') :: sh' =>
             match field k fields with
             | Some v => conforms s' v && each sh'
             | None => false
             end
         end) shape
  | _, _ => false
  end.

(** Property access on a parsed value. *)
Definition prop (k : string) (j : Json) : option Json :=
  match j with
  | JObj fields => field k fields
  | _ => None
  end.

Definition as_number (j : option Json) : option Z :=
  match j with Some (JNum n) => Some n | _ => None end.

Definition as_string (j : option Json) : option string :=
  match j with Some (JStr s) => Some s | _ => None end.

(* ===================================================================== *)
(** ** The tables ([db/schema]) *)

(** [github_requests] *)
Record GithubRequest : Type := mkRequest {
  req_id : string;
  req_query : string;
  req_status : string;           (* text, default 'pending' *)
  req_config : Json;
  req_sessionId : string
}.

(** A candidate descriptor as returned by the code search; only [html_url]
    is ever read by the agents. *)
Record Repo : Type := mkRepo {
  html_url : string;
  full_name : string
}.

(** [hitl_reviews] *)
Record HitlReview : Type := mkHitl {
  hitl_id : string;
  hitl_requestId : string;
  repoSnapshotJson : option Repo;
  userVerdict : option bool;
  rationale : option string;
  hitl_status : string           (* text, default 'pending' *)
}.

(** [repo_analysis] *)
Record RepoAnalysis : Type := mkAnalysis {
  ra_id : string;
  ra_requestId : string;
  repoUrl : string;
  agentId : option string;
  ra_status : string;            (* text, default 'analyzing' *)
  aiRanking : option Z;
  aiSummary : option string;
  aiProsCons : option Json;
  stars : option Z;
  techStack : option Json
}.

(** [search_configs], the two columns [continue] reads. *)
Record SearchConfig : Type := mkConfig {
  cfg_name : string;
  reposToAnalyze : Z;            (* integer, default 20 *)
  isDefault : bool
}.

(** What the code does besides writing the tables above: the calls of the
    [BaseAgent] helpers, the messages sent over sockets, and the rows added
    to [sessions], a table that none of the code here reads. *)
Inductive Effect : Type :=
| EStatus (agent requestId status : string) (message : option string)
| ELog (agent requestId level message : string)
| EBroadcast (type requestId status : string)
| ESend (socket : nat) (payload : Json)
| EClose (socket : nat)
| ESession (id : string).

Record Store : Type := mkStore {
  githubRequests : list GithubRequest;
  hitlReviews : list HitlReview;
  repoAnalysis : list RepoAnalysis;
  searchConfigs : list SearchConfig;
  effects : list Effect;          (* oldest first *)
  uuids : nat                     (* calls of crypto.randomUUID so far *)
}.

(* ===================================================================== *)
(** ** Synthesis ([continue], phase 6) *)

(** [r.aiRanking ?? 0] *)
Definition ranking (r : RepoAnalysis) : Z :=
  match aiRanking r with Some n => n | None => 0 end.

(** The comparator handed to [Array.prototype.sort]:
    [(a, b) => (b.aiRanking ?? 0) - (a.aiRanking ?? 0)]. *)
Definition compareRanking (a b : RepoAnalysis) : Z := ranking b - ranking a.

(** Non-increasing relevance score, an absent score counting as 0. *)
Definition notBelow (a b : RepoAnalysis) : Prop := (ranking b <= ranking a)%Z.

(** [Array.prototype.sort] is stable: with a consistent comparator its
    result is the one permutation that is ordered by the comparator and
    keeps equal elements in their original order.  Insertion from the
    right computes that permutation: [x] goes in front of the first
    element it does not compare greater than. *)
Section Sort.
Variable A : Type.
Variable cmp : A -> A -> Z.

Fixpoint insert (x : A) (l : list A) : list A :=
  match l with
  | [] => [x]
  | y :: l' => if (cmp x y <=? 0)%Z then x :: y :: l' else y :: insert x l'
  end.

Fixpoint sort (l : list A) : list A :=
  match l with
  | [] => []
  | x :: l' => insert x (sort l')
  end.
End Sort.

(** [arr.slice(0, n)] for [n >= 0] *)
Definition slice0 (A : Type) (n : nat) (l : list A) : list A := firstn n l.

(** [db.query.repoAnalysis.findMany({ where: eq(repoAnalysis.requestId, requestId) })] *)
Definition findAnalyses (st : Store) (requestId : string) : list RepoAnalysis :=
  filter (fun r => String.eqb (ra_requestId r) requestId) (repoAnalysis st).

(** [analysisResults.sort(...).slice(0, 12)] *)
Definition top12Results (st : Store) (requestId : string) : list RepoAnalysis :=
  slice0 12 (sort compareRanking (findAnalyses st requestId)).

(* ===================================================================== *)
(** ** Agent code as store actions *)

(** An [async] method body: it reads and writes the store and either
    returns or throws.  Unlike a transaction, what was written before a
    throw stays written. *)
Definition Action (A : Type) : Type := Store -> Store * Result A.

Definition ret (A : Type) (a : A) : Action A := fun st => (st, Ok a).

Definition throw (A : Type) (message : string) : Action A :=
  fun st => (st, Throw message).

Arguments throw {A} message.

Definition bind (A B : Type) (m : Action A) (k : A -> Action B) : Action B :=
  fun st =>
    match m st with
    | (st', Ok a) => k a st'
    | (st', Throw message) => (st', Throw message)
    end.

(** [try { body } catch (error) { handler(error.message) }] *)
Definition try_catch (A : Type) (body : Action A) (handler : string -> Action A)
  : Action A :=
  fun st =>
    match body st with
    | (st', Ok a) => (st', Ok a)
    | (st', Throw message) => handler message st'
    end.

(** The result of a call into the environment, awaited. *)
Definition await (A : Type) (r : Result A) : Action A := fun st => (st, r).

Definition get : Action Store := fun st => (st, Ok st).

Declare Scope action_scope.
Delimit Scope action_scope with action.
Notation "x <- m ;; k" := (bind m (fun x => k))
  (at level 61, m at next level, right associativity) : action_scope.
Notation "m ;; k" := (bind m (fun _ => k))
  (at level 61, right associativity) : action_scope.
Local Open Scope action_scope.

Definition emit (e : Effect) : Action unit :=
  fun st =>
    (mkStore (githubRequests st) (hitlReviews st) (repoAnalysis st)
       (searchConfigs st) (effects st ++ [e]) (uuids st), Ok tt).

(** ** The environment *)

(** [github_get_repo]'s result; [stargazers_count] is the one field read. *)
Record RepoDetails : Type := mkDetails {
  stargazers_count : Z
}.

Record Env : Type := mkEnv {
  (** the n-th value returned by [crypto.randomUUID()] *)
  randomUUID : nat -> string;
  (** [new URL(u).pathname]; throws on a string that is not a URL *)
  url_pathname : string -> Result string;
  (** [tools.github_get_repo.execute({ owner, repo })] *)
  github_get_repo : string -> string -> Result RepoDetails;
  (** [tools.github_read_file.execute({ owner, repo, path })] *)
  github_read_file : string -> string -> string -> Result string;
  (** [tools.github_search_code.execute({ q })], its [items] *)
  github_search_code : string -> Result (list Repo);
  (** the language model's structured reply to a prompt, before validation *)
  model : string -> Result Json;
  (** the database refusing a [repo_analysis] row (a constraint of the
      table that the row violates), with the message of the error *)
  insert_error : RepoAnalysis -> option string;
  (** of the promises handed to one [Promise.all] that reject, given by
      their messages in the order of the array, the position of the one
      that rejects first *)
  rejectsFirst : list string -> nat;
  (** [JSON.stringify(value, null, 2)] on analysis rows and on snapshots *)
  stringifyResults : list RepoAnalysis -> string;
  stringifySnapshots : list (option Repo) -> string;
  (** the socket of [analystStub.fetch(".../ws")], when the upgrade succeeds *)
  analyst_ws : string -> option nat
}.

(** [crypto.randomUUID()] *)
Definition newUUID (env : Env) : Action string :=
  fun st =>
    (mkStore (githubRequests st) (hitlReviews st) (repoAnalysis st)
       (searchConfigs st) (effects st) (S (uuids st)),
     Ok (randomUUID env (uuids st))).

(* ===================================================================== *)
(** ** BaseAgent *)

Definition OrchestratorAgent_name : string := "OrchestratorAgent".
Definition GithubAnalystAgent_name : string := "GithubAnalystAgent".
Definition JudgeAgent_name : string := "JudgeAgent".

Definition setRequestStatus (requestId s : string) (r : GithubRequest) : GithubRequest :=
  if String.eqb (req_id r) requestId
  then mkRequest (req_id r) (req_query r) s (req_config r) (req_sessionId r)
  else r.

(** Modelled from the spec: [BaseAgent.status(requestId, status, message?)];
    [./core/base] is not among the sources.  The call is always recorded
    with the name of the agent that made it.  The lifecycle status of a
    SearchRequest is "mutated only by OrchestratorEngine" (spec, section 3):
    a call by the orchestrator sets the [status] column of the request, a
    call by another agent reports that agent's own status.  The helper is
    never given a candidate or a review item, and a RepoAnalysisResult is
    "written at most once per (request, candidate) pair", which in the
    sources is the insert at the end of [run]: the helper writes no
    [repo_analysis] or [hitl_reviews] row. *)
Definition status (agent requestId s : string) (message : option string) : Action unit :=
  fun st =>
    let requests :=
      if String.eqb agent OrchestratorAgent_name
      then map (setRequestStatus requestId s) (githubRequests st)
      else githubRequests st in
    (mkStore requests (hitlReviews st) (repoAnalysis st) (searchConfigs st)
       (effects st ++ [EStatus agent requestId s message]) (uuids st), Ok tt).

(** Modelled from the spec: [BaseAgent.logRequest(requestId, level, message,
    data?)], an operator-visible log line; it touches no table. *)
Definition logRequest (agent requestId level message : string) : Action unit :=
  emit (ELog agent requestId level message).

(** Modelled from the spec: [BaseAgent.broadcast(type, payload)], the
    phase-change notification. *)
Definition broadcast (type requestId s : string) : Action unit :=
  emit (EBroadcast type requestId s).

(** Modelled from the spec: [BaseAgent.generateStructured(prompt, schema)]
    "returns a validated structured object" and fails on a transport
    failure and on a schema-validation failure (spec, section 6). *)
Definition generateStructured (env : Env) (prompt : string) (schema : Schema)
  : Action Json :=
  fun st =>
    match model env prompt with
    | Ok j => if conforms schema j then (st, Ok j)
              else (st, Throw "Structured output failed schema validation")
    | Throw message => (st, Throw message)
    end.

(* ===================================================================== *)
(** ** Strings *)

Definition dq : string := String (ascii_of_nat 34) EmptyString.
Definition nl : string := String (ascii_of_nat 10) EmptyString.
Definition slash : ascii := ascii_of_nat 47.

(** [s.split(sep)] for a one-character separator *)
Fixpoint split (sep : ascii) (s : string) : list string :=
  match s with
  | EmptyString => [EmptyString]
  | String c s' =>
      if Ascii.eqb c sep then EmptyString :: split sep s'
      else match split sep s' with
           | [] => [String c EmptyString]
           | w :: ws => String c w :: ws
           end
  end.

(** [Boolean(s)] on a string *)
Definition truthy_string (s : string) : bool :=
  match s with EmptyString => false | _ => true end.

Definition lines (l : list string) : string := String.concat nl l.

(** [Boolean(value)] on a parsed value *)
Definition truthy (j : Json) : bool :=
  match j with
  | JNull => false
  | JBool b => b
  | JNum n => negb (n =? 0)%Z
  | JStr s => truthy_string s
  | JArr _ => true
  | JObj _ => true
  end.

(** [String(value)], which a template literal applies to [${value}]: a
    string is itself, an integer prints in decimal, an array prints its
    elements joined by ",", a [null] among them as the empty string, and
    an object prints as "[object Object]". *)
Fixpoint toString (j : Json) : string :=
  match j with
  | JNull => "null"
  | JBool b => if b then "true" else "false"
  | JNum n => NilZero.string_of_int (Z.to_int n)
  | JStr s => s
  | JArr items =>
      String.concat ","
        (map (fun item => match item with
                          | JNull => EmptyString
                          | _ => toString item
                          end) items)
  | JObj _ => "[object Object]"
  end.

Notation "a +++ b" := (String.append a b) (at level 60, right associativity).

(* ===================================================================== *)
(** ** GithubAnalystAgent ([lib/agents/analyst.ts]) *)

(** [AnalystState]: the latest correction received over the socket.  The
    interface declares a string, but [webSocketMessage] stores
    [obj.message] as it was parsed, whatever it is; [None] is
    [undefined]. *)
Record AnalystState : Type := mkAnalystState {
  correction : option Json
}.

(** [webSocketMessage]: a parsed message of type "correction" replaces the
    stored correction by its [message] property and is acknowledged;
    anything else is ignored. *)
Definition analystWebSocketMessage (self : AnalystState) (obj : Json)
  : AnalystState * list Json :=
  match prop "type" obj with
  | Some (JStr t) =>
      if String.eqb t "correction"
      then (mkAnalystState (prop "message" obj), [JObj [("type", JStr "ack")]])
      else (self, [])
  | _ => (self, [])
  end.

(** The schema handed to [generateStructured] in [run]. *)
Definition analysisSchema : Schema :=
  ZObject
    [("ai_ranking", ZNumber);
     ("ai_summary", ZString);
     ("ai_pros_cons", ZObject [("pros", ZArray ZString); ("cons", ZArray ZString)]);
     ("tech_stack", ZArray ZString)].

(** [packageJsonContent || "Not found"] *)
Definition orNotFound (content : option string) : string :=
  match content with
  | Some c => if truthy_string c then c else "Not found"
  | None => "Not found"
  end.

(** [this.state.correction ? `Correction from orchestrator: ...` : ""] *)
Definition correctionLine (self : AnalystState) : string :=
  match correction self with
  | Some c => if truthy c then "Correction from orchestrator: " +++ toString c
              else EmptyString
  | None => EmptyString
  end.

(** The template literal of [run], line by line: it opens with a line
    break, every line keeps its indentation, and it closes with the
    indentation of the closing backquote. *)
Definition analysisPrompt (self : AnalystState) (userQuery repoUrl readmeContent : string)
    (packageJsonContent : option string) : string :=
  lines
    [ EmptyString;
      "                Original user query: " +++ dq +++ userQuery +++ dq;
      "                Repository: " +++ repoUrl;
      "                README:";
      "                ---";
      "                " +++ readmeContent;
      "                ---";
      "                package.json:";
      "                ---";
      "                " +++ orNotFound packageJsonContent;
      "                ---";
      "                " +++ correctionLine self;
      EmptyString;
      "                Based on the information above, please provide a detailed analysis of this repository.";
      "                - How relevant is this repository to the user's query?";
      "                - What is the primary purpose of this repository?";
      "                - What is the tech stack?";
      "                - What are the pros and cons of this repository?";
      EmptyString;
      "                Provide your analysis as a JSON object with the following structure:";
      "                {";
      "                    " +++ dq +++ "ai_ranking" +++ dq +++ ": number, // A number between 1 and 100, where 100 is most relevant.";
      "                    " +++ dq +++ "ai_summary" +++ dq +++ ": string,";
      "                    " +++ dq +++ "ai_pros_cons" +++ dq +++ ": {";
      "                        " +++ dq +++ "pros" +++ dq +++ ": string[],";
      "                        " +++ dq +++ "cons" +++ dq +++ ": string[]";
      "                    },";
      "                    " +++ dq +++ "tech_stack" +++ dq +++ ": string[]";
      "                }";
      "            " ].

(** [db.query.repoAnalysis.findFirst({ where: and(eq(requestId), eq(repoUrl)) })] *)
Definition samePair (requestId url : string) (r : RepoAnalysis) : bool :=
  String.eqb (ra_requestId r) requestId && String.eqb (repoUrl r) url.

Definition findExistingAnalysis (st : Store) (requestId url : string)
  : option RepoAnalysis :=
  find (samePair requestId url) (repoAnalysis st).

(** [db.insert(repoAnalysis).values(row)].  Whether the database takes the
    row is the environment's to say: the table's constraints (among them
    the reference of [request_id] to a stored request) are the
    database's. *)
Definition insertAnalysis (env : Env) (row : RepoAnalysis) : Action unit :=
  fun st =>
    match insert_error env row with
    | Some message => (st, Throw message)
    | None =>
        (mkStore (githubRequests st) (hitlReviews st) (repoAnalysis st ++ [row])
           (searchConfigs st) (effects st) (uuids st), Ok tt)
    end.

(** [promise.catch(() => null)] *)
Definition catch_null (A : Type) (r : Result A) : option A :=
  match r with Ok a => Some a | Throw _ => None end.

(** The body of the [try] block of [run]. *)
Definition run_try (env : Env) (self : AnalystState)
    (requestId url userQuery : string) : Action unit :=
  st <- get ;;
  match findExistingAnalysis st requestId url with
  | Some _ =>
      logRequest GithubAnalystAgent_name requestId "info"
        ("Skipping analysis for " +++ url +++ ", already analyzed.")
  | None =>
      pathname <- await (url_pathname env url) ;;
      match filter truthy_string (split slash pathname) with
      | owner :: repo :: _ =>
          (* 1. Get repository details. *)
          repoDetails <- await (github_get_repo env owner repo) ;;
          (* 2. Analyze the repository content. *)
          readmeContent <- await (github_read_file env owner repo "README.md") ;;
          let packageJsonContent :=
            catch_null (github_read_file env owner repo "package.json") in
          (* 3. Generate analysis. *)
          analysis <- generateStructured env
                        (analysisPrompt self userQuery url readmeContent packageJsonContent)
                        analysisSchema ;;
          (* 4. Save the analysis to the database. *)
          id <- newUUID env ;;
          insertAnalysis env
            (mkAnalysis id requestId url (Some GithubAnalystAgent_name) "complete"
               (as_number (prop "ai_ranking" analysis))
               (as_string (prop "ai_summary" analysis))
               (prop "ai_pros_cons" analysis)
               (Some (stargazers_count repoDetails))
               (prop "tech_stack" analysis)) ;;
          status GithubAnalystAgent_name requestId "complete" None ;;
          logRequest GithubAnalystAgent_name requestId "info" "Analysis complete."
      | _ => throw "Invalid repository URL"
      end
  end.

(** The two calls of [run] in front of its [try] block. *)
Definition run_enter (requestId url : string) : Action unit :=
  status GithubAnalystAgent_name requestId "analyzing" None ;;
  logRequest GithubAnalystAgent_name requestId "info" ("Analyzing repository: " +++ url).

(** The [catch] block of [run]. *)
Definition run_catch (requestId : string) (message : string) : Action unit :=
  status GithubAnalystAgent_name requestId "error" (Some message) ;;
  logRequest GithubAnalystAgent_name requestId "error" "Analysis failed".

(** [GithubAnalystAgent.run(requestId, repoUrl, userQuery)] *)
Definition run (env : Env) (self : AnalystState)
    (requestId url userQuery : string) : Action unit :=
  run_enter requestId url ;;
  try_catch (run_try env self requestId url userQuery) (run_catch requestId).

(* ===================================================================== *)
(** ** JudgeAgent ([lib/agents/judge]) *)

Definition reviewSchema : Schema :=
  ZObject
    [("approved_results",
      ZArray (ZObject [("id", ZString); ("reasoning", ZString)]));
     ("rejected_results",
      ZArray (ZObject [("id", ZString); ("reasoning", ZString);
                       ("enrichment_request", ZString)]))].

Definition reviewPrompt (env : Env) (userQuery : string) (results : list RepoAnalysis)
  : string :=
  lines
    [ EmptyString;
      "            Original user query: " +++ dq +++ userQuery +++ dq;
      EmptyString;
      "            Here are the top 12 results from the OrchestratorAgent:";
      "            ---";
      "            " +++ stringifyResults env results;
      "            ---";
      EmptyString;
      "            Please review these results and determine if they are a good match for the user's query.";
      "            - Are the summaries clear and concise?";
      "            - Are the pros and cons well-reasoned?";
      "            - Is the AI ranking accurate?";
      EmptyString;
      "            Provide your review as a JSON object with the following structure:";
      "            {";
      "                " +++ dq +++ "approved_results" +++ dq +++ ": [";
      "                    {";
      "                        " +++ dq +++ "id" +++ dq +++ ": string, // The ID of the result.";
      "                        " +++ dq +++ "reasoning" +++ dq +++ ": string,";
      "                    }";
      "                ],";
      "                " +++ dq +++ "rejected_results" +++ dq +++ ": [";
      "                    {";
      "                        " +++ dq +++ "id" +++ dq +++ ": string,";
      "                        " +++ dq +++ "reasoning" +++ dq +++ ": string, // Why the result was rejected.";
      "                        " +++ dq +++ "enrichment_request" +++ dq +++ ": string, // What the orchestrator should do to improve the result.";
      "                    }";
      "                ]";
      "            }";
      "        " ].

(** [review.approved_results.map(r => r.id)] *)
Definition approvedIds (review : Json) : list string :=
  match prop "approved_results" review with
  | Some (JArr items) =>
      flat_map (fun item => match as_string (prop "id" item) with
                            | Some id => [id]
                            | None => []
                            end) items
  | _ => []
  end.

Definition has (ids : list string) (id : string) : bool :=
  existsb (String.eqb id) ids.

(** [JudgeAgent.review(requestId, userQuery, results)] *)
Definition review (env : Env) (requestId userQuery : string)
    (results : list RepoAnalysis) : Action (list RepoAnalysis) :=
  status JudgeAgent_name requestId "judging" None ;;
  logRequest JudgeAgent_name requestId "info" "Judging results." ;;
  verdicts <- generateStructured env (reviewPrompt env userQuery results) reviewSchema ;;
  let finalResults := filter (fun r => has (approvedIds verdicts) (ra_id r)) results in
  status JudgeAgent_name requestId "judged" None ;;
  logRequest JudgeAgent_name requestId "info" "Judging complete." ;;
  ret finalResults.

(* ===================================================================== *)
(** ** OrchestratorAgent ([lib/agents/orchestrator]) *)

(** The values of the promises that fulfil and the messages of those that
    reject, both in the order of the array. *)
Definition fulfilments (A : Type) (rs : list (Result A)) : list A :=
  flat_map (fun r => match r with Ok a => [a] | Throw _ => [] end) rs.

Definition rejections (A : Type) (rs : list (Result A)) : list string :=
  flat_map (fun r => match r with Ok _ => [] | Throw message => [message] end) rs.

(** [Promise.all] over calls that have been issued: when every promise
    fulfils, the values in the order of the array; otherwise the rejection
    of the promise that rejects first, which is for the environment to
    say. *)
Definition all (A : Type) (env : Env) (rs : list (Result A)) : Result (list A) :=
  match rejections rs with
  | [] => Ok (fulfilments rs)
  | message :: others =>
      Throw (nth (rejectsFirst env (message :: others)) (message :: others) message)
  end.

(** A validated [z.array(z.string())] as a list. *)
Definition strings_of (j : Json) : list string :=
  match j with
  | JArr items =>
      flat_map (fun item => match item with JStr s => [s] | _ => [] end) items
  | _ => []
  end.

Definition searchQueriesPrompt (userQuery : string) : string :=
  lines
    [ EmptyString;
      "            Based on the user's query, generate 3-5 distinct GitHub search queries to find relevant repositories.";
      "            User query: " +++ dq +++ userQuery +++ dq;
      "            Return a JSON array of strings.";
      "        " ].

Definition generateSearchQueries (env : Env) (userQuery : string) : Action (list string) :=
  result <- generateStructured env (searchQueriesPrompt userQuery) (ZArray ZString) ;;
  ret (strings_of result).

Definition refinePrompt (env : Env) (userQuery : string)
    (positiveExamples : list (option Repo)) : string :=
  lines
    [ EmptyString;
      "            The user initially provided this query: " +++ dq +++ userQuery +++ dq;
      "            They have since approved the following repositories:";
      "            ---";
      "            " +++ stringifySnapshots env positiveExamples;
      "            ---";
      "            Based on this new information, generate 3-5 new, more specific GitHub search queries.";
      "            Return a JSON array of strings.";
      "        " ].

Definition refineSearchQueries (env : Env) (userQuery : string)
    (positiveExamples : list (option Repo)) : Action (list string) :=
  result <- generateStructured env (refinePrompt env userQuery positiveExamples)
              (ZArray ZString) ;;
  ret (strings_of result).

(** [searchResults.flatMap(r => r.items)] after
    [Promise.all(queries.map(q => tools.github_search_code.execute({ q })))] *)
Definition searchAll (env : Env) (queries : list string) : Action (list Repo) :=
  searchResults <- await (all env (map (github_search_code env) queries)) ;;
  ret (List.concat searchResults).

(** [db.insert(hitlReviews).values(rows)]; the columns not given take their
    defaults.  The query builder refuses an empty array before anything is
    sent to the database: [values([])] throws.  Rows are taken as they
    come: they carry identifiers just drawn and the request of the caller,
    which the search route stores before it calls [start]. *)
Definition insertHitlReviews (rows : list HitlReview) : Action unit :=
  fun st =>
    match rows with
    | [] => (st, Throw "values() must be called with at least one value")
    | _ :: _ =>
        (mkStore (githubRequests st) (hitlReviews st ++ rows) (repoAnalysis st)
           (searchConfigs st) (effects st) (uuids st), Ok tt)
    end.

(** [top5Repos.map(repo => ({ id: crypto.randomUUID(), requestId, repoSnapshotJson: repo }))] *)
Fixpoint hitlReviewsToCreate (env : Env) (requestId : string) (repos : list Repo)
  : Action (list HitlReview) :=
  match repos with
  | [] => ret []
  | repo :: rest =>
      id <- newUUID env ;;
      rows <- hitlReviewsToCreate env requestId rest ;;
      ret (mkHitl id requestId (Some repo) None None "pending" :: rows)
  end.

(** [OrchestratorAgent.start(requestId, query, config)] *)
Definition start (env : Env) (requestId query : string) (config : Json) : Action unit :=
  logRequest OrchestratorAgent_name requestId "info" "Starting new search." ;;
  (* Phase 1: Sampling *)
  status OrchestratorAgent_name requestId "sampling" None ;;
  broadcast "status" requestId "sampling" ;;
  searchQueries <- generateSearchQueries env query ;;
  candidates <- searchAll env searchQueries ;;
  let top5Repos := slice0 5 candidates in
  (* Phase 2: HITL *)
  status OrchestratorAgent_name requestId "hitl" None ;;
  broadcast "status" requestId "hitl" ;;
  rows <- hitlReviewsToCreate env requestId top5Repos ;;
  insertHitlReviews rows ;;
  broadcast "hitl" requestId "hitl".

(** [db.query.githubRequests.findFirst({ where: eq(githubRequests.id, requestId) })] *)
Definition findRequest (st : Store) (requestId : string) : option GithubRequest :=
  find (fun r => String.eqb (req_id r) requestId) (githubRequests st).

(** [db.query.hitlReviews.findMany({ where: eq(hitlReviews.requestId, requestId) })],
    also the [with: { hitlReviews: true }] relation of a request *)
Definition findReviews (st : Store) (requestId : string) : list HitlReview :=
  filter (fun r => String.eqb (hitl_requestId r) requestId) (hitlReviews st).

(** [config?.reposToAnalyze ?? 20] for the configuration flagged default *)
Definition reposToAnalyzeCount (st : Store) : Z :=
  match find isDefault (searchConfigs st) with
  | Some config => reposToAnalyze config
  | None => 20
  end.

(** [arr.slice(0, n)] for any integer [n]: a negative end counts from the
    end of the array. *)
Definition sliceTo (A : Type) (n : Z) (l : list A) : list A :=
  if (0 <=? n)%Z then firstn (Z.to_nat n) l
  else firstn (List.length l - Z.to_nat (- n)) l.

(** [r => r.userVerdict] as a filter predicate *)
Definition approved (r : HitlReview) : bool :=
  match userVerdict r with Some true => true | _ => false end.

(** [OrchestratorAgent.continue(requestId)] up to the start of Supervision:
    the request lookup, Expansion and Delegation.  It returns the request
    and [reposToAnalyze]. *)
Definition continue_delegation (env : Env) (requestId : string)
  : Action (GithubRequest * list Repo) :=
  st <- get ;;
  match findRequest st requestId with
  | None => throw "Request not found"
  | Some request =>
      let reviews := findReviews st requestId in
      let count := reposToAnalyzeCount st in
      (* Phase 3: Expansion *)
      status OrchestratorAgent_name requestId "expansion" None ;;
      broadcast "status" requestId "expansion" ;;
      let positiveReviews := filter approved reviews in
      refinedSearchQueries <-
        refineSearchQueries env (req_query request) (map repoSnapshotJson positiveReviews) ;;
      (* Phase 4: Delegation *)
      status OrchestratorAgent_name requestId "delegation" None ;;
      broadcast "status" requestId "delegation" ;;
      candidates <- searchAll env refinedSearchQueries ;;
      let reposToAnalyze := sliceTo count candidates in
      (* Phase 5: Supervision *)
      status OrchestratorAgent_name requestId "supervision" None ;;
      broadcast "status" requestId "supervision" ;;
      ret (request, reposToAnalyze)
  end.

(** The name of the analyst of a candidate: [`${requestId}-${repo.html_url}`]. *)
Definition analystName (requestId : string) (repo : Repo) : string :=
  requestId +++ "-" +++ html_url repo.

(** The sockets opened at the start of Supervision, when none is held yet. *)
Definition connectAnalysts (env : Env) (analystSockets : list nat)
    (requestId : string) (reposToAnalyze : list Repo) : list nat :=
  match analystSockets with
  | [] => flat_map (fun repo => match analyst_ws env (analystName requestId repo) with
                                | Some ws => [ws]
                                | None => []
                                end) reposToAnalyze
  | _ => analystSockets
  end.

(** *** The correction monitor *)

Definition correctionMessage : Json :=
  JObj [("type", JStr "correction");
        ("message",
         JStr "The AI ranking seems low. Please be more generous with your rankings.")].

Definition sendAll (sockets : list nat) (payload : Json) : Action unit :=
  fun st =>
    (mkStore (githubRequests st) (hitlReviews st) (repoAnalysis st)
       (searchConfigs st)
       (effects st ++ map (fun ws => ESend ws payload) sockets) (uuids st), Ok tt).

(** One firing of the [setInterval] callback. *)
Definition monitorTick (analystSockets : list nat) (requestId : string) : Action unit :=
  st <- get ;;
  let analysisResults := findAnalyses st requestId in
  if existsb (fun r => (ranking r <? 10)%Z) analysisResults
  then sendAll analystSockets correctionMessage
  else ret tt.

(** *** Draining the queue *)

Definition concurrency : nat := 5.

(** How the promise of an [analyst.run(...)] call settles.  [run] returning
    (analysis persisted, pair skipped, or failure caught inside [run])
    fulfils it; only a throw that escapes [run] rejects it. *)
Inductive Settlement : Type := Fulfilled | Rejected.

(** The [while (running.length > 0) await Promise.race(running)] loop of
    [continue]: still waiting, past the loop, or left by the exception of
    a rejected race. *)
Inductive Waiter : Type := Awaiting | Drained | Aborted.

(** A promise is named by the number of [analyst.run] calls made before
    it. *)
Record Pool : Type := mkPool {
  queue : list Repo;
  running : list nat;                  (* the [running] array *)
  started : list (nat * Repo);         (* [analyst.run] calls, oldest first *)
  settled : list (nat * Settlement);   (* settled promises, oldest first *)
  waiter : Waiter
}.

(** [processQueue]: the [while] loop, one iteration per dequeued repo. *)
Fixpoint processQueue (queue : list Repo) (running : list nat)
    (started : list (nat * Repo)) : list Repo * list nat * list (nat * Repo) :=
  match queue with
  | [] => (queue, running, started)
  | repo :: rest =>
      if Nat.ltb (List.length running) concurrency
      then processQueue rest (running ++ [List.length started])
             (started ++ [(List.length started, repo)])
      else (queue, running, started)
  end.

(** [running.indexOf(promise)] then [running.splice(index, 1)] *)
Fixpoint splice (p : nat) (running : list nat) : list nat :=
  match running with
  | [] => []
  | q :: rest => if Nat.eqb q p then rest else q :: splice p rest
  end.

Definition pending (pool : Pool) (p : nat) : bool :=
  existsb (Nat.eqb p) (map fst (started pool))
  && negb (existsb (Nat.eqb p) (map fst (settled pool))).

(** The loop test after a wake-up. *)
Definition recheck (w : Waiter) (running : list nat) : Waiter :=
  match w with
  | Awaiting => match running with [] => Drained | _ => Awaiting end
  | _ => w
  end.

(** The state when [continue] reaches its [while] loop. *)
Definition supervise (reposToAnalyze : list Repo) : Pool :=
  match processQueue reposToAnalyze [] [] with
  | (queue', running', started') =>
      mkPool queue' running' started' [] (recheck Awaiting running')
  end.

(** One promise settling.  Fulfilled: the [then] callback removes it from
    [running] and calls [processQueue]; the race resolves and the loop
    tests [running.length] again.  Rejected: the callback is skipped, the
    promise stays in [running], and the awaited race throws. *)
Definition settle (pool : Pool) (p : nat) (how : Settlement) : option Pool :=
  if pending pool p then
    match how with
    | Fulfilled =>
        match processQueue (queue pool) (splice p (running pool)) (started pool) with
        | (queue', running', started') =>
            Some (mkPool queue' running' started'
                    (settled pool ++ [(p, Fulfilled)])
                    (recheck (waiter pool) running'))
        end
    | Rejected =>
        Some (mkPool (queue pool) (running pool) (started pool)
                (settled pool ++ [(p, Rejected)])
                (match waiter pool with Awaiting => Aborted | w => w end))
    end
  else None.

(** A history of settlements, in the order they happen. *)
Fixpoint settleAll (pool : Pool) (history : list (nat * Settlement)) : option Pool :=
  match history with
  | [] => Some pool
  | (p, how) :: rest =>
      match settle pool p how with
      | Some pool' => settleAll pool' rest
      | None => None
      end
  end.

(** The settlement of a [run] call. *)
Definition settlement (r : Result unit) : Settlement :=
  match r with Ok _ => Fulfilled | Throw _ => Rejected end.

(** *** After the drain: Synthesis and Handoff *)

Definition closeAll (sockets : list nat) : Action unit :=
  fun st =>
    (mkStore (githubRequests st) (hitlReviews st) (repoAnalysis st)
       (searchConfigs st) (effects st ++ map EClose sockets) (uuids st), Ok tt).

(** [continue] from [clearInterval(monitor)] to its end. *)
Definition continue_synthesis (env : Env) (analystSockets : list nat)
    (request : GithubRequest) : Action (list RepoAnalysis) :=
  let requestId := req_id request in
  closeAll analystSockets ;;
  (* Phase 6: Synthesis *)
  status OrchestratorAgent_name requestId "synthesis" None ;;
  broadcast "status" requestId "synthesis" ;;
  st <- get ;;
  let top12 := top12Results st requestId in
  (* Phase 7: Handoff & Enrichment Loop *)
  status OrchestratorAgent_name requestId "handoff" None ;;
  broadcast "status" requestId "handoff" ;;
  finalResults <- review env requestId (req_query request) top12 ;;
  let rejectedResults :=
    filter (fun r => negb (existsb (fun fr => String.eqb (ra_id fr) (ra_id r)) finalResults))
      top12 in
  (match rejectedResults with
   | [] => ret tt
   | _ => logRequest OrchestratorAgent_name requestId "info" "Enrichment requested."
   end) ;;
  status OrchestratorAgent_name requestId "completed" None ;;
  broadcast "status" requestId "completed" ;;
  logRequest OrchestratorAgent_name requestId "info" "Search complete." ;;
  ret finalResults.

(* ===================================================================== *)
(** ** The agent routes ([agentRouter]) *)

(** [db.insert(sessions).values({ id })] *)
Definition insertSession (id : string) : Action unit := emit (ESession id).

(** [db.insert(githubRequests).values(row)]; the status takes its default. *)
Definition insertRequest (row : GithubRequest) : Action unit :=
  fun st =>
    (mkStore (githubRequests st ++ [row]) (hitlReviews st) (repoAnalysis st)
       (searchConfigs st) (effects st) (uuids st), Ok tt).

(** [POST /search].  [session] is the identifier of the session the
    middleware found for the caller, if any; without one the handler
    creates a session under a fresh identifier.  The request row is
    inserted, then [start] is handed to [waitUntil], which swallows its
    outcome. *)
Definition searchRoute (env : Env) (session : option string) (query : string)
    (config : option Json) : Action string :=
  requestId <- newUUID env ;;
  sessionId <- match session with
               | Some id => ret id
               | None =>
                   newSessionId <- newUUID env ;;
                   insertSession newSessionId ;;
                   ret newSessionId
               end ;;
  insertRequest
    (mkRequest requestId query "pending"
       (match config with Some c => c | None => JObj [] end) sessionId) ;;
  try_catch (start env requestId query (match config with Some c => c | None => JNull end))
    (fun _ => ret tt) ;;
  ret requestId.

(** The body of [POST /hitl/{reviewId}/review]. *)
Record Submission : Type := mkSubmission {
  sub_reviewId : string;
  sub_userVerdict : bool;
  sub_rationale : option string
}.

(** [db.update(hitlReviews).set({...}).where(eq(hitlReviews.id, reviewId))]
    on one row *)
Definition setVerdict (s : Submission) (r : HitlReview) : HitlReview :=
  if String.eqb (hitl_id r) (sub_reviewId s)
  then mkHitl (hitl_id r) (hitl_requestId r) (repoSnapshotJson r)
         (Some (sub_userVerdict s))
         (Some (match sub_rationale s with Some t => t | None => EmptyString end))
         "reviewed"
  else r.

(** The rows the update addresses. *)
Definition addressed (s : Submission) (r : HitlReview) : bool :=
  String.eqb (hitl_id r) (sub_reviewId s).

(** The update on the table.  The list is the table in the order in which
    a query without [orderBy] returns its rows, which is the database's
    doing: PostgreSQL writes the new version of an updated row behind the
    rows it leaves in place, so the updated rows come last. *)
Definition reviewUpdate (s : Submission) (st : Store) : Store :=
  mkStore (githubRequests st)
    (filter (fun r => negb (addressed s r)) (hitlReviews st)
     ++ map (setVerdict s) (filter (addressed s) (hitlReviews st)))
    (repoAnalysis st) (searchConfigs st) (effects st) (uuids st).

Definition reviewed (r : HitlReview) : bool := String.eqb (hitl_status r) "reviewed".

(** [allReviews.length === reviewedCount] *)
Definition allReviewed (st : Store) (requestId : string) : bool :=
  let allReviews := findReviews st requestId in
  let reviewedCount := List.length (filter reviewed allReviews) in
  Nat.eqb (List.length allReviews) reviewedCount.

(** The second half of the handler: the request whose [continue] it hands
    to [waitUntil], if any. *)
Definition reviewCheck (s : Submission) (st : Store) : option string :=
  match find (fun r => String.eqb (hitl_id r) (sub_reviewId s)) (hitlReviews st) with
  | Some rv =>
      if allReviewed st (hitl_requestId rv) then Some (hitl_requestId rv) else None
  | None => None
  end.

(** The handler run without interruption. *)
Definition reviewHitlRoute (s : Submission) (st : Store) : Store * option string :=
  let st' := reviewUpdate s st in (st', reviewCheck s st').

Definition opt_list (A : Type) (o : option A) : list A :=
  match o with Some a => [a] | None => [] end.

(** Requests handled one after the other; the result lists the
    [orchestrator.continue] calls made, oldest first. *)
Fixpoint submitAll (st : Store) (subs : list Submission) : Store * list string :=
  match subs with
  | [] => (st, [])
  | s :: rest =>
      let '(st1, called) := reviewHitlRoute s st in
      let '(st2, calls) := submitAll st1 rest in
      (st2, opt_list called ++ calls)
  end.

(** Two requests in flight at once: each handler is suspended at its
    [await]s, so the update of one may run before the check of another. *)
Inductive RouteStep : Type :=
| Update (s : Submission)
| Check (s : Submission).

Fixpoint interleave (st : Store) (steps : list RouteStep) : Store * list string :=
  match steps with
  | [] => (st, [])
  | Update s :: rest => interleave (reviewUpdate s st) rest
  | Check s :: rest =>
      let '(st', calls) := interleave st rest in
      (st', opt_list (reviewCheck s st) ++ calls)
  end.

(** [GET /hitl/{requestId}] and [GET /results/{requestId}] *)
Definition getHitlRoute (st : Store) (requestId : string) : list (string * option Repo) :=
  map (fun r => (hitl_id r, repoSnapshotJson r)) (findReviews st requestId).

Definition getResultsRoute (st : Store) (requestId : string) : list RepoAnalysis :=
  findAnalyses st requestId.

(** Occurrences of a request among the [continue] calls. *)
Definition calls_of (requestId : string) (calls : list string) : nat :=
  List.length (filter (String.eqb requestId) calls).

(* ===================================================================== *)
(** ** Invariants of the pool *)

(** What holds of the pool whatever happens to the promises. *)
Record PoolShape (repos : list Repo) (pool : Pool) : Prop := mkPoolShape {
  shape_bound : List.length (running pool) <= concurrency;
  shape_order : map snd (started pool) ++ queue pool = repos;
  shape_ids : map fst (started pool) = seq 0 (List.length (started pool))
}.

(** What holds as long as no promise has been rejected. *)
Record PoolClean (pool : Pool) : Prop := mkPoolClean {
  clean_partition :
    Permutation (running pool ++ map fst (settled pool)) (map fst (started pool));
  clean_full : queue pool <> [] -> List.length (running pool) = concurrency;
  clean_waiter : waiter pool = recheck Awaiting (running pool)
}.

Definition fulfilled (e : nat * Settlement) : Prop := snd e = Fulfilled.

(** *** A delegation of 23 candidates *)

Definition candidate (n : nat) : Repo :=
  mkRepo ("https://github.com/acme/repo-" +++ String (ascii_of_nat (97 + n)) EmptyString)
         ("acme/repo-" +++ String (ascii_of_nat (97 + n)) EmptyString).

Definition repos23 : list Repo := map candidate (seq 0 23).

(** The promises settle out of order: 4 first, then 0, ... *)
Definition history23 : list (nat * Settlement) :=
  map (fun p => (p, Fulfilled))
    [4; 0; 5; 1; 2; 3; 8; 7; 6; 9; 10; 14; 13; 12; 11; 15; 16; 17; 22; 21; 20; 19; 18].

(* ===================================================================== *)
(** ** Frames *)

(** A column of the store that an action leaves as it found it. *)
Definition unchanged (T : Type) (f : Store -> T) (st st' : Store) : Prop :=
  f st' = f st.

Definition preserves (T A : Type) (f : Store -> T) (m : Action A) : Prop :=
  forall st, unchanged f st (fst (m st)).

(** The rows of a (request, candidate) pair. *)
Definition pairRows (st : Store) (requestId url : string) : list RepoAnalysis :=
  filter (samePair requestId url) (repoAnalysis st).

(** The row [run] inserts for a validated analysis. *)
Definition completeRow (id requestId url : string) (details : RepoDetails)
    (analysis : Json) : RepoAnalysis :=
  mkAnalysis id requestId url (Some GithubAnalystAgent_name) "complete"
    (as_number (prop "ai_ranking" analysis))
    (as_string (prop "ai_summary" analysis))
    (prop "ai_pros_cons" analysis)
    (Some (stargazers_count details))
    (prop "tech_stack" analysis).

(** What was fetched and generated when [run] inserts its row. *)
Definition analysed (env : Env) (self : AnalystState) (requestId url userQuery : string)
    (st : Store) (row : RepoAnalysis) : Prop :=
  exists pathname owner repo rest details readme analysis,
    url_pathname env url = Ok pathname
    /\ filter truthy_string (split slash pathname) = owner :: repo :: rest
    /\ github_get_repo env owner repo = Ok details
    /\ github_read_file env owner repo "README.md" = Ok readme
    /\ model env (analysisPrompt self userQuery url readme
                    (catch_null (github_read_file env owner repo "package.json")))
       = Ok analysis
    /\ conforms analysisSchema analysis = true
    /\ row = completeRow (randomUUID env (uuids st)) requestId url details analysis
    /\ insert_error env row = None.

(* ===================================================================== *)
(** ** Scenarios *)

(** A request under Supervision that has no result yet. *)
Definition supervising : Store :=
  mkStore [mkRequest "req-1" "auth libraries for CF Workers" "supervision" (JObj [])
             "session-1"]
    [] [] [] [] 6.


Definition authUrl : string := "https://github.com/acme/auth".

(** A reply of the model that passes [analysisSchema], with the given
    [ai_ranking]. *)
Definition analysisReply (rank : Z) : Json :=
  JObj [("ai_ranking", JNum rank);
        ("ai_summary", JStr "Session and token authentication for Workers.");
        ("ai_pros_cons",
         JObj [("pros", JArr [JStr "small"; JStr "typed"]);
               ("cons", JArr [JStr "young"])]);
        ("tech_stack", JArr [JStr "typescript"])].

(** An environment for one analyst: what the repository lookup and the
    read of [package.json] return, and the ranking the model gives. *)
Definition analystEnv (details : Result RepoDetails) (packageJson : Result string)
    (rank : Z) : Env :=
  mkEnv
    (fun n => "uuid-" +++ String (ascii_of_nat (97 + n)) EmptyString)
    (fun u => if String.eqb u authUrl then Ok "/acme/auth" else Throw "Invalid URL")
    (fun _ _ => details)
    (fun _ _ path => if String.eqb path "package.json" then packageJson
                     else Ok "# auth")
    (fun _ => Ok [])
    (fun _ => Ok (analysisReply rank))
    (fun _ => None)
    (fun _ => 0)
    (fun _ => "[]")
    (fun _ => "[]")
    (fun _ => None).

(** The code host is down. *)
Definition hostDown : Env :=
  analystEnv (Throw "GitHub API responded 502") (Throw "GitHub API responded 502") 50.

(** The repository has no [package.json]. *)
Definition noManifest : Env :=
  analystEnv (Ok (mkDetails 1200)) (Throw "Not Found") 87.

(** The model answers with a ranking of 150. *)
Definition generous : Env :=
  analystEnv (Ok (mkDetails 1200)) (Ok "{}") 150.

Definition idle : AnalystState := mkAnalystState None.

(** What the database answers to a row whose [request_id] names no stored
    request. *)
Definition referenceMessage : string :=
  "insert or update on table " +++ dq +++ "repo_analysis" +++ dq
  +++ " violates foreign key constraint "
  +++ dq +++ "repo_analysis_request_id_github_requests_id_fk" +++ dq.

(** The database refuses the row. *)
Definition refusing : Env :=
  mkEnv (randomUUID noManifest) (url_pathname noManifest) (github_get_repo noManifest)
    (github_read_file noManifest) (github_search_code noManifest) (model noManifest)
    (fun _ => Some referenceMessage)
    (rejectsFirst noManifest) (stringifyResults noManifest) (stringifySnapshots noManifest)
    (analyst_ws noManifest).

(** *** One request under review *)

(** The model proposes two queries, whatever it is asked; the code search
    finds the given candidates for each. *)
Definition orchestratorEnv (found : list Repo) : Env :=
  mkEnv
    (fun n => "uuid-" +++ String (ascii_of_nat (97 + n)) EmptyString)
    (fun _ => Throw "Invalid URL")
    (fun _ _ => Throw "Not Found")
    (fun _ _ _ => Throw "Not Found")
    (fun _ => Ok found)
    (fun _ => Ok (JArr [JStr "cloudflare workers auth"; JStr "workers jwt session"]))
    (fun _ => None)
    (fun _ => 0)
    (fun _ => "[]")
    (fun _ => "[]")
    (fun _ => None).

Definition authRequest : GithubRequest :=
  mkRequest "req-1" "auth libraries for CF Workers" "hitl" (JObj []) "session-1".

(** A request in the HITL phase with one, and with two, items to review. *)
Definition oneItem : Store :=
  mkStore [authRequest]
    [mkHitl "rev-1" "req-1" (Some (candidate 0)) None None "pending"]
    [] [] [] 1.

Definition twoItems : Store :=
  mkStore [authRequest]
    [mkHitl "rev-1" "req-1" (Some (candidate 0)) None None "pending";
     mkHitl "rev-2" "req-1" (Some (candidate 1)) None None "pending"]
    [] [] [] 2.

Definition approve (reviewId : string) : Submission :=
  mkSubmission reviewId true None.

(** The two items reviewed: the first approved, the second turned down. *)
Definition bothReviewed : Store :=
  fst (submitAll twoItems [approve "rev-1"; mkSubmission "rev-2" false (Some "abandoned")]).

(** A request that has been created but not sampled yet. *)
Definition submitted : Store :=
  mkStore [mkRequest "req-1" "auth libraries for CF Workers" "pending" (JObj []) "session-1"]
    [] [] [] [] 1.

(** The reviewed items of a request carry an identifier among [done]. *)
Definition reviewedWithin (requestId : string) (done : list string) (st : Store) : Prop :=
  forall r, In r (hitlReviews st) -> hitl_requestId r = requestId ->
            reviewed r = true -> In (hitl_id r) done.

(** The request "req-1" under review after an earlier request, "req-0",
    has been reviewed and resumed. *)
Definition secondRequest : Store :=
  mkStore
    [mkRequest "req-0" "rate limiting" "completed" (JObj []) "session-1"; authRequest]
    [mkHitl "rev-1" "req-1" (Some (candidate 0)) None None "pending";
     mkHitl "rev-2" "req-1" (Some (candidate 1)) None None "pending";
     mkHitl "rev-0" "req-0" (Some (candidate 2)) (Some true) (Some EmptyString) "reviewed"]
    [] [] [] 5.

(** Every item of the request is reviewed. *)
Definition complete (st : Store) (requestId : string) : Prop :=
  forall r, In r (hitlReviews st) -> hitl_requestId r = requestId -> reviewed r = true.

(** *** Supervision under way *)

(** Two results so far for "req-1": one scored 72, one without a score. *)
Definition underWay : Store :=
  mkStore
    [mkRequest "req-1" "auth libraries for CF Workers" "supervision" (JObj []) "session-1"]
    []
    [mkAnalysis "ra-1" "req-1" "https://github.com/acme/repo-a"
       (Some GithubAnalystAgent_name) "complete" (Some 72%Z)
       (Some "Token authentication.") None (Some 310%Z) None;
     mkAnalysis "ra-2" "req-1" "https://github.com/acme/repo-b"
       (Some GithubAnalystAgent_name) "analyzing" None None None None None]
    [] [] 2.

(* ===================================================================== *)
(** ** Further notions and scenarios *)

(** [l1] is [l2] with some elements left out, the others in place. *)
Inductive Subseq (A : Type) : list A -> list A -> Prop :=
| subseq_nil : Subseq [] []
| subseq_skip (x : A) (l1 l2 : list A) : Subseq l1 l2 -> Subseq l1 (x :: l2)
| subseq_keep (x : A) (l1 l2 : list A) : Subseq l1 l2 -> Subseq (x :: l1) (x :: l2).

(** A reply of the model that passes [reviewSchema], approving the given
    identifiers. *)
Definition reviewReply (approvedOnes : list string) : Json :=
  JObj [("approved_results",
         JArr (map (fun id => JObj [("id", JStr id); ("reasoning", JStr "relevant")])
                 approvedOnes));
        ("rejected_results", JArr [])].

(** An environment for the judge: what the model answers. *)
Definition judgeEnv (answer : Result Json) : Env :=
  mkEnv
    (fun n => "uuid-" +++ String (ascii_of_nat (97 + n)) EmptyString)
    (fun _ => Throw "Invalid URL")
    (fun _ _ => Throw "Not Found")
    (fun _ _ _ => Throw "Not Found")
    (fun _ => Ok [])
    (fun _ => answer)
    (fun _ => None)
    (fun _ => 0)
    (fun _ => "[]")
    (fun _ => "[]")
    (fun _ => None).

Definition scored (id : string) (score : Z) : RepoAnalysis :=
  mkAnalysis id "req-1" ("https://github.com/acme/" +++ id)
    (Some GithubAnalystAgent_name) "complete" (Some score) None None None None.

(** Supervision has drained with three results for "req-1". *)
Definition analysedStore : Store :=
  mkStore
    [mkRequest "req-1" "auth libraries for CF Workers" "supervision" (JObj []) "session-1";
     mkRequest "req-2" "rate limiting" "hitl" (JObj []) "session-2"]
    []
    [scored "ra-1" 40; scored "ra-2" 90; scored "ra-3" 40]
    [] [] 3.

Definition supervisedRequest : GithubRequest :=
  mkRequest "req-1" "auth libraries for CF Workers" "supervision" (JObj []) "session-1".

(** A path segment: a string without "/". *)
Fixpoint noSlash (s : string) : bool :=
  match s with
  | EmptyString => true
  | String c s' => negb (Ascii.eqb c slash) && noSlash s'
  end.

(** Two requests under Supervision; the pair ("req-1", [authUrl]) has its
    result. *)
Definition alreadyAnalysed : Store :=
  mkStore
    [mkRequest "req-1" "auth libraries for CF Workers" "supervision" (JObj []) "session-1";
     mkRequest "req-2" "rate limiting" "supervision" (JObj []) "session-2"]
    []
    [completeRow "uuid-g" "req-1" authUrl (mkDetails 1200) (analysisReply 87)]
    [] [] 7.

(** The URL parser accepts the string and finds the given path. *)
Definition pathEnv (pathname : string) : Env :=
  mkEnv
    (fun n => "uuid-" +++ String (ascii_of_nat (97 + n)) EmptyString)
    (fun _ => Ok pathname)
    (fun _ _ => Ok (mkDetails 5))
    (fun _ _ _ => Ok "# readme")
    (fun _ => Ok [])
    (fun _ => Ok (analysisReply 60))
    (fun _ => None)
    (fun _ => 0)
    (fun _ => "[]")
    (fun _ => "[]")
    (fun _ => None).

(** The store [start] leaves behind when Sampling fails. *)
Definition samplingFailed (requestId : string) (st : Store) : Store :=
  mkStore (map (setRequestStatus requestId "sampling") (githubRequests st))
    (hitlReviews st) (repoAnalysis st) (searchConfigs st)
    (effects st ++
       [ELog OrchestratorAgent_name requestId "info" "Starting new search.";
        EStatus OrchestratorAgent_name requestId "sampling" None;
        EBroadcast "status" requestId "sampling"])
    (uuids st).

(** The model proposes two queries and both searches fail, the second
    one first. *)
Definition searchesFail : Env :=
  mkEnv
    (fun n => "uuid-" +++ String (ascii_of_nat (97 + n)) EmptyString)
    (fun _ => Throw "Invalid URL")
    (fun _ _ => Throw "Not Found")
    (fun _ _ _ => Throw "Not Found")
    (fun q => Throw ("GitHub search failed: " +++ q))
    (fun _ => Ok (JArr [JStr "cloudflare workers auth"; JStr "workers jwt session"]))
    (fun _ => None)
    (fun _ => 1)
    (fun _ => "[]")
    (fun _ => "[]")
    (fun _ => None).

(** What a request is apart from its status. *)
Definition requestCore (st : Store) : list (string * string * Json * string) :=
  map (fun r => (req_id r, req_query r, req_config r, req_sessionId r))
    (githubRequests st).

(** The requests other than the given one. *)
Definition otherRequests (requestId : string) (st : Store) : list GithubRequest :=
  filter (fun r => negb (String.eqb (req_id r) requestId)) (githubRequests st).

(** What holds of the pool whatever the promises do: a promise that was
    started is in [running] unless it was fulfilled, and the loop is only
    left with [running] empty. *)
Record PoolLive (pool : Pool) : Prop := mkPoolLive {
  live_running :
    forall p, In p (map fst (started pool)) ->
              In p (running pool) \/ In (p, Fulfilled) (settled pool);
  live_drained : waiter pool = Drained -> running pool = []
}.


(* ===================================================================== *)
(** * Properties *)

(* --------------------------------------------------------------------- *)
(** ** The definitions at work *)

Example split_repository_path :
  filter truthy_string (split slash "/acme/auth/") = ["acme"; "auth"].
Proof. reflexivity. Qed.

Example split_bare_host : filter truthy_string (split slash "/") = [].
Proof. reflexivity. Qed.

Example schema_accepts_any_number :
  conforms analysisSchema (analysisReply 150) = true
  /\ conforms analysisSchema (analysisReply (-3)) = true.
Proof. split; reflexivity. Qed.

Example schema_rejects_text_ranking :
  conforms analysisSchema
    (JObj [("ai_ranking", JStr "high"); ("ai_summary", JStr "ok");
           ("ai_pros_cons", JObj [("pros", JArr []); ("cons", JArr [])]);
           ("tech_stack", JArr [])]) = false.
Proof. reflexivity. Qed.

Example sliceTo_counts_from_the_end : sliceTo (-1) [1; 2; 3] = [1; 2].
Proof. reflexivity. Qed.

Example sort_is_stable_and_descending :
  map ra_id (sort compareRanking (repoAnalysis underWay ++
     [mkAnalysis "ra-3" "req-1" authUrl None "complete" (Some 72%Z) None None None None;
      mkAnalysis "ra-4" "req-1" authUrl None "complete" (Some 95%Z) None None None None]))
  = ["ra-4"; "ra-1"; "ra-3"; "ra-2"].
Proof. reflexivity. Qed.

Example supervise_starts_five :
  running (supervise repos23) = [0; 1; 2; 3; 4]
  /\ List.length (queue (supervise repos23)) = 18
  /\ waiter (supervise repos23) = Awaiting.
Proof. repeat split. Qed.

Example settle_refills_the_slot :
  option_map running (settle (supervise repos23) 2 Fulfilled) = Some [0; 1; 3; 4; 5].
Proof. reflexivity. Qed.

Example supervise_nothing : waiter (supervise []) = Drained.
Proof. reflexivity. Qed.

Example run_inserts_the_analysis :
  repoAnalysis (fst (run noManifest idle "req-1" authUrl "auth libraries for CF Workers" supervising))
  = [completeRow "uuid-g" "req-1" authUrl (mkDetails 1200) (analysisReply 87)].
Proof. reflexivity. Qed.

Example correction_is_stored :
  analystWebSocketMessage idle
    (JObj [("type", JStr "correction"); ("message", JStr "Be more generous.")])
  = (mkAnalystState (Some (JStr "Be more generous.")), [JObj [("type", JStr "ack")]]).
Proof. reflexivity. Qed.

Example start_creates_five_items :
  List.length
    (hitlReviews (fst (start (orchestratorEnv (firstn 4 repos23)) "req-1"
                         "auth libraries for CF Workers" (JObj []) submitted)))
  = 5.
Proof. reflexivity. Qed.

(* --------------------------------------------------------------------- *)
(** ** Synthesis *)

Section SortFacts.
Variable A : Type.
Variable cmp : A -> A -> Z.

Lemma insert_perm (x : A) (l : list A) : Permutation (x :: l) (insert cmp x l).
Proof.
  induction l as [|y l IH]; simpl.
  - reflexivity.
  - destruct (cmp x y <=? 0)%Z.
    + reflexivity.
    + rewrite perm_swap. now constructor.
Qed.

Lemma sort_perm (l : list A) : Permutation l (sort cmp l).
Proof.
  induction l as [|x l IH]; simpl.
  - constructor.
  - rewrite <- insert_perm. now constructor.
Qed.

Lemma sort_length (l : list A) : List.length (sort cmp l) = List.length l.
Proof. symmetry. apply Permutation_length, sort_perm. Qed.
End SortFacts.

Lemma insert_sorted (x : RepoAnalysis) (l : list RepoAnalysis) :
  StronglySorted notBelow l -> StronglySorted notBelow (insert compareRanking x l).
Proof.
  induction 1 as [|y l Hs IH Hall]; simpl.
  - repeat constructor.
  - unfold compareRanking at 1.
    destruct (Z.leb_spec (ranking y - ranking x) 0) as [Hle|Hgt].
    + constructor.
      * now constructor.
      * constructor.
        -- unfold notBelow. lia.
        -- eapply Forall_impl; [|exact Hall].
           unfold notBelow. intros z Hz. lia.
    + constructor; [exact IH|].
      eapply Permutation_Forall; [apply insert_perm|].
      constructor; [unfold notBelow; lia | exact Hall].
Qed.

Lemma sort_sorted (l : list RepoAnalysis) :
  StronglySorted notBelow (sort compareRanking l).
Proof.
  induction l as [|x l IH]; simpl.
  - constructor.
  - now apply insert_sorted.
Qed.

Lemma StronglySorted_app_inv (A : Type) (R : A -> A -> Prop) (l1 l2 : list A) :
  StronglySorted R (l1 ++ l2) ->
  StronglySorted R l1 /\ forall a b, In a l1 -> In b l2 -> R a b.
Proof.
  induction l1 as [|x l1 IH]; simpl; intros Hs.
  - split; [constructor | intros a b []].
  - inversion Hs as [|? ? Hs' Hall]; subst.
    destruct (IH Hs') as [H1 H2].
    rewrite Forall_app in Hall. destruct Hall as [Ha1 Ha2].
    split.
    + now constructor.
    + intros a b [->|Ha] Hb.
      * rewrite Forall_forall in Ha2. now apply Ha2.
      * now apply H2.
Qed.

Lemma findAnalyses_spec (st : Store) (requestId : string) (r : RepoAnalysis) :
  In r (findAnalyses st requestId) <->
  In r (repoAnalysis st) /\ ra_requestId r = requestId.
Proof.
  unfold findAnalyses. rewrite filter_In, String.eqb_eq. reflexivity.
Qed.

(** C6.  Synthesis loads exactly the analysis rows of the request, orders
    them by non-increasing relevance score and keeps the first 12: the
    selection is ordered, it has [min 12 n] entries where [n] is the number
    of rows of the request, every selected row scores at least as high as
    every row left out, and the selected and the left-out rows together are
    the rows of the request.  With at most 12 rows nothing is left out. *)
Theorem synthesis_top12 (st : Store) (requestId : string) :
  (forall r, In r (findAnalyses st requestId) <->
             In r (repoAnalysis st) /\ ra_requestId r = requestId)
  /\ StronglySorted notBelow (top12Results st requestId)
  /\ List.length (top12Results st requestId)
     = Nat.min 12 (List.length (findAnalyses st requestId))
  /\ (exists rest,
        Permutation (findAnalyses st requestId) (top12Results st requestId ++ rest)
        /\ List.length rest = List.length (findAnalyses st requestId) - 12
        /\ forall a b, In a (top12Results st requestId) -> In b rest -> notBelow a b)
  /\ (List.length (findAnalyses st requestId) <= 12 ->
        Permutation (findAnalyses st requestId) (top12Results st requestId)).
Proof.
  unfold top12Results, slice0.
  set (rows := findAnalyses st requestId).
  pose proof (sort_sorted rows) as Hs.
  rewrite <- (firstn_skipn 12 (sort compareRanking rows)) in Hs.
  apply StronglySorted_app_inv in Hs. destruct Hs as [Htop Hcut].
  split; [apply findAnalyses_spec|].
  split; [exact Htop|].
  split; [now rewrite length_firstn, sort_length|].
  split.
  - exists (skipn 12 (sort compareRanking rows)).
    split; [rewrite firstn_skipn; apply sort_perm|].
    split; [now rewrite length_skipn, sort_length | exact Hcut].
  - intros Hfew. rewrite firstn_all2 by now rewrite sort_length.
    apply sort_perm.
Qed.

(* --------------------------------------------------------------------- *)
(** ** The correction monitor *)

Lemma ranking_absent (r : RepoAnalysis) : aiRanking r = None -> ranking r = 0%Z.
Proof. unfold ranking. now intros ->. Qed.

(** C10.  On a tick, a row of the request whose score is absent counts as
    score 0; when some row of the request has no score or a score below
    10, the tick sends the correction message to every socket in
    [analystSockets], once each and in order, and writes nothing else. *)
Theorem monitor_tick_corrects (analystSockets : list nat) (requestId : string)
    (st : Store) (r : RepoAnalysis) :
  In r (repoAnalysis st) ->
  ra_requestId r = requestId ->
  aiRanking r = None \/ (exists n, aiRanking r = Some n /\ (n < 10)%Z) ->
  (aiRanking r = None -> ranking r = 0%Z)
  /\ monitorTick analystSockets requestId st
     = (mkStore (githubRequests st) (hitlReviews st) (repoAnalysis st)
          (searchConfigs st)
          (effects st ++ map (fun ws => ESend ws correctionMessage) analystSockets)
          (uuids st), Ok tt)
  /\ forall ws, In ws analystSockets ->
       In (ESend ws correctionMessage)
          (effects (fst (monitorTick analystSockets requestId st))).
Proof.
  intros Hin Hreq Hlow.
  assert (Hsome : existsb (fun r => (ranking r <? 10)%Z) (findAnalyses st requestId) = true).
  { apply existsb_exists. exists r. split.
    - now apply findAnalyses_spec.
    - apply Z.ltb_lt. destruct Hlow as [Hnone|[n [Hn Hlt]]].
      + rewrite (ranking_absent _ Hnone). lia.
      + unfold ranking. now rewrite Hn. }
  assert (Htick : monitorTick analystSockets requestId st
                  = sendAll analystSockets correctionMessage st).
  { unfold monitorTick, bind, get. now rewrite Hsome. }
  split; [apply ranking_absent|].
  split; [now rewrite Htick|].
  intros ws Hws. rewrite Htick. simpl.
  apply in_or_app. right.
  now apply (in_map (fun ws => ESend ws correctionMessage)).
Qed.

Lemma monitor_tick_corrects_under_way :
  effects (fst (monitorTick [7; 8; 9] "req-1" underWay))
  = [ESend 7 correctionMessage; ESend 8 correctionMessage; ESend 9 correctionMessage].
Proof.
  destruct (@monitor_tick_corrects [7; 8; 9] "req-1" underWay
              (mkAnalysis "ra-2" "req-1" "https://github.com/acme/repo-b"
                 (Some GithubAnalystAgent_name) "analyzing" None None None None None)
              (or_intror (or_introl eq_refl)) eq_refl (or_introl eq_refl))
    as (_ & Htick & _).
  now rewrite Htick.
Defined.

(** Without such a row the tick sends nothing. *)
Lemma monitor_tick_silent (analystSockets : list nat) (requestId : string) (st : Store) :
  (forall r, In r (findAnalyses st requestId) -> (10 <= ranking r)%Z) ->
  monitorTick analystSockets requestId st = (st, Ok tt).
Proof.
  intros Hall. unfold monitorTick, bind, get.
  destruct (existsb _ _) eqn:E; [|reflexivity].
  apply existsb_exists in E. destruct E as [r [Hr Hlt]].
  apply Z.ltb_lt in Hlt. specialize (Hall r Hr). lia.
Qed.

(* --------------------------------------------------------------------- *)
(** ** Draining the queue *)

(** [processQueue] starts a prefix of the queue, in order, and stops only
    on an empty queue or a full [running] array. *)
Lemma processQueue_starts (q : list Repo) :
  forall (r : list nat) (s : list (nat * Repo)) q' r' s',
    processQueue q r s = (q', r', s') ->
    exists fresh,
      r' = r ++ map fst fresh
      /\ s' = s ++ fresh
      /\ map snd fresh ++ q' = q
      /\ map fst fresh = seq (List.length s) (List.length fresh)
      /\ (List.length r <= concurrency -> List.length r' <= concurrency)
      /\ (q' <> [] -> concurrency <= List.length r').
Proof.
  induction q as [|repo q IH]; simpl; intros r s q' r' s' H.
  - inversion H; subst. exists []. simpl. rewrite !app_nil_r.
    repeat split; auto. congruence.
  - destruct (Nat.ltb_spec (List.length r) concurrency) as [Hlt|Hge].
    + apply IH in H. destruct H as [fresh (Hr & Hs & Hq & Hids & Hb & Hfull)].
      exists ((List.length s, repo) :: fresh). simpl.
      rewrite <- !app_assoc in *. simpl in *.
      rewrite length_app in Hids. simpl in Hids.
      rewrite Nat.add_1_r in Hids.
      repeat split; auto.
      * now f_equal.
      * now f_equal.
      * intros _. apply Hb. rewrite length_app. simpl. lia.
    + inversion H; subst. exists []. simpl. rewrite !app_nil_r.
      repeat split; auto.
Qed.

Lemma splice_perm (p : nat) (r : list nat) :
  In p r -> Permutation r (p :: splice p r).
Proof.
  induction r as [|q r IH]; simpl; [intros []|].
  intros Hin. destruct (Nat.eqb_spec q p) as [->|Hne].
  - reflexivity.
  - destruct Hin as [Heq|Hin]; [congruence|].
    rewrite perm_swap. constructor. now apply IH.
Qed.

Lemma existsb_eqb_In (p : nat) (l : list nat) :
  existsb (Nat.eqb p) l = true <-> In p l.
Proof.
  rewrite existsb_exists. split.
  - intros [x [Hx Heq]]. apply Nat.eqb_eq in Heq. now subst.
  - intros Hin. exists p. split; [assumption | apply Nat.eqb_refl].
Qed.

Lemma pending_spec (pool : Pool) (p : nat) :
  pending pool p = true <->
  In p (map fst (started pool)) /\ ~ In p (map fst (settled pool)).
Proof.
  unfold pending. rewrite andb_true_iff, negb_true_iff, existsb_eqb_In.
  rewrite <- not_true_iff_false, existsb_eqb_In. reflexivity.
Qed.

Lemma supervise_shape (repos : list Repo) : PoolShape repos (supervise repos).
Proof.
  unfold supervise.
  destruct (processQueue repos [] []) as [[q r] s] eqn:E.
  apply processQueue_starts in E.
  destruct E as [fresh (Hr & Hs & Hq & Hids & Hb & _)]. simpl in *. subst r s.
  constructor; simpl.
  - apply Hb. unfold concurrency. lia.
  - exact Hq.
  - exact Hids.
Qed.

Lemma supervise_clean (repos : list Repo) : PoolClean (supervise repos).
Proof.
  unfold supervise.
  destruct (processQueue repos [] []) as [[q r] s] eqn:E.
  apply processQueue_starts in E.
  destruct E as [fresh (Hr & Hs & Hq & Hids & Hb & Hfull)]. simpl in *. subst r s.
  constructor; simpl.
  - now rewrite app_nil_r.
  - intros Hne. specialize (Hfull Hne).
    assert (List.length (map fst fresh) <= concurrency)
      by (apply Hb; unfold concurrency; lia).
    lia.
  - reflexivity.
Qed.

Lemma settle_shape (repos : list Repo) (pool pool' : Pool) (p : nat) (how : Settlement) :
  PoolShape repos pool -> settle pool p how = Some pool' -> PoolShape repos pool'.
Proof.
  intros [Hb Ho Hi]. unfold settle.
  destruct (pending pool p) eqn:Hp; [|discriminate].
  destruct how.
  - destruct (processQueue _ _ _) as [[q r] s] eqn:E.
    intros [= <-].
    apply processQueue_starts in E.
    destruct E as [fresh (Hr & Hs & Hq & Hids & Hb' & _)]. subst r s.
    constructor; simpl.
    + apply Hb'.
      apply pending_spec in Hp.
      destruct (in_dec Nat.eq_dec p (running pool)) as [Hin|Hout].
      * apply splice_perm, Permutation_length in Hin. simpl in Hin. lia.
      * assert (Hsame : splice p (running pool) = running pool).
        { clear -Hout. induction (running pool) as [|q r IH]; simpl; [easy|].
          destruct (Nat.eqb_spec q p) as [->|Hne].
          - exfalso. apply Hout. now left.
          - f_equal. apply IH. intros Hin. apply Hout. now right. }
        now rewrite Hsame.
    + rewrite map_app, <- app_assoc, Hq. exact Ho.
    + rewrite map_app, Hi, Hids, length_app, seq_app. reflexivity.
  - intros [= <-].
    constructor; assumption.
Qed.

Lemma perm_settle (A : Type) (p : A) (r r' fresh done all : list A) :
  Permutation r (p :: r') ->
  Permutation (r ++ done) all ->
  Permutation ((r' ++ fresh) ++ done ++ [p]) (all ++ fresh).
Proof.
  intros Hr Hall. rewrite <- Hall, Hr. simpl.
  symmetry. rewrite (app_assoc (r' ++ fresh)).
  apply (Permutation_cons_app ((r' ++ fresh) ++ done) []).
  rewrite app_nil_r, <- !app_assoc.
  apply Permutation_app_head, Permutation_app_comm.
Qed.

Lemma settle_clean (pool pool' : Pool) (p : nat) :
  List.length (running pool) <= concurrency ->
  PoolClean pool -> settle pool p Fulfilled = Some pool' ->
  PoolClean pool'
  /\ In p (running pool)
  /\ forall repo rest, queue pool = repo :: rest ->
       queue pool' = rest
       /\ running pool' = splice p (running pool) ++ [List.length (started pool)]
       /\ started pool' = started pool ++ [(List.length (started pool), repo)].
Proof.
  intros Hb [Hpart Hfull Hw]. unfold settle.
  destruct (pending pool p) eqn:Hp; [|discriminate].
  apply pending_spec in Hp. destruct Hp as [Hstarted Hfresh].
  assert (Hin : In p (running pool)).
  { apply (Permutation_in _ (Permutation_sym Hpart)) in Hstarted.
    apply in_app_or in Hstarted. tauto. }
  pose proof (splice_perm _ _ Hin) as Hsp.
  pose proof (Permutation_length Hsp) as Hlen. simpl in Hlen.
  destruct (processQueue _ _ _) as [[q r] s] eqn:E.
  intros [= <-].
  pose proof E as E'.
  apply processQueue_starts in E.
  destruct E as [fresh (Hr & Hs & Hq & Hids & Hb' & Hfull')]. subst r s.
  split; [constructor; simpl|split; [exact Hin|]].
  - rewrite !map_app. simpl.
    now apply perm_settle with (r := running pool).
  - intros Hne. specialize (Hfull' Hne).
    assert (List.length (splice p (running pool) ++ map fst fresh) <= concurrency)
      by (apply Hb'; lia).
    lia.
  - rewrite Hw. destruct (running pool); [destruct Hin | reflexivity].
  - intros repo rest Hqueue. rewrite Hqueue in E'. simpl in E'.
    assert (Hfour : List.length (splice p (running pool)) = 4).
    { assert (queue pool <> []) by (rewrite Hqueue; discriminate).
      specialize (Hfull H). unfold concurrency in *. lia. }
    rewrite Hfour in E'. simpl in E'.
    destruct rest as [|repo' rest]; simpl in E'.
    + now inversion E'.
    + rewrite length_app, Hfour in E'. simpl in E'. now inversion E'.
Qed.

Lemma settleAll_shape (repos : list Repo) (history : list (nat * Settlement)) :
  forall pool pool',
    PoolShape repos pool -> settleAll pool history = Some pool' -> PoolShape repos pool'.
Proof.
  induction history as [|[p how] history IH]; simpl; intros pool pool' Hs.
  - now intros [= <-].
  - destruct (settle pool p how) as [pool1|] eqn:E; [|discriminate].
    apply IH. eapply settle_shape; eassumption.
Qed.

Lemma settleAll_clean (repos : list Repo) (history : list (nat * Settlement)) :
  forall pool pool',
    PoolShape repos pool -> PoolClean pool ->
    Forall fulfilled history ->
    settleAll pool history = Some pool' ->
    PoolClean pool'
    /\ List.length (settled pool') = List.length (settled pool) + List.length history.
Proof.
  induction history as [|[p how] history IH]; simpl; intros pool pool' Hs Hc Hf.
  - intros [= <-]. split; [assumption|lia].
  - destruct (settle pool p how) as [pool1|] eqn:E; [|discriminate].
    inversion Hf as [|? ? Hhow Hf']; subst. unfold fulfilled in Hhow. simpl in Hhow. subst how.
    intros Hrest.
    pose proof (settle_shape _ _ Hs E) as Hs1.
    destruct (settle_clean p (shape_bound Hs) Hc E) as [Hc1 _].
    destruct (IH _ _ Hs1 Hc1 Hf' Hrest) as [Hc' Hlen].
    split; [assumption|].
    rewrite Hlen. unfold settle in E.
    destruct (pending pool p); [|discriminate].
    destruct (processQueue _ _ _) as [[q r] s0].
    injection E as <-. simpl. rewrite length_app. simpl. lia.
Qed.

(** The bound of 5 holds after any history, rejected promises included. *)
Lemma running_bound_always (repos : list Repo) (history : list (nat * Settlement))
    (pool : Pool) :
  settleAll (supervise repos) history = Some pool ->
  List.length (running pool) <= 5.
Proof.
  intros H. apply (shape_bound (settleAll_shape _ (supervise_shape repos) H)).
Qed.

(** A promise that rejects is never removed from [running], and the
    awaited race throws: [continue] leaves the loop by an exception. *)
Lemma rejection_aborts (pool pool' : Pool) (p : nat) :
  waiter pool = Awaiting ->
  settle pool p Rejected = Some pool' ->
  waiter pool' = Aborted /\ running pool' = running pool.
Proof.
  unfold settle. intros Hw. destruct (pending pool p); [|discriminate].
  intros [= <-]. simpl. now rewrite Hw.
Qed.

(** C1.  Hand [continue]'s queue any list of candidates and let the
    promises of the [run] calls be fulfilled, in any order (a [run] that
    succeeds and a [run] that catches its own failure both fulfil).  Then,
    in every state reached: at most 5 promises are in [running]; the runs
    started so far are a prefix of the candidates in submission order;
    while candidates are queued all 5 slots are taken, and the fulfilment
    of one promise starts exactly the head of the queue; the loop is never
    left by an exception, it is left exactly when as many promises have
    settled as there are candidates, and then nothing is queued or running
    and every candidate has been run and has settled; and until then some
    running promise can still settle. *)
Theorem delegation_scheduler (repos : list Repo) (history : list (nat * Settlement))
    (pool : Pool) :
  settleAll (supervise repos) history = Some pool ->
  Forall fulfilled history ->
  List.length (running pool) <= 5
  /\ map snd (started pool) ++ queue pool = repos
  /\ (queue pool <> [] -> List.length (running pool) = 5)
  /\ (forall p pool' repo rest,
        settle pool p Fulfilled = Some pool' -> queue pool = repo :: rest ->
        queue pool' = rest
        /\ running pool' = splice p (running pool) ++ [List.length (started pool)]
        /\ started pool' = started pool ++ [(List.length (started pool), repo)])
  /\ waiter pool <> Aborted
  /\ (waiter pool = Drained <-> List.length history = List.length repos)
  /\ (waiter pool = Drained ->
        queue pool = [] /\ running pool = []
        /\ map snd (started pool) = repos
        /\ Permutation (map fst (settled pool)) (seq 0 (List.length repos)))
  /\ (waiter pool = Awaiting ->
        exists p, In p (running pool) /\ settle pool p Fulfilled <> None).
Proof.
  intros Hrun Hf.
  pose proof (settleAll_shape _ (supervise_shape repos) Hrun) as Hs.
  destruct (settleAll_clean (supervise_shape repos) (supervise_clean repos) Hf Hrun)
    as [Hc Hlen].
  assert (Hsettled : List.length (settled pool) = List.length history).
  { rewrite Hlen. unfold supervise. now destruct (processQueue repos [] []) as [[? ?] ?]. }
  clear Hlen.
  destruct Hs as [Hb Ho Hi]. destruct Hc as [Hpart Hfull Hw].
  pose proof (Permutation_length Hpart) as Hcount.
  rewrite length_app, !length_map in Hcount.
  pose proof (f_equal (@List.length Repo) Ho) as Htotal.
  rewrite length_app, length_map in Htotal.
  assert (Hidle : running pool = [] -> queue pool = []).
  { intros Hr. destruct (queue pool) as [|repo rest] eqn:Hq; [reflexivity|].
    assert (Hne : repo :: rest <> []) by discriminate.
    specialize (Hfull Hne). rewrite Hr in Hfull. discriminate. }
  assert (Hdrained : waiter pool = Drained <-> running pool = []).
  { rewrite Hw. destruct (running pool); simpl; split; congruence. }
  split; [exact Hb|].
  split; [exact Ho|].
  split; [exact Hfull|].
  split.
  { intros p pool' repo rest Hstep Hq.
    destruct (settle_clean p Hb (mkPoolClean pool Hpart Hfull Hw) Hstep) as (_ & _ & Hnext).
    now apply Hnext. }
  split; [rewrite Hw; destruct (running pool); discriminate|].
  split.
  { rewrite Hdrained. split.
    - intros Hr. specialize (Hidle Hr). rewrite Hr, Hidle in *. simpl in *. lia.
    - intros Hall. destruct (running pool) as [|p r]; [reflexivity|]. simpl in *. lia. }
  split.
  { intros Hd. apply Hdrained in Hd. specialize (Hidle Hd).
    rewrite Hd, Hidle in *. simpl in *. rewrite app_nil_r in Ho.
    repeat split; try reflexivity; try assumption.
    replace (List.length repos) with (List.length (started pool)) by lia.
    now rewrite <- Hi. }
  intros Ha.
  destruct (running pool) as [|p r] eqn:Hr.
  { rewrite Hw in Ha. discriminate. }
  exists p. split; [now left|].
  assert (Hp : pending pool p = true).
  { apply pending_spec. split.
    - apply (Permutation_in _ Hpart). now left.
    - assert (Hnd : NoDup ((p :: r) ++ map fst (settled pool))).
      { eapply Permutation_NoDup; [symmetry; exact Hpart|].
        rewrite Hi. apply seq_NoDup. }
      simpl in Hnd. apply NoDup_cons_iff in Hnd. destruct Hnd as [Hnot _].
      intros Hin. apply Hnot, in_or_app. now right. }
  unfold settle. rewrite Hp.
  destruct (processQueue _ _ _) as [[? ?] ?]. discriminate.
Qed.

Lemma delegation_scheduler_23 :
  exists pool,
    settleAll (supervise repos23) history23 = Some pool
    /\ waiter pool = Drained
    /\ List.length (settled pool) = 23.
Proof.
  destruct (settleAll (supervise repos23) history23) as [pool|] eqn:E;
    [|vm_compute in E; discriminate].
  exists pool. split; [reflexivity|].
  assert (Hf : Forall fulfilled history23) by (repeat constructor).
  destruct (@delegation_scheduler repos23 history23 pool E Hf)
    as (_ & _ & _ & _ & _ & Hdrain & Hall & _).
  assert (Hd : waiter pool = Drained) by (apply Hdrain; reflexivity).
  split; [exact Hd|].
  destruct (Hall Hd) as (_ & _ & _ & Hperm).
  apply Permutation_length in Hperm.
  now rewrite length_map, length_seq in Hperm.
Defined.

(* --------------------------------------------------------------------- *)
(** ** Frame rules *)

Section Frames.
Variables T : Type.
Variable f : Store -> T.

Lemma preserves_ret (A : Type) (a : A) : preserves f (ret a).
Proof. intros st. reflexivity. Qed.

Lemma preserves_throw (A : Type) (message : string) : preserves f (@throw A message).
Proof. intros st. reflexivity. Qed.

Lemma preserves_await (A : Type) (r : Result A) : preserves f (await r).
Proof. intros st. reflexivity. Qed.

Lemma preserves_get : preserves f get.
Proof. intros st. reflexivity. Qed.

Lemma preserves_bind (A B : Type) (m : Action A) (k : A -> Action B) :
  preserves f m -> (forall a, preserves f (k a)) -> preserves f (bind m k).
Proof.
  intros Hm Hk st. unfold bind, unchanged.
  specialize (Hm st). unfold unchanged in Hm.
  destruct (m st) as [st1 [a|message]]; simpl in *.
  - rewrite <- Hm. apply Hk.
  - exact Hm.
Qed.

Lemma preserves_try_catch (A : Type) (body : Action A) (handler : string -> Action A) :
  preserves f body -> (forall message, preserves f (handler message)) ->
  preserves f (try_catch body handler).
Proof.
  intros Hm Hk st. unfold try_catch, unchanged.
  specialize (Hm st). unfold unchanged in Hm.
  destruct (body st) as [st1 [a|message]]; simpl in *.
  - exact Hm.
  - rewrite <- Hm. apply Hk.
Qed.

Lemma preserves_generateStructured (env : Env) (prompt : string) (schema : Schema) :
  preserves f (generateStructured env prompt schema).
Proof.
  intros st. unfold generateStructured, unchanged.
  destruct (model env prompt) as [j|message]; [destruct (conforms schema j)|]; reflexivity.
Qed.
End Frames.

Lemma analyst_is_not_orchestrator :
  String.eqb GithubAnalystAgent_name OrchestratorAgent_name = false.
Proof. reflexivity. Qed.

Lemma judge_is_not_orchestrator :
  String.eqb JudgeAgent_name OrchestratorAgent_name = false.
Proof. reflexivity. Qed.

Lemma status_requests (agent requestId s : string) (message : option string) :
  String.eqb agent OrchestratorAgent_name = false ->
  preserves githubRequests (status agent requestId s message).
Proof. intros Hother st. unfold status, unchanged. simpl. now rewrite Hother. Qed.

Lemma status_reviews (agent requestId s : string) (message : option string) :
  preserves hitlReviews (status agent requestId s message).
Proof. intros st. reflexivity. Qed.

Lemma status_analyses (agent requestId s : string) (message : option string) :
  preserves repoAnalysis (status agent requestId s message).
Proof. intros st. reflexivity. Qed.

Lemma insertAnalysis_requests (env : Env) (row : RepoAnalysis) :
  preserves githubRequests (insertAnalysis env row).
Proof.
  intros st. unfold insertAnalysis, unchanged.
  now destruct (insert_error env row).
Qed.

Lemma insertAnalysis_reviews (env : Env) (row : RepoAnalysis) :
  preserves hitlReviews (insertAnalysis env row).
Proof.
  intros st. unfold insertAnalysis, unchanged.
  now destruct (insert_error env row).
Qed.

(** Discharges [preserves f m] for agent code built from the actions
    above; [tac] closes the leaves about [status]. *)
Ltac frame_with tac :=
  repeat first
    [ apply preserves_bind
    | apply preserves_try_catch
    | apply preserves_ret
    | apply preserves_throw
    | apply preserves_await
    | apply preserves_get
    | apply preserves_generateStructured
    | apply insertAnalysis_requests
    | apply insertAnalysis_reviews
    | tac
    | match goal with
      | |- forall _, preserves _ _ => intro
      | |- preserves _ (match ?x with _ => _ end) => destruct x
      | |- preserves _ (emit _) => intros ?; reflexivity
      | |- preserves _ (newUUID _) => intros ?; reflexivity
      end ].

Lemma run_requests (env : Env) (self : AnalystState) (requestId url userQuery : string) :
  preserves githubRequests (run env self requestId url userQuery).
Proof.
  unfold run, run_enter, run_catch, run_try, logRequest.
  frame_with ltac:(apply status_requests, analyst_is_not_orchestrator).
Qed.

Lemma run_reviews (env : Env) (self : AnalystState) (requestId url userQuery : string) :
  preserves hitlReviews (run env self requestId url userQuery).
Proof.
  unfold run, run_enter, run_catch, run_try, logRequest.
  frame_with ltac:(apply status_reviews).
Qed.

Lemma review_requests (env : Env) (requestId userQuery : string)
    (results : list RepoAnalysis) :
  preserves githubRequests (review env requestId userQuery results).
Proof.
  unfold review, logRequest.
  frame_with ltac:(apply status_requests, judge_is_not_orchestrator).
Qed.

Lemma review_analyses (env : Env) (requestId userQuery : string)
    (results : list RepoAnalysis) :
  preserves repoAnalysis (review env requestId userQuery results).
Proof.
  unfold review, logRequest.
  frame_with ltac:(apply status_analyses).
Qed.

Lemma review_reviews (env : Env) (requestId userQuery : string)
    (results : list RepoAnalysis) :
  preserves hitlReviews (review env requestId userQuery results).
Proof.
  unfold review, logRequest.
  frame_with ltac:(apply status_reviews).
Qed.

(* --------------------------------------------------------------------- *)
(** ** The analyst *)

Lemma run_enter_spec (requestId url : string) (st : Store) :
  run_enter requestId url st
  = (mkStore (githubRequests st) (hitlReviews st) (repoAnalysis st) (searchConfigs st)
       (effects st ++
          [EStatus GithubAnalystAgent_name requestId "analyzing" None;
           ELog GithubAnalystAgent_name requestId "info" ("Analyzing repository: " +++ url)])
       (uuids st), Ok tt).
Proof.
  unfold run_enter, bind, status, logRequest, emit.
  rewrite analyst_is_not_orchestrator. simpl. now rewrite <- app_assoc.
Qed.

Lemma run_catch_spec (requestId message : string) (st : Store) :
  run_catch requestId message st
  = (mkStore (githubRequests st) (hitlReviews st) (repoAnalysis st) (searchConfigs st)
       (effects st ++
          [EStatus GithubAnalystAgent_name requestId "error" (Some message);
           ELog GithubAnalystAgent_name requestId "error" "Analysis failed"])
       (uuids st), Ok tt).
Proof.
  unfold run_catch, bind, status, logRequest, emit.
  rewrite analyst_is_not_orchestrator. simpl. now rewrite <- app_assoc.
Qed.

(** The three ways through the [try] block: the pair is skipped, the row
    is inserted, or something throws before a row is written. *)
Lemma run_try_cases (env : Env) (self : AnalystState) (requestId url userQuery : string)
    (st st' : Store) (r : Result unit) :
  run_try env self requestId url userQuery st = (st', r) ->
  (findExistingAnalysis st requestId url <> None
   /\ r = Ok tt /\ repoAnalysis st' = repoAnalysis st)
  \/ (findExistingAnalysis st requestId url = None
      /\ (exists message, r = Throw message) /\ repoAnalysis st' = repoAnalysis st)
  \/ (findExistingAnalysis st requestId url = None
      /\ r = Ok tt
      /\ exists row, analysed env self requestId url userQuery st row
                     /\ repoAnalysis st' = repoAnalysis st ++ [row]).
Proof.
  unfold run_try, bind, get.
  destruct (findExistingAnalysis st requestId url) as [existing|] eqn:Hfind.
  { unfold logRequest, emit. intros [= <- <-]. left. simpl. now repeat split. }
  unfold await.
  destruct (url_pathname env url) as [pathname|m] eqn:Hurl;
    [|intros [= <- <-]; right; left; eauto].
  destruct (filter truthy_string (split slash pathname)) as [|owner [|repo rest]] eqn:Hparts;
    try (unfold throw; intros [= <- <-]; right; left; eauto).
  destruct (github_get_repo env owner repo) as [details|m] eqn:Hrepo;
    [|intros [= <- <-]; right; left; eauto].
  destruct (github_read_file env owner repo "README.md") as [readme|m] eqn:Hreadme;
    [|intros [= <- <-]; right; left; eauto].
  unfold generateStructured.
  destruct (model env _) as [analysis|m] eqn:Hmodel;
    [|intros [= <- <-]; right; left; eauto].
  destruct (conforms analysisSchema analysis) eqn:Hconf;
    [|intros [= <- <-]; right; left; eauto].
  unfold newUUID, insertAnalysis. simpl.
  fold (completeRow (randomUUID env (uuids st)) requestId url details analysis).
  destruct (insert_error env _) as [m|] eqn:Hinsert.
  { intros [= <- <-]. right; left. simpl. eauto. }
  unfold status, logRequest, emit. simpl.
  intros [= <- <-]. right; right. simpl.
  split; [reflexivity|]. split; [reflexivity|].
  eexists. split; [|reflexivity].
  exists pathname, owner, repo, rest, details, readme, analysis.
  repeat split; assumption.
Qed.

(** [run] returns whatever happens inside its [try] block. *)
Lemma run_returns (env : Env) (self : AnalystState) (requestId url userQuery : string)
    (st : Store) :
  snd (run env self requestId url userQuery st) = Ok tt.
Proof.
  unfold run, bind. rewrite run_enter_spec. unfold try_catch.
  destruct (run_try _ _ _ _ _ _) as [st2 [[]|message]]; [reflexivity|].
  now rewrite run_catch_spec.
Qed.

(** So the promise of a [run] call is fulfilled, never rejected. *)
Lemma run_settles_fulfilled (env : Env) (self : AnalystState)
    (requestId url userQuery : string) (st : Store) :
  settlement (snd (run env self requestId url userQuery st)) = Fulfilled.
Proof. now rewrite run_returns. Qed.

Lemma run_enter_analyses (requestId url : string) (st : Store) :
  repoAnalysis (fst (run_enter requestId url st)) = repoAnalysis st.
Proof. now rewrite run_enter_spec. Qed.

Lemma run_enter_existing (requestId url : string) (st : Store) :
  findExistingAnalysis (fst (run_enter requestId url st)) requestId url
  = findExistingAnalysis st requestId url.
Proof. unfold findExistingAnalysis. now rewrite run_enter_analyses. Qed.

(** The analysis table after [run]: as before, or one row more. *)
Lemma run_cases (env : Env) (self : AnalystState) (requestId url userQuery : string)
    (st : Store) :
  (findExistingAnalysis st requestId url <> None
   /\ repoAnalysis (fst (run env self requestId url userQuery st)) = repoAnalysis st)
  \/ (findExistingAnalysis st requestId url = None
      /\ repoAnalysis (fst (run env self requestId url userQuery st)) = repoAnalysis st)
  \/ (findExistingAnalysis st requestId url = None
      /\ exists row,
           analysed env self requestId url userQuery
             (fst (run_enter requestId url st)) row
           /\ repoAnalysis (fst (run env self requestId url userQuery st))
              = repoAnalysis st ++ [row]).
Proof.
  unfold run, bind. rewrite run_enter_spec. unfold try_catch.
  destruct (run_try env self requestId url userQuery _) as [st2 r] eqn:Htry.
  pose proof Htry as Hcases. apply run_try_cases in Hcases.
  change (findExistingAnalysis _ requestId url)
    with (findExistingAnalysis st requestId url) in Hcases.
  simpl repoAnalysis in Hcases.
  destruct Hcases as [(Hex & -> & Hsame)|[(Hnone & [m ->] & Hsame)|(Hnone & -> & row & Hrow & Hadd)]].
  - left. now split.
  - right; left. split; [assumption|]. now rewrite run_catch_spec.
  - right; right. split; [assumption|]. exists row. split; [|assumption].
    exact Hrow.
Qed.

Lemma status_configs (agent requestId s : string) (message : option string) :
  preserves searchConfigs (status agent requestId s message).
Proof. intros st. reflexivity. Qed.

Lemma insertAnalysis_configs (env : Env) (row : RepoAnalysis) :
  preserves searchConfigs (insertAnalysis env row).
Proof.
  intros st. unfold insertAnalysis, unchanged.
  now destruct (insert_error env row).
Qed.

Lemma run_try_requests (env : Env) (self : AnalystState) (requestId url userQuery : string) :
  preserves githubRequests (run_try env self requestId url userQuery).
Proof.
  unfold run_try, logRequest.
  frame_with ltac:(apply status_requests, analyst_is_not_orchestrator).
Qed.

Lemma run_try_reviews (env : Env) (self : AnalystState) (requestId url userQuery : string) :
  preserves hitlReviews (run_try env self requestId url userQuery).
Proof.
  unfold run_try, logRequest.
  frame_with ltac:(apply status_reviews).
Qed.

Lemma run_try_configs (env : Env) (self : AnalystState) (requestId url userQuery : string) :
  preserves searchConfigs (run_try env self requestId url userQuery).
Proof.
  unfold run_try, logRequest.
  frame_with ltac:(first [apply status_configs | apply insertAnalysis_configs]).
Qed.

Lemma find_none_filter (A : Type) (f : A -> bool) (l : list A) :
  find f l = None <-> filter f l = [].
Proof.
  induction l as [|x l IH]; simpl; [tauto|].
  destruct (f x); [split; discriminate | exact IH].
Qed.

Lemma existing_none_pairRows (st : Store) (requestId url : string) :
  findExistingAnalysis st requestId url = None <-> pairRows st requestId url = [].
Proof. apply find_none_filter. Qed.

Lemma analysed_pair (env : Env) (self : AnalystState) (requestId url userQuery : string)
    (st : Store) (row : RepoAnalysis) :
  analysed env self requestId url userQuery st row ->
  samePair requestId url row = true /\ ra_status row = "complete".
Proof.
  intros (pathname & owner & repo & rest & details & readme & analysis & H).
  destruct H as (_ & _ & _ & _ & _ & _ & -> & _).
  unfold samePair, completeRow. simpl. now rewrite !String.eqb_refl.
Qed.

Lemma conforms_ranking (analysis : Json) :
  conforms analysisSchema analysis = true ->
  exists n, prop "ai_ranking" analysis = Some (JNum n).
Proof.
  destruct analysis as [| | | |items|fields]; try discriminate.
  unfold analysisSchema, prop. simpl.
  destruct (field "ai_ranking" fields) as [[| |n| | |]|]; try discriminate.
  intros _. now exists n.
Qed.

(** C2 (as the code has it).  When anything throws inside the [try] block
    of [run] (the URL, the fetches, the generation, its validation, the
    insert), [run] still returns: it reports status "error" with the
    message of the exception for the request and logs the failure, its
    promise is fulfilled, and it has written no row: the analysis table,
    and with it the rows of the pair, are as before the call. *)
Theorem run_failure_is_caught (env : Env) (self : AnalystState)
    (requestId url userQuery : string) (st st2 : Store) (message : string) :
  run_try env self requestId url userQuery (fst (run_enter requestId url st))
    = (st2, Throw message) ->
  run env self requestId url userQuery st
    = (mkStore (githubRequests st) (hitlReviews st) (repoAnalysis st) (searchConfigs st)
         (effects st2 ++
            [EStatus GithubAnalystAgent_name requestId "error" (Some message);
             ELog GithubAnalystAgent_name requestId "error" "Analysis failed"])
         (uuids st2), Ok tt)
  /\ settlement (snd (run env self requestId url userQuery st)) = Fulfilled
  /\ pairRows (fst (run env self requestId url userQuery st)) requestId url
     = pairRows st requestId url.
Proof.
  intros Htry.
  assert (Hrun : run env self requestId url userQuery st
                 = (mkStore (githubRequests st) (hitlReviews st) (repoAnalysis st)
                      (searchConfigs st)
                      (effects st2 ++
                         [EStatus GithubAnalystAgent_name requestId "error" (Some message);
                          ELog GithubAnalystAgent_name requestId "error" "Analysis failed"])
                      (uuids st2), Ok tt)).
  { assert (Henter : run_enter requestId url st
                     = (fst (run_enter requestId url st), Ok tt))
      by (now rewrite run_enter_spec).
    assert (H1 : githubRequests (fst (run_enter requestId url st)) = githubRequests st)
      by (now rewrite run_enter_spec).
    assert (H2 : hitlReviews (fst (run_enter requestId url st)) = hitlReviews st)
      by (now rewrite run_enter_spec).
    assert (H3 : repoAnalysis (fst (run_enter requestId url st)) = repoAnalysis st)
      by (now rewrite run_enter_spec).
    assert (H4 : searchConfigs (fst (run_enter requestId url st)) = searchConfigs st)
      by (now rewrite run_enter_spec).
    remember (fst (run_enter requestId url st)) as st1 eqn:Hst1. clear Hst1.
    pose proof (run_try_requests env self requestId url userQuery st1) as Hrq.
    pose proof (run_try_reviews env self requestId url userQuery st1) as Hhr.
    pose proof (run_try_configs env self requestId url userQuery st1) as Hsc.
    pose proof (run_try_cases _ _ _ _ _ _ Htry) as Hcases.
    unfold unchanged in Hrq, Hhr, Hsc. rewrite Htry in Hrq, Hhr, Hsc.
    simpl fst in Hrq, Hhr, Hsc.
    unfold run, bind. rewrite Henter. unfold try_catch. rewrite Htry.
    rewrite run_catch_spec.
    destruct Hcases as [(_ & Hr & _)|[(_ & _ & Hra)|(_ & Hr & _)]]; try discriminate.
    now rewrite Hrq, Hhr, Hsc, Hra, H1, H2, H3, H4. }
  split; [exact Hrun|].
  rewrite Hrun. simpl. split; reflexivity.
Qed.

Lemma run_failure_is_caught_host_down :
  repoAnalysis (fst (run hostDown idle "req-1" authUrl "auth libraries for CF Workers" supervising)) = []
  /\ settlement (snd (run hostDown idle "req-1" authUrl "auth libraries for CF Workers" supervising))
     = Fulfilled.
Proof.
  assert (Htry : run_try hostDown idle "req-1" authUrl "auth libraries for CF Workers"
                   (fst (run_enter "req-1" authUrl supervising))
                 = (fst (run_enter "req-1" authUrl supervising),
                    Throw "GitHub API responded 502")) by reflexivity.
  destruct (run_failure_is_caught hostDown idle "req-1" authUrl "auth libraries for CF Workers"
              supervising Htry) as (Hrun & Hsettled & _).
  split; [now rewrite Hrun | exact Hsettled].
Defined.

(** C2, as stated, fails: with the code host down the repository lookup
    throws inside [run], and afterwards the analysis table holds no row for
    the pair, with status "error" or any other. *)
Lemma run_failure_persists_no_row :
  snd (run_try hostDown idle "req-1" authUrl "auth libraries for CF Workers"
         (fst (run_enter "req-1" authUrl supervising)))
    = Throw "GitHub API responded 502"
  /\ ~ (exists row,
          In row (repoAnalysis
                    (fst (run hostDown idle "req-1" authUrl "auth libraries for CF Workers" supervising)))
          /\ ra_requestId row = "req-1" /\ repoUrl row = authUrl
          /\ ra_status row = "error").
Proof.
  split; [reflexivity|].
  intros (row & Hin & _). exact Hin.
Qed.

Lemma pairRows_run (env : Env) (self : AnalystState) (requestId url userQuery : string)
    (st : Store) :
  (pairRows st requestId url <> []
   /\ repoAnalysis (fst (run env self requestId url userQuery st)) = repoAnalysis st)
  \/ (pairRows st requestId url = []
      /\ repoAnalysis (fst (run env self requestId url userQuery st)) = repoAnalysis st)
  \/ (pairRows st requestId url = []
      /\ exists row,
           pairRows (fst (run env self requestId url userQuery st)) requestId url = [row]
           /\ ra_status row = "complete").
Proof.
  destruct (run_cases env self requestId url userQuery st)
    as [[Hex Hsame]|[[Hnone Hsame]|[Hnone (row & Hrow & Hadd)]]].
  - left. split; [|assumption]. now rewrite <- existing_none_pairRows.
  - right; left. split; [|assumption]. now apply existing_none_pairRows.
  - right; right. apply existing_none_pairRows in Hnone.
    split; [assumption|]. exists row.
    apply analysed_pair in Hrow. destruct Hrow as [Hpair Hstatus].
    split; [|assumption].
    unfold pairRows in *. rewrite Hadd, filter_app, Hnone. simpl. now rewrite Hpair.
Qed.

(** C3 (as the code has it).  Two invocations of [run], one after the
    other, for a pair that has no result yet: afterwards the pair has at
    most one result; and when the first invocation left a result, the
    second finds it and leaves the analysis table as it is, so the pair
    has exactly that one result.  The environment and the worker's
    correction may differ between the two invocations. *)
Theorem run_twice (env1 env2 : Env) (self1 self2 : AnalystState)
    (requestId url query1 query2 : string) (st st1 st2 : Store) :
  pairRows st requestId url = [] ->
  st1 = fst (run env1 self1 requestId url query1 st) ->
  st2 = fst (run env2 self2 requestId url query2 st1) ->
  List.length (pairRows st2 requestId url) <= 1
  /\ (pairRows st1 requestId url <> [] ->
        repoAnalysis st2 = repoAnalysis st1
        /\ List.length (pairRows st2 requestId url) = 1).
Proof.
  intros Hfresh -> ->.
  set (st1 := fst (run env1 self1 requestId url query1 st)).
  assert (Hfirst : List.length (pairRows st1 requestId url) <= 1).
  { unfold st1.
    destruct (pairRows_run env1 self1 requestId url query1 st)
      as [[Hex _]|[[_ Hsame]|[_ (row & Hrow & _)]]].
    - contradiction.
    - unfold pairRows in *. rewrite Hsame, Hfresh. simpl. lia.
    - rewrite Hrow. simpl. lia. }
  destruct (pairRows_run env2 self2 requestId url query2 st1)
    as [[Hex Hsame]|[[Hnone Hsame]|[Hnone (row & Hrow & _)]]].
  - assert (Hrows : pairRows (fst (run env2 self2 requestId url query2 st1)) requestId url
                    = pairRows st1 requestId url)
      by (unfold pairRows; now rewrite Hsame).
    rewrite Hrows. split; [assumption|].
    intros _. split; [assumption|].
    destruct (pairRows st1 requestId url) as [|row rows]; [contradiction|].
    simpl in *. lia.
  - assert (Hrows : pairRows (fst (run env2 self2 requestId url query2 st1)) requestId url
                    = pairRows st1 requestId url)
      by (unfold pairRows; now rewrite Hsame).
    rewrite Hrows, Hnone. simpl. split; [lia|]. intros Hne. contradiction.
  - rewrite Hrow. simpl. split; [lia|]. intros Hne. contradiction.
Qed.

Lemma run_twice_no_manifest :
  List.length
    (pairRows
       (fst (run noManifest idle "req-1" authUrl "auth libraries for CF Workers"
               (fst (run noManifest idle "req-1" authUrl "auth libraries for CF Workers" supervising))))
       "req-1" authUrl) = 1.
Proof.
  assert (Hfresh : pairRows supervising "req-1" authUrl = []) by reflexivity.
  destruct (@run_twice noManifest noManifest idle idle "req-1" authUrl
              "auth libraries for CF Workers" "auth libraries for CF Workers" supervising _ _
              Hfresh eq_refl eq_refl) as [_ Hsecond].
  apply Hsecond. vm_compute. discriminate.
Defined.

(** C3, as stated, fails: when both invocations fail (here the code host
    is down both times) the pair has no result afterwards, and the second
    invocation found none. *)
Lemma run_twice_failing_leaves_none :
  pairRows
    (fst (run hostDown idle "req-1" authUrl "auth libraries for CF Workers"
            (fst (run hostDown idle "req-1" authUrl "auth libraries for CF Workers" supervising))))
    "req-1" authUrl = []
  /\ findExistingAnalysis
       (fst (run hostDown idle "req-1" authUrl "auth libraries for CF Workers" supervising))
       "req-1" authUrl = None.
Proof. split; reflexivity. Qed.

(** A row for a request that is not stored ("req-9" here) is refused by
    the database; [run] catches that like any other failure and leaves no
    row. *)
Example run_refused_insert_is_caught :
  repoAnalysis (fst (run refusing idle "req-9" authUrl "auth libraries for CF Workers"
                       supervising)) = []
  /\ snd (run refusing idle "req-9" authUrl "auth libraries for CF Workers" supervising)
     = Ok tt
  /\ In (EStatus GithubAnalystAgent_name "req-9" "error" (Some referenceMessage))
       (effects (fst (run refusing idle "req-9" authUrl "auth libraries for CF Workers"
                        supervising))).
Proof. repeat split. vm_compute. tauto. Qed.

(** A first invocation that fails is followed by a second one that is not
    a no-op: it analyses the candidate and inserts the row. *)
Lemma run_after_failure_inserts :
  List.length
    (repoAnalysis
       (fst (run noManifest idle "req-1" authUrl "auth libraries for CF Workers"
               (fst (run hostDown idle "req-1" authUrl "auth libraries for CF Workers" supervising)))))
  = 1.
Proof. reflexivity. Qed.

(** C8 (as the code has it).  A row that [run] adds to the analysis table
    has status "complete" and carries, as its score, the [ai_ranking] of a
    reply of the model that passed [analysisSchema] before the insert; the
    schema asks of [ai_ranking] that it is a number, so the score is
    present. *)
Theorem run_persists_validated_ranking (env : Env) (self : AnalystState)
    (requestId url userQuery : string) (st : Store) :
  repoAnalysis (fst (run env self requestId url userQuery st)) = repoAnalysis st
  \/ exists row prompt analysis n,
       repoAnalysis (fst (run env self requestId url userQuery st))
         = repoAnalysis st ++ [row]
       /\ ra_requestId row = requestId /\ repoUrl row = url
       /\ ra_status row = "complete"
       /\ model env prompt = Ok analysis
       /\ conforms analysisSchema analysis = true
       /\ prop "ai_ranking" analysis = Some (JNum n)
       /\ aiRanking row = Some n.
Proof.
  destruct (run_cases env self requestId url userQuery st)
    as [[_ Hsame]|[[_ Hsame]|[_ (row & Hrow & Hadd)]]]; [now left|now left|].
  right.
  destruct Hrow as (pathname & owner & repo & rest & details & readme & analysis & H).
  destruct H as (_ & _ & _ & _ & Hmodel & Hconf & -> & _).
  destruct (conforms_ranking _ Hconf) as [n Hn].
  eexists. eexists. exists analysis, n. split; [exact Hadd|].
  unfold completeRow. cbn [ra_requestId repoUrl ra_status aiRanking].
  rewrite Hn. cbn [as_number].
  repeat split; try reflexivity; eassumption.
Qed.

(** C8, as stated, fails: a reply with [ai_ranking] 150 passes the schema
    and is persisted, with status "complete" and score 150. *)
Lemma run_persists_ranking_150 :
  exists row,
    repoAnalysis (fst (run generous idle "req-1" authUrl "auth libraries for CF Workers" supervising))
      = [row]
    /\ ra_status row = "complete"
    /\ aiRanking row = Some 150%Z
    /\ ~ (1 <= 150 <= 100)%Z.
Proof.
  eexists. split; [reflexivity|]. simpl. repeat split. lia.
Qed.

(** C9.  A candidate whose [package.json] cannot be read: when the URL
    parses, the repository and its README are fetched, and the model's
    reply to the prompt passes the schema, [run] returns normally having
    inserted one row with status "complete" for the pair.  The prompt is
    the one built for an absent manifest (it reads "Not found" in its
    place), and the only statuses reported are "analyzing" and
    "complete". *)
Theorem run_without_manifest (env : Env) (self : AnalystState)
    (requestId url userQuery : string) (st : Store)
    (pathname owner repo : string) (rest : list string)
    (details : RepoDetails) (readme message : string) (analysis : Json) :
  findExistingAnalysis st requestId url = None ->
  url_pathname env url = Ok pathname ->
  filter truthy_string (split slash pathname) = owner :: repo :: rest ->
  github_get_repo env owner repo = Ok details ->
  github_read_file env owner repo "README.md" = Ok readme ->
  github_read_file env owner repo "package.json" = Throw message ->
  model env (analysisPrompt self userQuery url readme None) = Ok analysis ->
  conforms analysisSchema analysis = true ->
  insert_error env (completeRow (randomUUID env (uuids st)) requestId url details analysis)
    = None ->
  run env self requestId url userQuery st
    = (mkStore (githubRequests st) (hitlReviews st)
         (repoAnalysis st ++
            [completeRow (randomUUID env (uuids st)) requestId url details analysis])
         (searchConfigs st)
         (effects st ++
            [EStatus GithubAnalystAgent_name requestId "analyzing" None;
             ELog GithubAnalystAgent_name requestId "info" ("Analyzing repository: " +++ url);
             EStatus GithubAnalystAgent_name requestId "complete" None;
             ELog GithubAnalystAgent_name requestId "info" "Analysis complete."])
         (S (uuids st)), Ok tt)
  /\ ra_status (completeRow (randomUUID env (uuids st)) requestId url details analysis)
     = "complete"
  /\ orNotFound (catch_null (github_read_file env owner repo "package.json"))
     = "Not found".
Proof.
  intros Hnone Hurl Hparts Hrepo Hreadme Hpkg Hmodel Hconf Hinsert.
  split; [|split; [reflexivity | now rewrite Hpkg]].
  unfold run, bind. rewrite run_enter_spec. unfold try_catch.
  unfold run_try, bind, get.
  change (findExistingAnalysis _ requestId url)
    with (findExistingAnalysis st requestId url).
  rewrite Hnone. unfold await. rewrite Hurl, Hparts, Hrepo, Hreadme, Hpkg.
  unfold generateStructured. simpl catch_null. rewrite Hmodel, Hconf.
  unfold newUUID, insertAnalysis. cbn [uuids fst snd].
  fold (completeRow (randomUUID env (uuids st)) requestId url details analysis).
  rewrite Hinsert.
  unfold status, logRequest, emit. rewrite analyst_is_not_orchestrator.
  cbn [githubRequests hitlReviews repoAnalysis searchConfigs effects uuids].
  now rewrite <- !app_assoc.
Qed.

Lemma run_without_manifest_acme :
  List.length
    (repoAnalysis (fst (run noManifest idle "req-1" authUrl "auth libraries for CF Workers" supervising)))
  = 1.
Proof.
  destruct (@run_without_manifest noManifest idle "req-1" authUrl "auth libraries for CF Workers"
              supervising "/acme/auth" "acme" "auth" [] (mkDetails 1200) "# auth"
              "Not Found" (analysisReply 87)
              eq_refl eq_refl eq_refl eq_refl eq_refl eq_refl eq_refl eq_refl eq_refl)
    as [Hrun _].
  now rewrite Hrun.
Defined.

(** C4.  No operation of the analyst or of the judge writes the
    [github_requests] table: after [run] and after [review] every request
    has the status it had before. *)
Theorem workers_leave_request_status (env : Env) (self : AnalystState)
    (requestId url userQuery : string) (results : list RepoAnalysis) (st : Store) :
  githubRequests (fst (run env self requestId url userQuery st)) = githubRequests st
  /\ githubRequests (fst (review env requestId userQuery results st)) = githubRequests st
  /\ (forall id,
        option_map req_status (findRequest (fst (run env self requestId url userQuery st)) id)
        = option_map req_status (findRequest st id))
  /\ (forall id,
        option_map req_status (findRequest (fst (review env requestId userQuery results st)) id)
        = option_map req_status (findRequest st id)).
Proof.
  pose proof (run_requests env self requestId url userQuery st) as Hrun.
  pose proof (review_requests env requestId userQuery results st) as Hreview.
  unfold unchanged in *. unfold findRequest.
  rewrite Hrun, Hreview. repeat split; reflexivity.
Qed.

(* --------------------------------------------------------------------- *)
(** ** The review route *)

Lemma setVerdict_id (s : Submission) (r : HitlReview) :
  hitl_id (setVerdict s r) = hitl_id r.
Proof. unfold setVerdict. now destruct (String.eqb _ _). Qed.

Lemma setVerdict_request (s : Submission) (r : HitlReview) :
  hitl_requestId (setVerdict s r) = hitl_requestId r.
Proof. unfold setVerdict. now destruct (String.eqb _ _). Qed.

Lemma setVerdict_reviewed (s : Submission) (r : HitlReview) :
  reviewed (setVerdict s r) = true <->
  hitl_id r = sub_reviewId s \/ reviewed r = true.
Proof.
  unfold setVerdict.
  destruct (String.eqb_spec (hitl_id r) (sub_reviewId s)) as [Heq|Hne].
  - split; [now left | reflexivity].
  - split; [now right | intros [H|H]; [contradiction | exact H]].
Qed.

Lemma setVerdict_other (s : Submission) (r : HitlReview) :
  hitl_id r <> sub_reviewId s -> setVerdict s r = r.
Proof.
  intros Hne. unfold setVerdict.
  destruct (String.eqb_spec (hitl_id r) (sub_reviewId s)); [contradiction | reflexivity].
Qed.

Lemma setVerdict_snapshot (s : Submission) (r : HitlReview) :
  repoSnapshotJson (setVerdict s r) = repoSnapshotJson r.
Proof. unfold setVerdict. now destruct (String.eqb _ _). Qed.

(** The updated table holds the rows of the old one, each with the update
    applied to it. *)
Lemma reviewUpdate_rows (s : Submission) (st : Store) :
  Permutation (hitlReviews (reviewUpdate s st)) (map (setVerdict s) (hitlReviews st)).
Proof.
  unfold reviewUpdate. cbn [hitlReviews].
  induction (hitlReviews st) as [|r rows IH]; simpl; [constructor|].
  destruct (addressed s r) eqn:Hhit; simpl.
  - symmetry. apply Permutation_cons_app. symmetry. exact IH.
  - apply String.eqb_neq in Hhit. rewrite (@setVerdict_other s r Hhit). now constructor.
Qed.

Lemma reviewUpdate_In (s : Submission) (st : Store) (r : HitlReview) :
  In r (hitlReviews (reviewUpdate s st)) <->
  exists r0, setVerdict s r0 = r /\ In r0 (hitlReviews st).
Proof.
  rewrite <- in_map_iff. split; apply Permutation_in.
  - apply reviewUpdate_rows.
  - symmetry. apply reviewUpdate_rows.
Qed.

Lemma filter_perm (A : Type) (f : A -> bool) (l l' : list A) :
  Permutation l l' -> Permutation (filter f l) (filter f l').
Proof.
  induction 1 as [|x l l' _ IH|x y l|l l' l'' _ IH1 _ IH2]; simpl.
  - constructor.
  - destruct (f x); [now constructor | exact IH].
  - destruct (f x), (f y); try reflexivity. apply perm_swap.
  - now transitivity (filter f l').
Qed.

Lemma filter_all_length (A : Type) (f : A -> bool) (l : list A) :
  List.length (filter f l) = List.length l <-> forall x, In x l -> f x = true.
Proof.
  induction l as [|x l IH]; simpl.
  - split; [intros _ y [] | reflexivity].
  - pose proof (filter_length_le f l) as Hle.
    destruct (f x) eqn:Hx; simpl.
    + split.
      * intros H y [<-|Hy]; [assumption|]. apply IH; [lia | assumption].
      * intros H. f_equal. apply IH. intros y Hy. apply H. now right.
    + split.
      * intros H. lia.
      * intros H. specialize (H x (or_introl eq_refl)). congruence.
Qed.

Lemma allReviewed_complete (st : Store) (requestId : string) :
  allReviewed st requestId = true <-> complete st requestId.
Proof.
  unfold allReviewed, complete, findReviews.
  rewrite Nat.eqb_eq. split.
  - intros H r Hin Hreq. symmetry in H. rewrite filter_all_length in H.
    apply H, filter_In. split; [assumption|]. now apply String.eqb_eq.
  - intros H. symmetry. apply filter_all_length.
    intros r Hr. apply filter_In in Hr. destruct Hr as [Hin Hreq].
    apply H; [assumption|]. now apply String.eqb_eq.
Qed.

Lemma reviewCheck_called (s : Submission) (st : Store) (requestId : string) :
  reviewCheck s st = Some requestId ->
  complete st requestId
  /\ exists rv, In rv (hitlReviews st)
                /\ hitl_id rv = sub_reviewId s /\ hitl_requestId rv = requestId.
Proof.
  unfold reviewCheck.
  destruct (find _ (hitlReviews st)) as [rv|] eqn:Hfind; [|discriminate].
  destruct (allReviewed st (hitl_requestId rv)) eqn:Hall; [|discriminate].
  intros [= <-]. apply find_some in Hfind. destruct Hfind as [Hin Hid].
  split; [now apply allReviewed_complete|].
  exists rv. repeat split; [assumption|]. now apply String.eqb_eq.
Qed.

Lemma reviewUpdate_complete (s : Submission) (st : Store) (requestId : string) :
  complete st requestId -> complete (reviewUpdate s st) requestId.
Proof.
  intros Hall r Hin Hreq. apply reviewUpdate_In in Hin.
  destruct Hin as [r0 [<- Hin0]]. rewrite setVerdict_request in Hreq.
  apply setVerdict_reviewed. right. now apply Hall.
Qed.

Lemma reviewUpdate_within (s : Submission) (st : Store) (requestId : string)
    (done : list string) :
  reviewedWithin requestId done st ->
  reviewedWithin requestId (sub_reviewId s :: done) (reviewUpdate s st).
Proof.
  intros Hdone r Hin Hreq Hrev. apply reviewUpdate_In in Hin.
  destruct Hin as [r0 [<- Hin0]]. rewrite setVerdict_id.
  rewrite setVerdict_request in Hreq.
  apply setVerdict_reviewed in Hrev. destruct Hrev as [Hid|Hrev0].
  - left. now symmetry.
  - right. now apply Hdone.
Qed.

Lemma calls_of_app (requestId : string) (l1 l2 : list string) :
  calls_of requestId (l1 ++ l2) = calls_of requestId l1 + calls_of requestId l2.
Proof. unfold calls_of. now rewrite filter_app, length_app. Qed.

Lemma calls_of_absent (requestId : string) (l : list string) :
  ~ In requestId l -> calls_of requestId l = 0.
Proof.
  unfold calls_of. induction l as [|x l IH]; simpl; [reflexivity|].
  intros Hnot. destruct (String.eqb_spec requestId x) as [->|Hne].
  - exfalso. apply Hnot. now left.
  - apply IH. intros Hin. apply Hnot. now right.
Qed.

(** Once every item of a request is reviewed, submissions for items not
    reviewed before never call [continue] for it. *)
Lemma complete_never_called (requestId : string) (subs : list Submission) :
  forall st done,
    reviewedWithin requestId done st ->
    (forall s, In s subs -> ~ In (sub_reviewId s) done) ->
    NoDup (map sub_reviewId subs) ->
    complete st requestId ->
    ~ In requestId (snd (submitAll st subs)).
Proof.
  induction subs as [|s subs IH]; simpl; intros st done Hdone Hnew Hnd Hall.
  - intros [].
  - destruct (submitAll (reviewUpdate s st) subs) as [st2 calls] eqn:Hrest.
    simpl. intros Hin. apply in_app_or in Hin.
    inversion Hnd as [|? ? Hfirst Hnd']; subst.
    destruct Hin as [Hcall|Hlater].
    + destruct (reviewCheck s (reviewUpdate s st)) as [called|] eqn:Hcheck;
        [|destruct Hcall].
      destruct Hcall as [->|[]].
      apply reviewCheck_called in Hcheck.
      destruct Hcheck as [_ (rv & Hrv & Hid & Hreq)].
      apply reviewUpdate_In in Hrv. destruct Hrv as [r0 [<- Hin0]].
      rewrite setVerdict_id in Hid. rewrite setVerdict_request in Hreq.
      apply (Hnew s (or_introl eq_refl)). rewrite <- Hid.
      apply Hdone; [assumption | assumption |]. now apply Hall.
    + apply (IH (reviewUpdate s st) (sub_reviewId s :: done)).
      * now apply reviewUpdate_within.
      * intros s' Hs' [Heq|Hin'].
        -- apply Hfirst. rewrite Heq. now apply in_map.
        -- apply (Hnew s' (or_intror Hs')). exact Hin'.
      * assumption.
      * now apply reviewUpdate_complete.
      * now rewrite Hrest.
Qed.

Lemma calls_at_most_once (requestId : string) (subs : list Submission) :
  forall st done,
    reviewedWithin requestId done st ->
    (forall s, In s subs -> ~ In (sub_reviewId s) done) ->
    NoDup (map sub_reviewId subs) ->
    calls_of requestId (snd (submitAll st subs)) <= 1
    /\ forall called, In called (snd (submitAll st subs)) ->
         complete (fst (submitAll st subs)) called.
Proof.
  induction subs as [|s subs IH]; simpl; intros st done Hdone Hnew Hnd.
  - split; [unfold calls_of; simpl; lia | intros called []].
  - inversion Hnd as [|? ? Hfirst Hnd']; subst.
    assert (Hdone1 : reviewedWithin requestId (sub_reviewId s :: done) (reviewUpdate s st))
      by now apply reviewUpdate_within.
    assert (Hnew1 : forall s', In s' subs -> ~ In (sub_reviewId s') (sub_reviewId s :: done)).
    { intros s' Hs' [Heq|Hin'].
      - apply Hfirst. rewrite Heq. now apply in_map.
      - apply (Hnew s' (or_intror Hs')). exact Hin'. }
    destruct (IH (reviewUpdate s st) _ Hdone1 Hnew1 Hnd') as [IHcount IHcomplete].
    assert (Hstays : forall rid, complete (reviewUpdate s st) rid ->
                                 complete (fst (submitAll (reviewUpdate s st) subs)) rid).
    { clear. generalize (reviewUpdate s st) as st1.
      induction subs as [|s' subs IH']; simpl; intros st1 rid Hc; [assumption|].
      specialize (IH' (reviewUpdate s' st1) rid (reviewUpdate_complete s' Hc)).
      now destruct (submitAll (reviewUpdate s' st1) subs). }
    pose proof (@complete_never_called requestId subs (reviewUpdate s st)
                  (sub_reviewId s :: done) Hdone1 Hnew1 Hnd') as Hnever.
    destruct (submitAll (reviewUpdate s st) subs) as [st2 calls] eqn:Hrest.
    simpl in *. split.
    + rewrite calls_of_app.
      destruct (reviewCheck s (reviewUpdate s st)) as [called|] eqn:Hcheck; simpl.
      * destruct (String.eqb_spec requestId called) as [<-|Hne].
        -- apply reviewCheck_called in Hcheck. destruct Hcheck as [Hall _].
           rewrite (calls_of_absent _ _ (Hnever Hall)).
           unfold calls_of. simpl. rewrite String.eqb_refl. simpl. lia.
        -- unfold calls_of in *. simpl.
           destruct (String.eqb_spec requestId called); [contradiction|]. simpl. lia.
      * unfold calls_of in *. simpl. lia.
    + intros called Hin. apply in_app_or in Hin. destruct Hin as [Hnow|Hlater].
      * destruct (reviewCheck s (reviewUpdate s st)) as [c|] eqn:Hcheck; [|destruct Hnow].
        destruct Hnow as [->|[]].
        apply reviewCheck_called in Hcheck. destruct Hcheck as [Hall _].
        now apply Hstays.
      * now apply IHcomplete.
Qed.

(** C5 (as the code has it).  Take a request none of whose review items
    is reviewed yet, whatever the state of the other requests, and let
    every item be submitted at most once.  The review route, handling the
    submissions one after the other, calls [continue] at most once for the
    request; and when it calls [continue] for it, all items of the request
    are reviewed. *)
Theorem review_calls_continue_once (st : Store) (subs : list Submission)
    (requestId : string) :
  (forall r, In r (hitlReviews st) -> hitl_requestId r = requestId -> reviewed r = false) ->
  NoDup (map sub_reviewId subs) ->
  calls_of requestId (snd (submitAll st subs)) <= 1
  /\ (In requestId (snd (submitAll st subs)) ->
        complete (fst (submitAll st subs)) requestId).
Proof.
  intros Hpending Hnd.
  assert (Hdone : reviewedWithin requestId [] st).
  { intros r Hin Hreq Hrev. rewrite (Hpending r Hin Hreq) in Hrev. discriminate. }
  destruct (@calls_at_most_once requestId subs st [] Hdone (fun s _ H => H) Hnd)
    as [Hcount Hcomplete].
  split; [exact Hcount | apply Hcomplete].
Qed.

Lemma review_two_items_once :
  calls_of "req-1" (snd (submitAll secondRequest [approve "rev-1"; approve "rev-2"])) <= 1
  /\ (In "req-1" (snd (submitAll secondRequest [approve "rev-1"; approve "rev-2"])) ->
        complete (fst (submitAll secondRequest [approve "rev-1"; approve "rev-2"])) "req-1").
Proof.
  apply (@review_calls_continue_once secondRequest [approve "rev-1"; approve "rev-2"]
           "req-1").
  - intros r [<-|[<-|[<-|[]]]] Hreq; try reflexivity. discriminate.
  - repeat constructor; simpl; intuition discriminate.
Defined.

(** In that run the second submission is the one that calls [continue]. *)
Example review_two_items_calls :
  snd (submitAll twoItems [approve "rev-1"; approve "rev-2"]) = ["req-1"]
  /\ snd (submitAll twoItems [approve "rev-1"]) = [].
Proof. split; reflexivity. Qed.

(** C5, as stated, fails: a verdict submitted again for an item that is
    already reviewed, once all items are, makes the route call [continue]
    a second time, and [continue] has no guard: the second invocation finds
    the request and runs Expansion and Delegation again. *)
Lemma resubmission_calls_continue_twice :
  snd (submitAll oneItem [approve "rev-1"; approve "rev-1"]) = ["req-1"; "req-1"]
  /\ calls_of "req-1" (snd (submitAll oneItem [approve "rev-1"; approve "rev-1"])) = 2
  /\ snd (continue_delegation (orchestratorEnv [candidate 0]) "req-1"
            (fst (continue_delegation (orchestratorEnv [candidate 0]) "req-1"
                    (fst (submitAll oneItem [approve "rev-1"; approve "rev-1"])))))
     = Ok (mkRequest "req-1" "auth libraries for CF Workers" "supervision" (JObj [])
             "session-1",
           [candidate 0; candidate 0]).
Proof. repeat split. Qed.

(** Two handlers in flight at once: when both updates land before either
    check, both checks see every item reviewed and both call [continue],
    although each item was submitted once. *)
Lemma simultaneous_reviews_call_continue_twice :
  snd (interleave twoItems
         [Update (approve "rev-1"); Update (approve "rev-2");
          Check (approve "rev-1"); Check (approve "rev-2")])
  = ["req-1"; "req-1"].
Proof. reflexivity. Qed.

(* --------------------------------------------------------------------- *)
(** ** Sampling without candidates *)

Lemma findRequest_status (requestId s : string) (requests : list GithubRequest)
    (request : GithubRequest) :
  find (fun r => String.eqb (req_id r) requestId) requests = Some request ->
  find (fun r => String.eqb (req_id r) requestId)
       (map (setRequestStatus requestId s) requests)
  = Some (mkRequest (req_id request) (req_query request) s (req_config request)
            (req_sessionId request)).
Proof.
  induction requests as [|r requests IH]; simpl; [discriminate|].
  assert (Hsame : req_id (setRequestStatus requestId s r) = req_id r)
    by (unfold setRequestStatus; now destruct (String.eqb _ _)).
  rewrite Hsame.
  destruct (String.eqb (req_id r) requestId) eqn:Hid.
  - intros [= ->]. unfold setRequestStatus. now rewrite Hid.
  - exact IH.
Qed.

Lemma continue_delegation_enters (env : Env) (requestId : string) (st : Store)
    (request : GithubRequest) :
  findRequest st requestId = Some request ->
  exists more,
    effects (fst (continue_delegation env requestId st))
    = effects st
      ++ EStatus OrchestratorAgent_name requestId "expansion" None
      :: EBroadcast "status" requestId "expansion" :: more.
Proof.
  intros Hfind. unfold continue_delegation, bind, get. rewrite Hfind.
  unfold status at 1, broadcast at 1, emit.
  cbn [githubRequests hitlReviews repoAnalysis searchConfigs effects uuids].
  unfold refineSearchQueries, bind, generateStructured.
  destruct (model env _) as [reply|m];
    [|exists []; cbn [fst effects]; now rewrite <- app_assoc].
  destruct (conforms (ZArray ZString) reply);
    [|exists []; cbn [fst effects]; now rewrite <- app_assoc].
  unfold ret at 1.
  unfold status at 1, broadcast at 1, emit.
  cbn [githubRequests hitlReviews repoAnalysis searchConfigs effects uuids].
  unfold searchAll, bind, await.
  destruct (all _ _) as [results|m].
  - unfold ret at 1, status, broadcast, emit.
    cbn [fst githubRequests hitlReviews repoAnalysis searchConfigs effects uuids].
    eexists. rewrite <- !app_assoc. cbn [app]. reflexivity.
  - cbn [fst effects]. eexists. rewrite <- !app_assoc. cbn [app]. reflexivity.
Qed.

(** The review route calls [continue] only from a submission for an
    existing item: for a request without items it never does. *)
Lemma route_never_resumes_empty_request (requestId : string) (subs : list Submission) :
  forall st,
    findReviews st requestId = [] ->
    ~ In requestId (snd (submitAll st subs)).
Proof.
  induction subs as [|s subs IH]; simpl; intros st Hnone; [intros []|].
  assert (Hnone1 : findReviews (reviewUpdate s st) requestId = []).
  { unfold findReviews in *.
    destruct (filter _ (hitlReviews (reviewUpdate s st))) as [|r rest] eqn:Hrows;
      [reflexivity|].
    exfalso.
    assert (Hr : In r (filter (fun r => String.eqb (hitl_requestId r) requestId)
                         (hitlReviews (reviewUpdate s st))))
      by (rewrite Hrows; now left).
    apply filter_In in Hr. destruct Hr as [Hin Hreq].
    apply reviewUpdate_In in Hin. destruct Hin as [r0 [<- Hin0]].
    rewrite setVerdict_request in Hreq.
    assert (Hin' : In r0 (filter (fun r => String.eqb (hitl_requestId r) requestId)
                            (hitlReviews st)))
      by (apply filter_In; now split).
    rewrite Hnone in Hin'. exact Hin'. }
  specialize (IH _ Hnone1).
  destruct (submitAll (reviewUpdate s st) subs) as [st2 calls]. simpl in *.
  intros Hin. apply in_app_or in Hin. destruct Hin as [Hnow|Hlater]; [|contradiction].
  destruct (reviewCheck s (reviewUpdate s st)) as [called|] eqn:Hcheck; [|destruct Hnow].
  destruct Hnow as [->|[]].
  apply reviewCheck_called in Hcheck. destruct Hcheck as [_ (rv & Hrv & _ & Hreq)].
  assert (Hin : In rv (findReviews (reviewUpdate s st) requestId)).
  { unfold findReviews. apply filter_In. split; [assumption|]. now apply String.eqb_eq. }
  rewrite Hnone1 in Hin. exact Hin.
Qed.

(** What [start] does when the searches answer and find nothing. *)
Lemma start_finds_nothing (env : Env) (requestId query : string) (config : Json)
    (st : Store) (reply : Json) (found : list (list Repo)) :
  model env (searchQueriesPrompt query) = Ok reply ->
  conforms (ZArray ZString) reply = true ->
  all env (map (github_search_code env) (strings_of reply)) = Ok found ->
  List.concat found = [] ->
  start env requestId query config st
  = (mkStore
       (map (setRequestStatus requestId "hitl")
          (map (setRequestStatus requestId "sampling") (githubRequests st)))
       (hitlReviews st) (repoAnalysis st) (searchConfigs st)
       (effects st ++
          [ELog OrchestratorAgent_name requestId "info" "Starting new search.";
           EStatus OrchestratorAgent_name requestId "sampling" None;
           EBroadcast "status" requestId "sampling";
           EStatus OrchestratorAgent_name requestId "hitl" None;
           EBroadcast "status" requestId "hitl"])
       (uuids st), Throw "values() must be called with at least one value").
Proof.
  intros Hmodel Hconf Hall Hempty.
  unfold start, bind, logRequest, broadcast, emit, status.
  cbn [githubRequests hitlReviews repoAnalysis searchConfigs effects uuids].
  unfold generateSearchQueries, bind, generateStructured.
  rewrite Hmodel, Hconf. unfold ret at 1.
  unfold searchAll, bind, await. rewrite Hall. unfold ret at 1. rewrite Hempty.
  simpl. rewrite <- !app_assoc. reflexivity.
Qed.

(** C7 (as the code has it).  Sampling that finds nothing: when the
    queries the model proposes all return no candidate, [start] reports
    "sampling" and "hitl" and creates no review item (the query builder
    refuses the empty insert, so [start] ends there and the items are
    never broadcast).  The request is left in status "hitl" without items,
    and the route's test "all items reviewed" holds of it.  [continue],
    when invoked for the request, is not refused and enters Expansion; it
    asks for refined queries with no approved example, and when the model
    and the searches answer it reaches Supervision with the candidates they
    give.  But whatever verdicts are posted afterwards, the review route
    does not invoke it. *)
Theorem start_without_candidates (env : Env) (requestId query : string) (config : Json)
    (st : Store) (request : GithubRequest) (reply : Json) (found : list (list Repo)) :
  findRequest st requestId = Some request ->
  findReviews st requestId = [] ->
  model env (searchQueriesPrompt query) = Ok reply ->
  conforms (ZArray ZString) reply = true ->
  all env (map (github_search_code env) (strings_of reply)) = Ok found ->
  List.concat found = [] ->
  start env requestId query config st
  = (mkStore
       (map (setRequestStatus requestId "hitl")
          (map (setRequestStatus requestId "sampling") (githubRequests st)))
       (hitlReviews st) (repoAnalysis st) (searchConfigs st)
       (effects st ++
          [ELog OrchestratorAgent_name requestId "info" "Starting new search.";
           EStatus OrchestratorAgent_name requestId "sampling" None;
           EBroadcast "status" requestId "sampling";
           EStatus OrchestratorAgent_name requestId "hitl" None;
           EBroadcast "status" requestId "hitl"])
       (uuids st), Throw "values() must be called with at least one value")
  /\ findReviews (fst (start env requestId query config st)) requestId = []
  /\ allReviewed (fst (start env requestId query config st)) requestId = true
  /\ findRequest (fst (start env requestId query config st)) requestId
     = Some (mkRequest (req_id request) (req_query request) "hitl" (req_config request)
               (req_sessionId request))
  /\ (forall env',
        exists more,
          effects (fst (continue_delegation env' requestId
                          (fst (start env requestId query config st))))
          = effects (fst (start env requestId query config st))
            ++ EStatus OrchestratorAgent_name requestId "expansion" None
            :: EBroadcast "status" requestId "expansion" :: more)
  /\ (forall env' reply' found',
        model env' (refinePrompt env' (req_query request) []) = Ok reply' ->
        conforms (ZArray ZString) reply' = true ->
        all env' (map (github_search_code env') (strings_of reply')) = Ok found' ->
        snd (continue_delegation env' requestId (fst (start env requestId query config st)))
        = Ok (mkRequest (req_id request) (req_query request) "hitl" (req_config request)
                (req_sessionId request),
              sliceTo (reposToAnalyzeCount st) (List.concat found')))
  /\ (forall subs,
        calls_of requestId (snd (submitAll (fst (start env requestId query config st)) subs))
        = 0).
Proof.
  intros Hfind Hnone Hmodel Hconf Hall Hempty.
  pose proof (@start_finds_nothing env requestId query config st reply found
                Hmodel Hconf Hall Hempty) as Hstart.
  assert (Hreq : findRequest (fst (start env requestId query config st)) requestId
                 = Some (mkRequest (req_id request) (req_query request) "hitl"
                           (req_config request) (req_sessionId request))).
  { rewrite Hstart. unfold findRequest in *. cbn [fst githubRequests].
    pose proof (findRequest_status requestId "sampling" _ Hfind) as Hsampling.
    exact (findRequest_status requestId "hitl" _ Hsampling). }
  assert (Hrows : findReviews (fst (start env requestId query config st)) requestId = []).
  { rewrite Hstart. exact Hnone. }
  split; [exact Hstart|].
  split; [exact Hrows|].
  split; [unfold allReviewed; now rewrite Hrows|].
  split; [exact Hreq|].
  split; [intros env'; eapply continue_delegation_enters; exact Hreq|].
  split.
  - intros env' reply' found' Hmodel' Hconf' Hall'.
    unfold continue_delegation, bind, get. rewrite Hreq, Hrows.
    assert (Hcount : reposToAnalyzeCount (fst (start env requestId query config st))
                     = reposToAnalyzeCount st) by now rewrite Hstart.
    rewrite Hcount.
    unfold status, broadcast, emit.
    cbn [githubRequests hitlReviews repoAnalysis searchConfigs effects uuids].
    unfold refineSearchQueries, bind, generateStructured.
    cbn [filter map req_query]. rewrite Hmodel', Hconf'. unfold ret at 1.
    unfold searchAll, bind, await. rewrite Hall'. reflexivity.
  - intros subs. apply calls_of_absent.
    now apply route_never_resumes_empty_request.
Qed.

Lemma start_without_candidates_acme :
  hitlReviews (fst (start (orchestratorEnv []) "req-1" "auth libraries for CF Workers"
                      (JObj []) submitted)) = []
  /\ allReviewed (fst (start (orchestratorEnv []) "req-1" "auth libraries for CF Workers"
                         (JObj []) submitted)) "req-1" = true.
Proof.
  destruct (@start_without_candidates (orchestratorEnv []) "req-1"
              "auth libraries for CF Workers" (JObj []) submitted
              (mkRequest "req-1" "auth libraries for CF Workers" "pending" (JObj [])
                 "session-1")
              (JArr [JStr "cloudflare workers auth"; JStr "workers jwt session"])
              [[]; []] eq_refl eq_refl eq_refl eq_refl eq_refl eq_refl)
    as (Hstart & _ & Hall & _).
  split; [now rewrite Hstart | exact Hall].
Defined.

(** C7, as stated, fails: a request whose Sampling found nothing is not
    taken past the HITL gate.  [start] ends at the empty insert, the
    request stays in status "hitl" without items, and no verdict posted to
    the review route, the one caller of [continue], makes it invoke
    [continue] for the request. *)
Lemma start_without_candidates_stalls :
  snd (start (orchestratorEnv []) "req-1" "auth libraries for CF Workers" (JObj [])
         submitted)
    = Throw "values() must be called with at least one value"
  /\ findReviews
       (fst (start (orchestratorEnv []) "req-1" "auth libraries for CF Workers" (JObj [])
               submitted)) "req-1" = []
  /\ option_map req_status
       (findRequest
          (fst (start (orchestratorEnv []) "req-1" "auth libraries for CF Workers"
                  (JObj []) submitted)) "req-1")
     = Some "hitl"
  /\ (forall subs,
        calls_of "req-1"
          (snd (submitAll
                  (fst (start (orchestratorEnv []) "req-1" "auth libraries for CF Workers"
                          (JObj []) submitted)) subs))
        = 0).
Proof.
  split; [reflexivity|]. split; [reflexivity|]. split; [reflexivity|].
  intros subs. apply calls_of_absent.
  now apply route_never_resumes_empty_request.
Qed.

(* ===================================================================== *)
(** * Further properties *)

(* --------------------------------------------------------------------- *)
(** ** The judge and the hand-off *)

Lemma filter_Subseq (A : Type) (f : A -> bool) (l : list A) : Subseq (filter f l) l.
Proof.
  induction l as [|x l IH]; simpl.
  - constructor.
  - destruct (f x); now constructor.
Qed.

Lemma Subseq_In (A : Type) (l1 l2 : list A) (x : A) :
  Subseq l1 l2 -> In x l1 -> In x l2.
Proof.
  induction 1 as [|y l1 l2 _ IH|y l1 l2 _ IH]; simpl; intuition.
Qed.

Lemma Subseq_length (A : Type) (l1 l2 : list A) :
  Subseq l1 l2 -> List.length l1 <= List.length l2.
Proof. induction 1; simpl; lia. Qed.

Lemma Subseq_sorted (A : Type) (R : A -> A -> Prop) (l1 l2 : list A) :
  Subseq l1 l2 -> StronglySorted R l2 -> StronglySorted R l1.
Proof.
  induction 1 as [|y l1 l2 Hsub IH|y l1 l2 Hsub IH]; intros Hs.
  - constructor.
  - inversion Hs; subst. now apply IH.
  - inversion Hs as [|? ? Hs' Hall]; subst. constructor; [now apply IH|].
    rewrite Forall_forall in *. intros x Hx. apply Hall. eapply Subseq_In; eassumption.
Qed.

Lemma Subseq_refl (A : Type) (l : list A) : Subseq l l.
Proof. induction l; now constructor. Qed.

Lemma firstn_Subseq (A : Type) (n : nat) (l : list A) : Subseq (firstn n l) l.
Proof.
  revert n. induction l as [|x l IH]; intros [|n]; simpl.
  - constructor.
  - constructor.
  - apply subseq_skip. apply (IH 0).
  - apply subseq_keep. apply IH.
Qed.

Lemma has_In (ids : list string) (id : string) : has ids id = true <-> In id ids.
Proof.
  unfold has. rewrite existsb_exists. split.
  - intros [x [Hx Heq]]. apply String.eqb_eq in Heq. now subst.
  - intros Hin. exists id. split; [assumption | apply String.eqb_refl].
Qed.

(** What [review] does when it returns. *)
Lemma review_returns (env : Env) (requestId userQuery : string)
    (results final : list RepoAnalysis) (st st' : Store) :
  review env requestId userQuery results st = (st', Ok final) ->
  exists verdicts,
    model env (reviewPrompt env userQuery results) = Ok verdicts
    /\ conforms reviewSchema verdicts = true
    /\ final = filter (fun r => has (approvedIds verdicts) (ra_id r)) results
    /\ repoAnalysis st' = repoAnalysis st
    /\ effects st'
       = effects st ++
         [EStatus JudgeAgent_name requestId "judging" None;
          ELog JudgeAgent_name requestId "info" "Judging results.";
          EStatus JudgeAgent_name requestId "judged" None;
          ELog JudgeAgent_name requestId "info" "Judging complete."].
Proof.
  unfold review, bind, status, logRequest, emit, generateStructured.
  rewrite judge_is_not_orchestrator.
  cbn [githubRequests hitlReviews repoAnalysis searchConfigs effects uuids].
  destruct (model env (reviewPrompt env userQuery results)) as [verdicts|m] eqn:Hmodel;
    [|discriminate].
  destruct (conforms reviewSchema verdicts) eqn:Hconf; [|discriminate].
  unfold ret. intros [= <- <-]. exists verdicts.
  cbn [repoAnalysis effects]. rewrite <- !app_assoc.
  repeat split; try reflexivity; assumption.
Qed.

(** What [review] does when the generation or its validation fails. *)
Lemma review_throws (env : Env) (requestId userQuery : string)
    (results : list RepoAnalysis) (st : Store) (message : string) :
  model env (reviewPrompt env userQuery results) = Throw message
  \/ (exists reply, model env (reviewPrompt env userQuery results) = Ok reply
                    /\ conforms reviewSchema reply = false
                    /\ message = "Structured output failed schema validation") ->
  review env requestId userQuery results st
  = (mkStore (githubRequests st) (hitlReviews st) (repoAnalysis st) (searchConfigs st)
       (effects st ++
          [EStatus JudgeAgent_name requestId "judging" None;
           ELog JudgeAgent_name requestId "info" "Judging results."])
       (uuids st), Throw message).
Proof.
  intros Hfail.
  unfold review, bind, status, logRequest, emit, generateStructured.
  rewrite judge_is_not_orchestrator.
  cbn [githubRequests hitlReviews repoAnalysis searchConfigs effects uuids].
  rewrite <- !app_assoc. cbn [app].
  destruct Hfail as [Hthrow|(reply & Hreply & Hconf & ->)].
  - now rewrite Hthrow.
  - now rewrite Hreply, Hconf.
Qed.

(** X1.  When [review] returns, what it returns is its input with some
    results left out and the others in the caller's order; a result is
    kept exactly when its id is among the ids the validated reply
    approves.  An approved id that names no input result adds nothing. *)
Theorem judge_returns_approved_in_order (env : Env) (requestId userQuery : string)
    (results final : list RepoAnalysis) (st st' : Store) :
  review env requestId userQuery results st = (st', Ok final) ->
  exists verdicts,
    model env (reviewPrompt env userQuery results) = Ok verdicts
    /\ conforms reviewSchema verdicts = true
    /\ Subseq final results
    /\ forall r, In r final <-> In r results /\ In (ra_id r) (approvedIds verdicts).
Proof.
  intros Hreview. apply review_returns in Hreview.
  destruct Hreview as (verdicts & Hmodel & Hconf & -> & _).
  exists verdicts. repeat split; try assumption.
  - apply filter_Subseq.
  - apply filter_In in H. tauto.
  - apply filter_In in H. destruct H as [_ H]. now apply has_In.
  - intros [Hin Hid]. apply filter_In. split; [assumption|]. now apply has_In.
Qed.

Lemma judge_returns_approved_in_order_acme :
  Subseq [scored "ra-1" 40; scored "ra-3" 40] (repoAnalysis analysedStore).
Proof.
  destruct (@judge_returns_approved_in_order
              (judgeEnv (Ok (reviewReply ["ra-3"; "ra-9"; "ra-1"]))) "req-1"
              "auth libraries for CF Workers" (repoAnalysis analysedStore)
              [scored "ra-1" 40; scored "ra-3" 40] analysedStore _ eq_refl)
    as (_ & _ & _ & Hsub & _).
  exact Hsub.
Defined.

Lemma orchestrator_is_orchestrator :
  String.eqb OrchestratorAgent_name OrchestratorAgent_name = true.
Proof. reflexivity. Qed.

Lemma top12_sorted (st : Store) (requestId : string) :
  StronglySorted notBelow (top12Results st requestId)
  /\ List.length (top12Results st requestId) <= 12.
Proof.
  unfold top12Results, slice0. split.
  - pose proof (sort_sorted (findAnalyses st requestId)) as Hs.
    rewrite <- (firstn_skipn 12 (sort compareRanking _)) in Hs.
    now apply StronglySorted_app_inv in Hs.
  - rewrite length_firstn. lia.
Qed.

Lemma top12_rows (st : Store) (requestId : string) (r : RepoAnalysis) :
  In r (top12Results st requestId) ->
  In r (repoAnalysis st) /\ ra_requestId r = requestId.
Proof.
  unfold top12Results, slice0. intros Hin.
  apply (@Subseq_In _ _ _ r (firstn_Subseq 12 _)) in Hin.
  apply (Permutation_in _ (Permutation_sym (sort_perm compareRanking _))) in Hin.
  now apply findAnalyses_spec.
Qed.

(** X2.  When [continue] gets through Synthesis and Handoff, the results
    it broadcasts are results of the request taken from the 12 selected
    ones, in their order: at most 12, by non-increasing score.  The
    analysis table is as it was, and the last things done are the status
    "completed", its broadcast and the closing log line. *)
Theorem handoff_results (env : Env) (analystSockets : list nat)
    (request : GithubRequest) (st st' : Store) (final : list RepoAnalysis) :
  continue_synthesis env analystSockets request st = (st', Ok final) ->
  Subseq final (top12Results st (req_id request))
  /\ List.length final <= 12
  /\ StronglySorted notBelow final
  /\ (forall r, In r final ->
        In r (repoAnalysis st) /\ ra_requestId r = req_id request)
  /\ repoAnalysis st' = repoAnalysis st
  /\ exists before,
       effects st'
       = before ++
         [EStatus OrchestratorAgent_name (req_id request) "completed" None;
          EBroadcast "status" (req_id request) "completed";
          ELog OrchestratorAgent_name (req_id request) "info" "Search complete."].
Proof.
  unfold continue_synthesis, bind, closeAll, get, status, broadcast, logRequest, emit, ret.
  rewrite orchestrator_is_orchestrator.
  cbn [githubRequests hitlReviews repoAnalysis searchConfigs effects uuids].
  match goal with
  | |- context [review env _ _ (top12Results ?s _) ?s'] =>
      change (top12Results s (req_id request))
        with (top12Results st (req_id request));
      destruct (review env (req_id request) (req_query request)
                  (top12Results st (req_id request)) s') as [st2 [kept|m]] eqn:Hreview
  end; [|discriminate].
  apply review_returns in Hreview.
  destruct Hreview as (verdicts & _ & _ & Hkept & Hrows & _).
  cbn [repoAnalysis] in Hrows.
  assert (Hsub : Subseq kept (top12Results st (req_id request)))
    by (rewrite Hkept; apply filter_Subseq).
  clear Hkept.
  destruct (top12_sorted st (req_id request)) as [Hsorted Hlen].
  assert (Hfinal : List.length kept <= 12 /\ StronglySorted notBelow kept
                   /\ forall r, In r kept ->
                        In r (repoAnalysis st) /\ ra_requestId r = req_id request).
  { split; [|split].
    - eapply Nat.le_trans; [apply Subseq_length; eassumption | assumption].
    - eapply Subseq_sorted; eassumption.
    - intros r Hr. eapply top12_rows, Subseq_In; eassumption. }
  destruct Hfinal as (Hfew & Hordered & Hfrom).
  match goal with
  | |- context [match filter ?f ?l with _ => _ end] => destruct (filter f l)
  end;
    cbn [githubRequests hitlReviews repoAnalysis searchConfigs effects uuids];
    intros [= <- <-]; cbn [repoAnalysis effects];
    (split; [exact Hsub|]; split; [exact Hfew|]; split; [exact Hordered|];
     split; [exact Hfrom|]; split; [exact Hrows|]).
  - exists (effects st2). now rewrite <- !app_assoc.
  - exists (effects st2 ++
            [ELog OrchestratorAgent_name (req_id request) "info" "Enrichment requested."]).
    now rewrite <- !app_assoc.
Qed.

Lemma handoff_results_acme :
  exists st' final,
    continue_synthesis (judgeEnv (Ok (reviewReply ["ra-3"; "ra-2"]))) [7]
      supervisedRequest analysedStore = (st', Ok final)
    /\ StronglySorted notBelow final
    /\ List.length final <= 12.
Proof.
  destruct (continue_synthesis (judgeEnv (Ok (reviewReply ["ra-3"; "ra-2"]))) [7]
              supervisedRequest analysedStore) as [st' [final|m]] eqn:E;
    [|vm_compute in E; discriminate].
  exists st', final.
  destruct (@handoff_results _ _ _ _ _ _ E) as (_ & Hfew & Hsorted & _).
  repeat split; assumption.
Defined.

Example handoff_keeps_the_order :
  option_map (map ra_id)
    (match snd (continue_synthesis (judgeEnv (Ok (reviewReply ["ra-3"; "ra-2"]))) [7]
                  supervisedRequest analysedStore) with
     | Ok final => Some final
     | Throw _ => None
     end)
  = Some ["ra-2"; "ra-3"].
Proof. reflexivity. Qed.

(** X3.  A failure of the judge is not caught by [continue]: when the
    model fails on the review prompt, or its reply does not pass the review
    schema, [continue] throws that failure from the Handoff phase.  By
    then the sockets are closed and the statuses "synthesis", "handoff" and
    the judge's "judging" have been reported; "completed" is not, the
    request is left in status "handoff", and the analysis table is
    untouched. *)
Theorem judge_failure_aborts_handoff (env : Env) (analystSockets : list nat)
    (request : GithubRequest) (st : Store) (message : string) :
  model env (reviewPrompt env (req_query request) (top12Results st (req_id request)))
    = Throw message
  \/ (exists reply,
        model env (reviewPrompt env (req_query request)
                     (top12Results st (req_id request))) = Ok reply
        /\ conforms reviewSchema reply = false
        /\ message = "Structured output failed schema validation") ->
  continue_synthesis env analystSockets request st
  = (mkStore
       (map (setRequestStatus (req_id request) "handoff")
          (map (setRequestStatus (req_id request) "synthesis") (githubRequests st)))
       (hitlReviews st) (repoAnalysis st) (searchConfigs st)
       (effects st ++ map EClose analystSockets ++
          [EStatus OrchestratorAgent_name (req_id request) "synthesis" None;
           EBroadcast "status" (req_id request) "synthesis";
           EStatus OrchestratorAgent_name (req_id request) "handoff" None;
           EBroadcast "status" (req_id request) "handoff";
           EStatus JudgeAgent_name (req_id request) "judging" None;
           ELog JudgeAgent_name (req_id request) "info" "Judging results."])
       (uuids st), Throw message).
Proof.
  intros Hfail.
  unfold continue_synthesis, bind, closeAll, get.
  unfold status at 1 2, broadcast at 1 2, emit.
  rewrite orchestrator_is_orchestrator.
  cbn [githubRequests hitlReviews repoAnalysis searchConfigs effects uuids].
  match goal with
  | |- context [review env _ _ (top12Results ?s _) ?s'] =>
      change (top12Results s (req_id request))
        with (top12Results st (req_id request))
  end.
  rewrite (@review_throws env (req_id request) (req_query request)
             (top12Results st (req_id request)) _ message Hfail).
  cbn [githubRequests hitlReviews repoAnalysis searchConfigs effects uuids].
  rewrite <- !app_assoc. reflexivity.
Qed.

Lemma judge_failure_aborts_handoff_acme :
  snd (continue_synthesis (judgeEnv (Throw "model unavailable")) [7]
         supervisedRequest analysedStore)
  = Throw "model unavailable".
Proof.
  rewrite (@judge_failure_aborts_handoff (judgeEnv (Throw "model unavailable")) [7]
             supervisedRequest analysedStore "model unavailable" (or_introl eq_refl)).
  reflexivity.
Defined.

(* --------------------------------------------------------------------- *)
(** ** Sampling, Expansion and Delegation *)

Lemma hitlReviewsToCreate_rows (env : Env) (requestId : string) (repos : list Repo) :
  forall st,
  exists rows,
    hitlReviewsToCreate env requestId repos st
    = (mkStore (githubRequests st) (hitlReviews st) (repoAnalysis st) (searchConfigs st)
         (effects st) (uuids st + List.length repos), Ok rows)
    /\ map repoSnapshotJson rows = map Some repos
    /\ map hitl_id rows = map (randomUUID env) (seq (uuids st) (List.length repos))
    /\ Forall (fun r => hitl_requestId r = requestId /\ hitl_status r = "pending"
                        /\ userVerdict r = None /\ rationale r = None) rows.
Proof.
  induction repos as [|repo repos IH]; intros st; simpl.
  - exists []. unfold ret. rewrite Nat.add_0_r. destruct st. repeat split. constructor.
  - unfold bind, newUUID.
    match goal with
    | |- context [hitlReviewsToCreate env requestId repos ?s] =>
        destruct (IH s) as (rows & Hrun & Hsnap & Hids & Hall)
    end.
    rewrite Hrun. unfold ret. cbn [githubRequests hitlReviews repoAnalysis searchConfigs effects uuids].
    eexists. split; [|split; [|split]].
    + rewrite <- Nat.add_succ_comm. reflexivity.
    + simpl. now rewrite Hsnap.
    + simpl. now rewrite Hids.
    + constructor; [repeat split | exact Hall].
Qed.

Lemma start_appends_rows (env : Env) (requestId query : string)
    (config : Json) (st : Store) (reply : Json) (found : list (list Repo)) :
  model env (searchQueriesPrompt query) = Ok reply ->
  conforms (ZArray ZString) reply = true ->
  all env (map (github_search_code env) (strings_of reply)) = Ok found ->
  exists rows,
    hitlReviews (fst (start env requestId query config st)) = hitlReviews st ++ rows
    /\ map repoSnapshotJson rows = map Some (firstn 5 (List.concat found))
    /\ List.length rows = Nat.min 5 (List.length (List.concat found))
    /\ map hitl_id rows = map (randomUUID env) (seq (uuids st) (List.length rows))
    /\ Forall (fun r => hitl_requestId r = requestId /\ hitl_status r = "pending"
                        /\ userVerdict r = None /\ rationale r = None) rows
    /\ repoAnalysis (fst (start env requestId query config st)) = repoAnalysis st.
Proof.
  intros Hmodel Hconf Hall.
  remember (start env requestId query config st) as result eqn:Hres.
  unfold start, bind, logRequest, broadcast, emit, status in Hres.
  cbn [githubRequests hitlReviews repoAnalysis searchConfigs effects uuids] in Hres.
  unfold generateSearchQueries, bind, generateStructured in Hres.
  rewrite Hmodel, Hconf in Hres. unfold ret at 1 in Hres.
  unfold searchAll, bind, await in Hres. rewrite Hall in Hres. unfold ret at 1 in Hres.
  match type of Hres with
  | context [hitlReviewsToCreate env requestId ?l ?s] =>
      destruct (hitlReviewsToCreate_rows env requestId l s)
        as (rows & Hrun & Hsnap & Hids & Hrows)
  end.
  rewrite Hrun in Hres. unfold insertHitlReviews in Hres.
  cbn [fst githubRequests hitlReviews repoAnalysis searchConfigs effects uuids] in *.
  assert (Hlen : List.length rows = List.length (slice0 5 (List.concat found)))
    by (rewrite <- (length_map repoSnapshotJson), Hsnap; apply length_map).
  assert (Htables : hitlReviews (fst result) = hitlReviews st ++ rows
                    /\ repoAnalysis (fst result) = repoAnalysis st).
  { subst result. destruct rows as [|row rows]; cbn [fst hitlReviews repoAnalysis].
    - now rewrite app_nil_r.
    - now split. }
  destruct Htables as [Hreviews Hanalyses].
  exists rows.
  repeat split; try assumption.
  - rewrite Hlen. unfold slice0. apply length_firstn.
  - now rewrite Hlen.
Qed.

(** X4.  Sampling that finds candidates: when the model's queries are
    valid and every search answers, [start] appends one review item per
    candidate of the first five of the merged results, in their order and
    nothing else: [min 5 n] items, each holding the candidate as its
    snapshot, belonging to the request, pending, with no verdict and no
    rationale, identified by the next UUIDs drawn.  No analysis row is
    written. *)
Theorem start_creates_preview_items (env : Env) (requestId query : string)
    (config : Json) (st : Store) (reply : Json) (found : list (list Repo)) :
  model env (searchQueriesPrompt query) = Ok reply ->
  conforms (ZArray ZString) reply = true ->
  all env (map (github_search_code env) (strings_of reply)) = Ok found ->
  exists rows,
    hitlReviews (fst (start env requestId query config st)) = hitlReviews st ++ rows
    /\ map repoSnapshotJson rows = map Some (firstn 5 (List.concat found))
    /\ List.length rows = Nat.min 5 (List.length (List.concat found))
    /\ map hitl_id rows = map (randomUUID env) (seq (uuids st) (List.length rows))
    /\ Forall (fun r => hitl_requestId r = requestId /\ hitl_status r = "pending"
                        /\ userVerdict r = None /\ rationale r = None) rows
    /\ repoAnalysis (fst (start env requestId query config st)) = repoAnalysis st.
Proof. apply start_appends_rows. Qed.

Lemma start_creates_preview_items_acme :
  exists rows,
    hitlReviews (fst (start (orchestratorEnv (firstn 4 repos23)) "req-1"
                        "auth libraries for CF Workers" (JObj []) submitted))
    = hitlReviews submitted ++ rows
    /\ List.length rows = 5.
Proof.
  destruct (@start_creates_preview_items (orchestratorEnv (firstn 4 repos23)) "req-1"
              "auth libraries for CF Workers" (JObj []) submitted
              (JArr [JStr "cloudflare workers auth"; JStr "workers jwt session"])
              [firstn 4 repos23; firstn 4 repos23] eq_refl eq_refl eq_refl)
    as (rows & Hrows & _ & Hlen & _).
  exists rows. split; [exact Hrows | exact Hlen].
Defined.

Lemma rejections_In (A : Type) (rs : list (Result A)) (message : string) :
  In message (rejections rs) <-> In (Throw message) rs.
Proof.
  unfold rejections. rewrite in_flat_map. split.
  - intros [[a|m] [Hr Hm]]; [destruct Hm|].
    destruct Hm as [->|[]]. exact Hr.
  - intros Hr. exists (Throw message). split; [exact Hr | now left].
Qed.

(** [Promise.all] rejects exactly when one of its promises does, and then
    with the rejection of one of them. *)
Lemma all_rejects (A : Type) (env : Env) (rs : list (Result A)) :
  (forall message, all env rs = Throw message -> In (Throw message) rs)
  /\ (forall message, In (Throw message) rs -> exists first, all env rs = Throw first).
Proof.
  unfold all. split.
  - intros message. destruct (rejections rs) as [|m others] eqn:Hrej; [discriminate|].
    intros [= <-]. apply rejections_In. rewrite Hrej.
    destruct (rejectsFirst env (m :: others)) as [|n]; [now left|].
    destruct (nth_in_or_default n others m) as [Hin|Hdefault];
      [now right | rewrite Hdefault; now left].
  - intros message Hin. apply rejections_In in Hin.
    destruct (rejections rs) as [|m others]; [destruct Hin | eauto].
Qed.

(** X5.  A failure in Sampling is not caught by [start]: when the model
    fails on the query prompt, [start] throws that failure; when its reply
    is not an array of strings, [start] throws the validation failure; and
    when searches fail, [start] throws the failure of one of them (the one
    that fails first).  It has then logged the start and reported and
    broadcast the status "sampling", and nothing more: no review item is
    created, "hitl" is not reported, and the request stays in status
    "sampling". *)
Theorem start_failure_creates_nothing (env : Env) (requestId query : string)
    (config : Json) (st : Store) :
  (forall message,
     model env (searchQueriesPrompt query) = Throw message ->
     start env requestId query config st = (samplingFailed requestId st, Throw message))
  /\ (forall reply,
        model env (searchQueriesPrompt query) = Ok reply ->
        conforms (ZArray ZString) reply = false ->
        start env requestId query config st
        = (samplingFailed requestId st, Throw "Structured output failed schema validation"))
  /\ (forall reply q failure,
        model env (searchQueriesPrompt query) = Ok reply ->
        conforms (ZArray ZString) reply = true ->
        In q (strings_of reply) -> github_search_code env q = Throw failure ->
        exists q' message,
          In q' (strings_of reply) /\ github_search_code env q' = Throw message
          /\ start env requestId query config st
             = (samplingFailed requestId st, Throw message)).
Proof.
  unfold samplingFailed.
  split; [|split].
  - intros message Hthrow.
    unfold start, bind, logRequest, broadcast, emit, status.
    cbn [githubRequests hitlReviews repoAnalysis searchConfigs effects uuids].
    unfold generateSearchQueries, bind, generateStructured.
    rewrite <- !app_assoc. cbn [app]. now rewrite Hthrow.
  - intros reply Hreply Hconf.
    unfold start, bind, logRequest, broadcast, emit, status.
    cbn [githubRequests hitlReviews repoAnalysis searchConfigs effects uuids].
    unfold generateSearchQueries, bind, generateStructured.
    rewrite <- !app_assoc. cbn [app]. now rewrite Hreply, Hconf.
  - intros reply q failure Hreply Hconf Hq Hfail.
    destruct (all_rejects env (map (github_search_code env) (strings_of reply)))
      as [Hone Hsome].
    destruct (Hsome failure) as [message Hall].
    { apply in_map_iff. exists q. now split. }
    pose proof (Hone message Hall) as Hin.
    apply in_map_iff in Hin. destruct Hin as [q' [Hsearch Hq']].
    exists q', message. split; [exact Hq'|]. split; [exact Hsearch|].
    unfold start, bind, logRequest, broadcast, emit, status.
    cbn [githubRequests hitlReviews repoAnalysis searchConfigs effects uuids].
    unfold generateSearchQueries, bind, generateStructured.
    rewrite <- !app_assoc. cbn [app]. rewrite Hreply, Hconf. unfold ret at 1.
    unfold searchAll, bind, await. now rewrite Hall.
Qed.

Lemma start_failure_creates_nothing_acme :
  exists q,
    In q ["cloudflare workers auth"; "workers jwt session"]
    /\ start searchesFail "req-1" "auth libraries for CF Workers" (JObj []) submitted
       = (samplingFailed "req-1" submitted, Throw ("GitHub search failed: " +++ q)).
Proof.
  destruct (@start_failure_creates_nothing searchesFail "req-1"
              "auth libraries for CF Workers" (JObj []) submitted) as (_ & _ & Hsearch).
  destruct (Hsearch (JArr [JStr "cloudflare workers auth"; JStr "workers jwt session"])
              "cloudflare workers auth" "GitHub search failed: cloudflare workers auth"
              eq_refl eq_refl (or_introl eq_refl) eq_refl)
    as (q & message & Hq & Hfail & Hstart).
  exists q. split; [exact Hq|].
  injection Hfail as <-. exact Hstart.
Defined.

(** Both searches fail there; the second is the first to reject, and it
    is its failure that [start] throws. *)
Example start_throws_the_first_rejection :
  snd (start searchesFail "req-1" "auth libraries for CF Workers" (JObj []) submitted)
  = Throw "GitHub search failed: workers jwt session"
  /\ option_map req_status
       (findRequest
          (fst (start searchesFail "req-1" "auth libraries for CF Workers" (JObj [])
                  submitted)) "req-1")
     = Some "sampling".
Proof. split; reflexivity. Qed.

Lemma find_all_false (A : Type) (f : A -> bool) (l : list A) :
  (forall x, In x l -> f x = false) -> find f l = None.
Proof.
  induction l as [|x l IH]; simpl; intros H; [reflexivity|].
  rewrite (H x (or_introl eq_refl)). apply IH. intros y Hy. apply H. now right.
Qed.

Lemma sliceTo_length (A : Type) (n : Z) (l : list A) :
  (0 <= n)%Z -> List.length (sliceTo n l) <= Z.to_nat n.
Proof.
  intros Hn. unfold sliceTo.
  destruct (Z.leb_spec 0 n) as [_|Hneg]; [|lia].
  apply firstn_le_length.
Qed.

(** X6.  When [continue] reaches Supervision, the request it works on is
    the stored one; the refinement prompt was built from the snapshots of
    exactly the review items of the request whose verdict is approval; and
    the candidates to analyse are the merged results of the refined
    searches cut at the default configuration's [reposToAnalyze]: no more
    than that many when it is not negative, and no more than 20 when no
    configuration is flagged default.  Neither the review items nor the
    analysis table are written. *)
Theorem delegation_fan_out (env : Env) (requestId : string) (st st' : Store)
    (request : GithubRequest) (repos : list Repo) :
  continue_delegation env requestId st = (st', Ok (request, repos)) ->
  findRequest st requestId = Some request
  /\ (exists reply found,
        model env (refinePrompt env (req_query request)
                     (map repoSnapshotJson (filter approved (findReviews st requestId))))
          = Ok reply
        /\ conforms (ZArray ZString) reply = true
        /\ all env (map (github_search_code env) (strings_of reply)) = Ok found
        /\ repos = sliceTo (reposToAnalyzeCount st) (List.concat found))
  /\ ((0 <= reposToAnalyzeCount st)%Z ->
        List.length repos <= Z.to_nat (reposToAnalyzeCount st))
  /\ ((forall c, In c (searchConfigs st) -> isDefault c = false) ->
        List.length repos <= 20)
  /\ hitlReviews st' = hitlReviews st
  /\ repoAnalysis st' = repoAnalysis st.
Proof.
  unfold continue_delegation, bind, get.
  destruct (findRequest st requestId) as [found_request|] eqn:Hfind; [|discriminate].
  unfold status, broadcast, emit.
  cbn [githubRequests hitlReviews repoAnalysis searchConfigs effects uuids].
  unfold refineSearchQueries, bind, generateStructured.
  destruct (model env _) as [reply|m] eqn:Hmodel; [|discriminate].
  destruct (conforms (ZArray ZString) reply) eqn:Hconf; [|discriminate].
  unfold ret at 1. unfold searchAll, bind, await.
  destruct (all _ _) as [found|m] eqn:Hall; [|discriminate].
  unfold ret.
  cbn [githubRequests hitlReviews repoAnalysis searchConfigs effects uuids].
  intros [= <- <- <-]. cbn [hitlReviews repoAnalysis].
  assert (Hcut : forall n, (0 <= n)%Z ->
            List.length (sliceTo n (List.concat found)) <= Z.to_nat n)
    by (intros n; apply sliceTo_length).
  repeat split.
  - exists reply, found. repeat split; assumption.
  - apply Hcut.
  - intros Hnone. unfold reposToAnalyzeCount.
    rewrite (find_all_false isDefault _ Hnone). now apply (Hcut 20%Z).
Qed.

Lemma delegation_fan_out_acme :
  exists st' request repos,
    continue_delegation (orchestratorEnv (firstn 15 repos23)) "req-1" bothReviewed
    = (st', Ok (request, repos))
    /\ List.length repos <= 20.
Proof.
  destruct (continue_delegation (orchestratorEnv (firstn 15 repos23)) "req-1" bothReviewed)
    as [st' [[request repos]|m]] eqn:E; [|vm_compute in E; discriminate].
  exists st', request, repos. split; [reflexivity|].
  destruct (@delegation_fan_out _ _ _ _ _ _ E) as (_ & _ & _ & Hdefault & _).
  apply Hdefault. intros c [].
Defined.

(** X7.  [continue] for an identifier that names no request throws
    "Request not found" before anything else: no status is reported or
    broadcast, no query is generated, and the store is exactly as it
    was. *)
Theorem continue_unknown_request (env : Env) (requestId : string) (st : Store) :
  (forall r, In r (githubRequests st) -> req_id r <> requestId) ->
  continue_delegation env requestId st = (st, Throw "Request not found").
Proof.
  intros Hnone. unfold continue_delegation, bind, get.
  assert (Hfind : findRequest st requestId = None).
  { unfold findRequest. apply find_all_false. intros r Hr.
    apply String.eqb_neq. now apply Hnone. }
  now rewrite Hfind.
Qed.

Lemma continue_unknown_request_acme :
  continue_delegation (orchestratorEnv []) "req-404" twoItems
  = (twoItems, Throw "Request not found").
Proof.
  apply continue_unknown_request.
  intros r [<-|[]]. discriminate.
Defined.

(* --------------------------------------------------------------------- *)
(** ** More on the review route *)

Lemma filter_nothing (A : Type) (f : A -> bool) (l : list A) :
  (forall x, In x l -> f x = false) -> filter f l = [].
Proof.
  induction l as [|x l IH]; simpl; intros H; [reflexivity|].
  rewrite (H x (or_introl eq_refl)). apply IH. intros y Hy. apply H. now right.
Qed.

Lemma filter_everything (A : Type) (f : A -> bool) (l : list A) :
  (forall x, In x l -> f x = true) -> filter f l = l.
Proof.
  induction l as [|x l IH]; simpl; intros H; [reflexivity|].
  rewrite (H x (or_introl eq_refl)). f_equal. apply IH. intros y Hy. apply H. now right.
Qed.

Lemma filter_map_commute (A : Type) (f : A -> bool) (g : A -> A) (l : list A) :
  (forall x, f (g x) = f x) -> filter f (map g l) = map g (filter f l).
Proof.
  intros Hfg. induction l as [|x l IH]; simpl; [reflexivity|].
  rewrite Hfg. destruct (f x); simpl; now rewrite IH.
Qed.

Lemma addressed_setVerdict (s s' : Submission) (r : HitlReview) :
  addressed s (setVerdict s' r) = addressed s r.
Proof. unfold addressed. now rewrite setVerdict_id. Qed.

(** X8.  A verdict posted for an identifier that names no review item
    changes nothing and calls nothing: the store is exactly as it was and
    [continue] is not invoked (the handler still answers "Review
    submitted"). *)
Theorem review_unknown_item_is_noop (s : Submission) (st : Store) :
  (forall r, In r (hitlReviews st) -> hitl_id r <> sub_reviewId s) ->
  reviewHitlRoute s st = (st, None).
Proof.
  intros Hnone. unfold reviewHitlRoute.
  assert (Hmiss : forall r, In r (hitlReviews st) -> addressed s r = false).
  { intros r Hr. apply String.eqb_neq. now apply Hnone. }
  assert (Hsame : reviewUpdate s st = st).
  { unfold reviewUpdate.
    rewrite (filter_nothing _ _ Hmiss), filter_everything.
    - simpl. rewrite app_nil_r. now destruct st.
    - intros r Hr. now rewrite (Hmiss r Hr). }
  rewrite Hsame. f_equal. unfold reviewCheck.
  rewrite find_all_false; [reflexivity|].
  intros r Hr. apply String.eqb_neq. now apply Hnone.
Qed.

Lemma review_unknown_item_is_noop_acme :
  reviewHitlRoute (approve "rev-9") twoItems = (twoItems, None).
Proof.
  apply review_unknown_item_is_noop.
  intros r [<-|[<-|[]]]; discriminate.
Defined.

(** X9.  The review route writes the review table only, and of an item
    only its verdict, rationale and status: the table holds the same
    items as before, with their identifiers, requests and snapshots (the
    order in which it returns them is the database's); an item with
    another identifier is untouched; the addressed item carries the posted
    verdict, the posted rationale (the empty text when none was posted)
    and status "reviewed"; and an item that was reviewed stays
    reviewed. *)
Theorem review_keeps_items (s : Submission) (st : Store) :
  Permutation
    (map (fun r => (hitl_id r, hitl_requestId r, repoSnapshotJson r))
       (hitlReviews (fst (reviewHitlRoute s st))))
    (map (fun r => (hitl_id r, hitl_requestId r, repoSnapshotJson r)) (hitlReviews st))
  /\ githubRequests (fst (reviewHitlRoute s st)) = githubRequests st
  /\ repoAnalysis (fst (reviewHitlRoute s st)) = repoAnalysis st
  /\ (forall r, In r (hitlReviews st) -> hitl_id r <> sub_reviewId s ->
        In r (hitlReviews (fst (reviewHitlRoute s st))))
  /\ (forall r, In r (hitlReviews (fst (reviewHitlRoute s st))) ->
        hitl_id r = sub_reviewId s ->
        userVerdict r = Some (sub_userVerdict s)
        /\ rationale r = Some (match sub_rationale s with
                               | Some t => t
                               | None => EmptyString
                               end)
        /\ hitl_status r = "reviewed")
  /\ (forall requestId, complete st requestId ->
        complete (fst (reviewHitlRoute s st)) requestId).
Proof.
  unfold reviewHitlRoute. cbn [fst].
  split; [|split; [reflexivity|split; [reflexivity|split; [|split]]]].
  - rewrite (Permutation_map _ (reviewUpdate_rows s st)), map_map.
    erewrite map_ext; [reflexivity|].
    intros r. cbv beta.
    now rewrite setVerdict_id, setVerdict_request, setVerdict_snapshot.
  - intros r Hr Hne. apply reviewUpdate_In. exists r. split; [|assumption].
    now apply setVerdict_other.
  - intros r Hr Hid. apply reviewUpdate_In in Hr. destruct Hr as [r0 [<- _]].
    rewrite setVerdict_id in Hid. unfold setVerdict.
    apply String.eqb_eq in Hid. rewrite Hid. repeat split.
  - intros requestId. apply reviewUpdate_complete.
Qed.

(** X10.  Nothing keeps an item from being reviewed again: of two
    verdicts posted for the same item the later one replaces the earlier
    one entirely, as if the earlier one had not been posted. *)
Theorem later_verdict_replaces (s1 s2 : Submission) (st : Store) :
  sub_reviewId s1 = sub_reviewId s2 ->
  fst (reviewHitlRoute s2 (fst (reviewHitlRoute s1 st))) = fst (reviewHitlRoute s2 st).
Proof.
  intros Hsame. unfold reviewHitlRoute, reviewUpdate.
  cbn [fst hitlReviews githubRequests repoAnalysis searchConfigs effects uuids].
  f_equal.
  assert (Hhit : forall r, addressed s1 r = addressed s2 r)
    by (intros r; unfold addressed; now rewrite Hsame).
  rewrite (filter_ext _ _ Hhit (hitlReviews st)).
  rewrite (filter_ext (fun r => negb (addressed s1 r)) (fun r => negb (addressed s2 r))
             (fun r => f_equal negb (Hhit r)) (hitlReviews st)).
  rewrite !filter_app.
  rewrite !filter_map_commute
    by (intros r; now rewrite ?addressed_setVerdict).
  rewrite (filter_everything (fun r => negb (addressed s2 r)))
    by (intros r Hr; now apply filter_In in Hr).
  rewrite (filter_nothing (fun r => negb (addressed s2 r))
             (filter (addressed s2) (hitlReviews st)))
    by (intros r Hr; apply filter_In in Hr; destruct Hr as [_ Hr]; now rewrite Hr).
  rewrite (filter_nothing (addressed s2)
             (filter (fun r => negb (addressed s2 r)) (hitlReviews st)))
    by (intros r Hr; apply filter_In in Hr; destruct Hr as [_ Hr];
        now apply negb_true_iff in Hr).
  rewrite (filter_everything (addressed s2) (filter (addressed s2) (hitlReviews st)))
    by (intros r Hr; now apply filter_In in Hr).
  cbn [map app]. rewrite app_nil_r. f_equal.
  rewrite map_map. apply map_ext. intros r.
  unfold setVerdict at 2. rewrite Hsame.
  destruct (String.eqb (hitl_id r) (sub_reviewId s2)) eqn:Hid.
  - unfold setVerdict. cbn [hitl_id hitl_requestId repoSnapshotJson]. now rewrite Hid.
  - reflexivity.
Qed.

Lemma later_verdict_replaces_acme :
  map userVerdict
    (hitlReviews
       (fst (reviewHitlRoute (mkSubmission "rev-1" false (Some "abandoned"))
               (fst (reviewHitlRoute (approve "rev-1") twoItems)))))
  = [None; Some false].
Proof.
  rewrite (@later_verdict_replaces (approve "rev-1")
             (mkSubmission "rev-1" false (Some "abandoned")) twoItems eq_refl).
  reflexivity.
Defined.

(** X11.  [GET /hitl/{requestId}] lists every item of the request,
    reviewed or not: posting a verdict does not change which items it
    returns, only, possibly, their order. *)
Theorem getHitl_lists_reviewed_items (s : Submission) (st : Store) (requestId : string) :
  Permutation (getHitlRoute (fst (reviewHitlRoute s st)) requestId)
    (getHitlRoute st requestId).
Proof.
  unfold getHitlRoute, findReviews, reviewHitlRoute. cbn [fst].
  rewrite (Permutation_map _ (filter_perm _ (reviewUpdate_rows s st))).
  assert (Hsame :
    map (fun r => (hitl_id r, repoSnapshotJson r))
      (filter (fun r => String.eqb (hitl_requestId r) requestId)
         (map (setVerdict s) (hitlReviews st)))
    = map (fun r => (hitl_id r, repoSnapshotJson r))
        (filter (fun r => String.eqb (hitl_requestId r) requestId) (hitlReviews st))).
  { induction (hitlReviews st) as [|r rows IH]; simpl; [reflexivity|].
    rewrite setVerdict_request.
    destruct (String.eqb (hitl_requestId r) requestId); simpl.
    - now rewrite setVerdict_id, setVerdict_snapshot, IH.
    - exact IH. }
  now rewrite Hsame.
Qed.

(** After the first of two items is reviewed, it is listed second. *)
Example getHitl_after_a_review :
  map fst (getHitlRoute (fst (reviewHitlRoute (approve "rev-1") twoItems)) "req-1")
  = ["rev-2"; "rev-1"].
Proof. reflexivity. Qed.

Lemma find_by_id (rows : list HitlReview) (r : HitlReview) :
  NoDup (map hitl_id rows) -> In r rows ->
  find (fun x => String.eqb (hitl_id x) (hitl_id r)) rows = Some r.
Proof.
  induction rows as [|x rows IH]; simpl; intros Hnd Hin; [destruct Hin|].
  inversion Hnd as [|? ? Hfresh Hnd']; subst.
  destruct Hin as [->|Hin].
  - now rewrite String.eqb_refl.
  - destruct (String.eqb_spec (hitl_id x) (hitl_id r)) as [Heq|Hne].
    + exfalso. apply Hfresh. rewrite Heq. now apply in_map.
    + now apply IH.
Qed.

Lemma submitAll_store (s : Submission) (subs : list Submission) (st : Store) :
  fst (submitAll st (s :: subs)) = fst (submitAll (reviewUpdate s st) subs)
  /\ snd (submitAll st (s :: subs))
     = opt_list (reviewCheck s (reviewUpdate s st))
       ++ snd (submitAll (reviewUpdate s st) subs).
Proof.
  simpl. now destruct (submitAll (reviewUpdate s st) subs).
Qed.

(** When an incomplete request ends up complete, [continue] was called. *)
Lemma called_when_completed (requestId : string) (subs : list Submission) :
  forall st,
    NoDup (map hitl_id (hitlReviews st)) ->
    ~ complete st requestId ->
    complete (fst (submitAll st subs)) requestId ->
    In requestId (snd (submitAll st subs)).
Proof.
  induction subs as [|s subs IH]; intros st Hnd Hnot Hdone.
  - contradiction.
  - destruct (submitAll_store s subs st) as [Hfst Hsnd].
    rewrite Hfst in Hdone. rewrite Hsnd. apply in_or_app.
    assert (Hnd1 : NoDup (map hitl_id (hitlReviews (reviewUpdate s st)))).
    { eapply Permutation_NoDup;
        [symmetry; apply Permutation_map, reviewUpdate_rows|].
      rewrite map_map. now rewrite (map_ext _ hitl_id (setVerdict_id s)). }
    destruct (allReviewed (reviewUpdate s st) requestId) eqn:Hall.
    + left. apply allReviewed_complete in Hall.
      destruct (existsb (fun r => String.eqb (hitl_requestId r) requestId
                                  && String.eqb (hitl_id r) (sub_reviewId s))
                  (hitlReviews st)) eqn:Hhit.
      * apply existsb_exists in Hhit. destruct Hhit as [r [Hr Hboth]].
        apply andb_true_iff in Hboth. destruct Hboth as [Hreq Hid].
        apply String.eqb_eq in Hreq. apply String.eqb_eq in Hid.
        assert (Hin1 : In (setVerdict s r) (hitlReviews (reviewUpdate s st)))
          by (apply reviewUpdate_In; exists r; now split).
        pose proof (@find_by_id _ _ Hnd1 Hin1) as Hfind.
        rewrite setVerdict_id, Hid in Hfind.
        unfold reviewCheck. rewrite Hfind, setVerdict_request, Hreq.
        apply allReviewed_complete in Hall. rewrite Hall. now left.
      * exfalso. apply Hnot. intros r Hr Hreq.
        assert (Hne : hitl_id r <> sub_reviewId s).
        { intros Hid. apply not_true_iff_false in Hhit. apply Hhit.
          apply existsb_exists. exists r. split; [assumption|].
          apply andb_true_iff. split; now apply String.eqb_eq. }
        specialize (Hall (setVerdict s r)).
        rewrite (@setVerdict_other s r Hne) in Hall.
        apply Hall; [|assumption].
        apply reviewUpdate_In. exists r. split; [now apply setVerdict_other | assumption].
    + right. apply IH; [assumption| |assumption].
      intros Hc. apply allReviewed_complete in Hc. congruence.
Qed.

Lemma calls_of_In (requestId : string) (calls : list string) :
  In requestId calls -> 1 <= calls_of requestId calls.
Proof.
  unfold calls_of. induction calls as [|c calls IH]; simpl; [intros []|].
  intros [->|Hin].
  - rewrite String.eqb_refl. simpl. lia.
  - destruct (String.eqb requestId c); simpl; [lia | now apply IH].
Qed.

(** X12.  Review identifiers being unique, take a request with at least
    one item and no item of the store reviewed yet, and post every verdict
    at most once, the submissions handled one after the other.  If the
    request has all its items reviewed in the end, the route has called
    [continue] for it exactly once. *)
Theorem review_completion_calls_continue (st : Store) (subs : list Submission)
    (requestId : string) (item : HitlReview) :
  NoDup (map hitl_id (hitlReviews st)) ->
  (forall r, In r (hitlReviews st) -> reviewed r = false) ->
  In item (hitlReviews st) -> hitl_requestId item = requestId ->
  NoDup (map sub_reviewId subs) ->
  complete (fst (submitAll st subs)) requestId ->
  calls_of requestId (snd (submitAll st subs)) = 1.
Proof.
  intros Hkeys Hpending Hitem Hreq Hnd Hdone.
  assert (Hnot : ~ complete st requestId).
  { intros Hc. specialize (Hc item Hitem Hreq).
    rewrite (Hpending item Hitem) in Hc. discriminate. }
  pose proof (@calls_of_In _ _ (@called_when_completed requestId subs st Hkeys Hnot Hdone))
    as Hleast.
  assert (Hwithin : reviewedWithin requestId [] st).
  { intros r Hin _ Hrev. rewrite (Hpending r Hin) in Hrev. discriminate. }
  destruct (@calls_at_most_once requestId subs st [] Hwithin (fun s _ H => H) Hnd)
    as [Hmost _].
  lia.
Qed.

Lemma review_completion_calls_continue_acme :
  calls_of "req-1" (snd (submitAll twoItems [approve "rev-2"; approve "rev-1"])) = 1.
Proof.
  apply (@review_completion_calls_continue twoItems [approve "rev-2"; approve "rev-1"]
           "req-1" (mkHitl "rev-1" "req-1" (Some (candidate 0)) None None "pending")).
  - repeat constructor; simpl; intuition discriminate.
  - intros r [<-|[<-|[]]]; reflexivity.
  - now left.
  - reflexivity.
  - repeat constructor; simpl; intuition discriminate.
  - intros r [<-|[<-|[]]] _; reflexivity.
Defined.

(* --------------------------------------------------------------------- *)
(** ** More on the analyst *)

Lemma split_segment (s : string) : noSlash s = true -> split slash s = [s].
Proof.
  induction s as [|c s IH]; simpl; [reflexivity|].
  intros H. apply andb_true_iff in H. destruct H as [Hc Hs].
  apply negb_true_iff in Hc. rewrite Hc, (IH Hs). reflexivity.
Qed.

Lemma split_first_segment (s rest : string) :
  noSlash s = true ->
  split slash (s +++ String slash rest) = s :: split slash rest.
Proof.
  induction s as [|c s IH]; simpl; intros H.
  - reflexivity.
  - apply andb_true_iff in H. destruct H as [Hc Hs].
    apply negb_true_iff in Hc. rewrite Hc, (IH Hs). reflexivity.
Qed.

Lemma split_concat (segments : list string) :
  Forall (fun s => noSlash s = true) segments ->
  segments <> [] ->
  split slash (String.concat (String slash EmptyString) segments) = segments.
Proof.
  induction 1 as [|s segments Hs Hrest IH]; intros Hne; [contradiction|].
  destruct segments as [|s' segments].
  - simpl. now apply split_segment.
  - change (String.concat (String slash EmptyString) (s :: s' :: segments))
      with (s +++ String slash (String.concat (String slash EmptyString) (s' :: segments))).
    rewrite split_first_segment by assumption.
    f_equal. apply IH. discriminate.
Qed.

(** X13.  The path parts [run] works with: for a path made of segments
    joined by "/", [pathname.split("/").filter(Boolean)] gives back the
    segments that are not empty, in order.  So a leading, trailing or
    doubled "/" is ignored, and the owner and the repository are the first
    two non-empty segments. *)
Theorem pathParts_of_joined_segments (segments : list string) :
  Forall (fun s => noSlash s = true) segments ->
  filter truthy_string (split slash (String.concat (String slash EmptyString) segments))
  = filter truthy_string segments.
Proof.
  intros Hall. destruct segments as [|s segments]; [reflexivity|].
  rewrite split_concat; [reflexivity | assumption | discriminate].
Qed.

Lemma pathParts_of_joined_segments_acme :
  filter truthy_string (split slash "/acme//auth/tree/main/")
  = ["acme"; "auth"; "tree"; "main"].
Proof.
  apply (@pathParts_of_joined_segments
           [EmptyString; "acme"; EmptyString; "auth"; "tree"; "main"; EmptyString]).
  repeat constructor.
Defined.

(** X14.  A repository URL that cannot be analysed: when the URL parser
    rejects the string, or the path has fewer than two non-empty segments,
    [run] calls neither the code host nor the model.  It reports status
    "error" with the parser's message, respectively with "Invalid
    repository URL", logs the failure and returns; no table is written and
    no UUID is drawn. *)
Theorem run_rejects_bad_url (env : Env) (self : AnalystState)
    (requestId url userQuery : string) (st : Store) (message : string) :
  findExistingAnalysis st requestId url = None ->
  url_pathname env url = Throw message
  \/ (exists pathname,
        url_pathname env url = Ok pathname
        /\ List.length (filter truthy_string (split slash pathname)) < 2
        /\ message = "Invalid repository URL") ->
  run env self requestId url userQuery st
  = (mkStore (githubRequests st) (hitlReviews st) (repoAnalysis st) (searchConfigs st)
       (effects st ++
          [EStatus GithubAnalystAgent_name requestId "analyzing" None;
           ELog GithubAnalystAgent_name requestId "info" ("Analyzing repository: " +++ url);
           EStatus GithubAnalystAgent_name requestId "error" (Some message);
           ELog GithubAnalystAgent_name requestId "error" "Analysis failed"])
       (uuids st), Ok tt).
Proof.
  intros Hnone Hbad.
  unfold run, bind. rewrite run_enter_spec. unfold try_catch.
  assert (Htry : forall st1,
            findExistingAnalysis st1 requestId url = None ->
            run_try env self requestId url userQuery st1 = (st1, Throw message)).
  { intros st1 Hnone1. unfold run_try, bind, get. rewrite Hnone1. unfold await.
    destruct Hbad as [Hthrow|(pathname & Hpath & Hshort & ->)].
    - now rewrite Hthrow.
    - rewrite Hpath.
      destruct (filter truthy_string (split slash pathname)) as [|owner [|repo rest]];
        try reflexivity.
      simpl in Hshort. lia. }
  rewrite Htry by exact Hnone.
  rewrite run_catch_spec.
  cbn [githubRequests hitlReviews repoAnalysis searchConfigs effects uuids].
  now rewrite <- app_assoc.
Qed.

Lemma run_rejects_bad_url_acme :
  repoAnalysis (fst (run (pathEnv "/acme") idle "req-1" "https://github.com/acme"
                       "auth libraries for CF Workers" supervising)) = []
  /\ snd (run (pathEnv "/acme") idle "req-1" "https://github.com/acme"
            "auth libraries for CF Workers" supervising) = Ok tt.
Proof.
  rewrite (@run_rejects_bad_url (pathEnv "/acme") idle "req-1" "https://github.com/acme"
             "auth libraries for CF Workers" supervising "Invalid repository URL" eq_refl).
  - split; reflexivity.
  - right. exists "/acme". repeat split. simpl. lia.
Defined.

(** X15.  A pair that has its result: [run] reports "analyzing", logs
    that it starts and that it skips, and returns.  It calls neither the
    URL parser, the code host nor the model (the outcome is the same in
    every environment), draws no UUID, writes no table, and reports neither
    "complete" nor "error": the last status it has reported is
    "analyzing". *)
Theorem run_skips_analysed_pair (env : Env) (self : AnalystState)
    (requestId url userQuery : string) (st : Store) (existing : RepoAnalysis) :
  findExistingAnalysis st requestId url = Some existing ->
  run env self requestId url userQuery st
  = (mkStore (githubRequests st) (hitlReviews st) (repoAnalysis st) (searchConfigs st)
       (effects st ++
          [EStatus GithubAnalystAgent_name requestId "analyzing" None;
           ELog GithubAnalystAgent_name requestId "info" ("Analyzing repository: " +++ url);
           ELog GithubAnalystAgent_name requestId "info"
             ("Skipping analysis for " +++ url +++ ", already analyzed.")])
       (uuids st), Ok tt).
Proof.
  intros Hfound.
  unfold run, bind. rewrite run_enter_spec. unfold try_catch.
  unfold run_try, bind, get.
  change (findExistingAnalysis _ requestId url)
    with (findExistingAnalysis st requestId url).
  rewrite Hfound. unfold logRequest, emit.
  cbn [githubRequests hitlReviews repoAnalysis searchConfigs effects uuids].
  now rewrite <- app_assoc.
Qed.

Lemma run_skips_analysed_pair_acme :
  run hostDown idle "req-1" authUrl "auth libraries for CF Workers" alreadyAnalysed
  = run generous (mkAnalystState (Some (JStr "Be generous."))) "req-1" authUrl "auth libraries for CF Workers"
      alreadyAnalysed.
Proof.
  rewrite (@run_skips_analysed_pair hostDown idle "req-1" authUrl "auth libraries for CF Workers"
             alreadyAnalysed _ eq_refl).
  rewrite (@run_skips_analysed_pair generous (mkAnalystState (Some (JStr "Be generous.")))
             "req-1" authUrl "auth libraries for CF Workers" alreadyAnalysed _ eq_refl).
  reflexivity.
Defined.

Lemma samePair_true (requestId url : string) (r : RepoAnalysis) :
  samePair requestId url r = true <-> ra_requestId r = requestId /\ repoUrl r = url.
Proof. unfold samePair. now rewrite andb_true_iff, !String.eqb_eq. Qed.

(** X16.  [run] writes for its own pair only: the rows of every other
    (request, candidate) pair are what they were, so are the results listed
    for every other request, and so are the review items. *)
Theorem run_writes_own_pair_only (env : Env) (self : AnalystState)
    (requestId url userQuery : string) (st : Store) (otherRequest otherUrl : string) :
  otherRequest <> requestId \/ otherUrl <> url ->
  pairRows (fst (run env self requestId url userQuery st)) otherRequest otherUrl
    = pairRows st otherRequest otherUrl
  /\ (otherRequest <> requestId ->
        getResultsRoute (fst (run env self requestId url userQuery st)) otherRequest
        = getResultsRoute st otherRequest)
  /\ hitlReviews (fst (run env self requestId url userQuery st)) = hitlReviews st.
Proof.
  intros Hother.
  split; [|split; [|apply run_reviews]].
  - destruct (run_cases env self requestId url userQuery st)
      as [[_ Hsame]|[[_ Hsame]|[_ (row & Hrow & Hadd)]]];
      unfold pairRows; rewrite ?Hsame; try reflexivity.
    rewrite Hadd, filter_app. simpl.
    apply analysed_pair in Hrow. destruct Hrow as [Hpair _].
    apply samePair_true in Hpair. destruct Hpair as [Hreq Hurl].
    destruct (samePair otherRequest otherUrl row) eqn:Hhit; [|apply app_nil_r].
    apply samePair_true in Hhit. destruct Hhit as [Hreq' Hurl'].
    exfalso. destruct Hother as [Hne|Hne]; apply Hne; congruence.
  - intros Hne. unfold getResultsRoute, findAnalyses.
    destruct (run_cases env self requestId url userQuery st)
      as [[_ Hsame]|[[_ Hsame]|[_ (row & Hrow & Hadd)]]];
      rewrite ?Hsame; try reflexivity.
    rewrite Hadd, filter_app. simpl.
    apply analysed_pair in Hrow. destruct Hrow as [Hpair _].
    apply samePair_true in Hpair. destruct Hpair as [Hreq _].
    destruct (String.eqb_spec (ra_requestId row) otherRequest) as [Heq|_];
      [|apply app_nil_r].
    exfalso. apply Hne. congruence.
Qed.

Lemma run_writes_own_pair_only_acme :
  getResultsRoute
    (fst (run noManifest idle "req-2" authUrl "rate limiting" alreadyAnalysed)) "req-1"
  = getResultsRoute alreadyAnalysed "req-1".
Proof.
  destruct (@run_writes_own_pair_only noManifest idle "req-2" authUrl "rate limiting"
              alreadyAnalysed "req-1" authUrl) as (_ & Hresults & _).
  - left. discriminate.
  - apply Hresults. discriminate.
Defined.

(** X17.  The monitor and the analyst agree on the correction message:
    whatever a tick sends, it sends to sockets of [analystSockets], and
    each payload is a message that the analyst's [webSocketMessage]
    acknowledges and stores, replacing whatever correction it held, so
    that the worker's next prompt carries the line "Correction from
    orchestrator: ..." with the monitor's text. *)
Theorem monitor_correction_is_accepted (analystSockets : list nat) (requestId : string)
    (st : Store) :
  exists sent,
    effects (fst (monitorTick analystSockets requestId st)) = effects st ++ sent
    /\ forall e, In e sent ->
         exists ws payload,
           e = ESend ws payload /\ In ws analystSockets
           /\ forall self,
                snd (analystWebSocketMessage self payload) = [JObj [("type", JStr "ack")]]
                /\ correctionLine (fst (analystWebSocketMessage self payload))
                   = "Correction from orchestrator: The AI ranking seems low. Please be more generous with your rankings.".
Proof.
  unfold monitorTick, bind, get.
  destruct (existsb _ _).
  - exists (map (fun ws => ESend ws correctionMessage) analystSockets).
    split; [reflexivity|].
    intros e He. apply in_map_iff in He. destruct He as [ws [<- Hws]].
    exists ws, correctionMessage. repeat split; assumption.
  - exists []. split; [simpl; now rewrite app_nil_r | intros e []].
Qed.

(* --------------------------------------------------------------------- *)
(** ** The pool when promises reject *)

(** X18.  Whatever the promises do, rejections included: [running] never
    holds more than 5 promises, the runs started are a prefix of the
    candidates in submission order, each started once (the n-th promise
    belongs to the n-th candidate), and never more runs than candidates. *)
Theorem pool_shape_always (repos : list Repo) (history : list (nat * Settlement))
    (pool : Pool) :
  settleAll (supervise repos) history = Some pool ->
  List.length (running pool) <= 5
  /\ map snd (started pool) ++ queue pool = repos
  /\ map fst (started pool) = seq 0 (List.length (started pool))
  /\ List.length (started pool) <= List.length repos.
Proof.
  intros Hrun.
  destruct (settleAll_shape _ (supervise_shape repos) Hrun) as [Hb Ho Hi].
  repeat split; try assumption.
  rewrite <- Ho, length_app, length_map. lia.
Qed.

Lemma pool_shape_always_rejected :
  exists pool,
    settleAll (supervise repos23) [(3, Rejected); (0, Fulfilled); (1, Rejected)] = Some pool
    /\ List.length (running pool) <= 5.
Proof.
  destruct (settleAll (supervise repos23) [(3, Rejected); (0, Fulfilled); (1, Rejected)])
    as [pool|] eqn:E; [|vm_compute in E; discriminate].
  exists pool. split; [reflexivity|].
  destruct (@pool_shape_always repos23 _ pool E) as [Hb _]. exact Hb.
Defined.

Lemma splice_other (p q : nat) (r : list nat) :
  q <> p -> In q r -> In q (splice p r).
Proof.
  induction r as [|x r IH]; simpl; intros Hne Hin; [destruct Hin|].
  destruct (Nat.eqb_spec x p) as [->|Hx].
  - destruct Hin as [->|Hin]; [contradiction | assumption].
  - destruct Hin as [->|Hin]; [now left | right; now apply IH].
Qed.

Lemma supervise_live (repos : list Repo) : PoolLive (supervise repos).
Proof.
  unfold supervise.
  destruct (processQueue repos [] []) as [[q r] s] eqn:E.
  apply processQueue_starts in E.
  destruct E as [fresh (Hr & Hs & _)]. simpl in *. subst r s.
  constructor; simpl.
  - intros p Hp. now left.
  - destruct (map fst fresh); [reflexivity | discriminate].
Qed.

Lemma pending_running (pool : Pool) (p : nat) :
  PoolLive pool -> pending pool p = true -> In p (running pool).
Proof.
  intros [Hlive _] Hp. apply pending_spec in Hp. destruct Hp as [Hstarted Hfresh].
  destruct (Hlive p Hstarted) as [Hin|Hdone]; [assumption|].
  exfalso. apply Hfresh.
  apply (in_map fst) in Hdone. exact Hdone.
Qed.

Lemma settle_live (pool pool' : Pool) (p : nat) (how : Settlement) :
  PoolLive pool -> settle pool p how = Some pool' -> PoolLive pool'.
Proof.
  intros Hlive. pose proof Hlive as [Hrun Hdrained]. unfold settle.
  destruct (pending pool p) eqn:Hp; [|discriminate].
  pose proof (pending_running p Hlive Hp) as Hin.
  assert (Hwait : waiter pool <> Drained).
  { intros Hd. rewrite (Hdrained Hd) in Hin. destruct Hin. }
  destruct how.
  - destruct (processQueue _ _ _) as [[q r] s] eqn:E.
    intros [= <-].
    apply processQueue_starts in E.
    destruct E as [fresh (Hr & Hs & _)]. subst r s.
    constructor; simpl.
    + intros x Hx. rewrite map_app in Hx. apply in_app_or in Hx.
      destruct Hx as [Hold|Hnew].
      * destruct (Nat.eq_dec x p) as [->|Hne].
        -- right. apply in_or_app. right. now left.
        -- destruct (Hrun x Hold) as [Hx|Hx].
           ++ left. apply in_or_app. left. now apply splice_other.
           ++ right. apply in_or_app. now left.
      * left. apply in_or_app. now right.
    + unfold recheck. destruct (waiter pool); try discriminate; try contradiction.
      destruct (splice p (running pool) ++ map fst fresh); [reflexivity | discriminate].
  - intros [= <-]. constructor; simpl.
    + intros x Hx. destruct (Hrun x Hx) as [Hx'|Hx'].
      * now left.
      * right. apply in_or_app. now left.
    + destruct (waiter pool); try discriminate. contradiction.
Qed.

Lemma settleAll_live (history : list (nat * Settlement)) :
  forall pool pool',
    PoolLive pool -> settleAll pool history = Some pool' -> PoolLive pool'.
Proof.
  induction history as [|[p how] history IH]; simpl; intros pool pool' Hlive.
  - now intros [= <-].
  - destruct (settle pool p how) as [pool1|] eqn:E; [|discriminate].
    apply IH. eapply settle_live; eassumption.
Qed.

(** After a rejection the promise stays where it is and the loop stays
    left. *)
Lemma rejected_stays (p : nat) (history : list (nat * Settlement)) :
  forall pool pool',
    In p (running pool) -> In p (map fst (settled pool)) -> waiter pool = Aborted ->
    settleAll pool history = Some pool' ->
    In p (running pool') /\ waiter pool' = Aborted.
Proof.
  induction history as [|[q how] history IH]; simpl; intros pool pool' Hin Hset Hw.
  - intros [= <-]. now split.
  - destruct (settle pool q how) as [pool1|] eqn:E; [|discriminate].
    apply IH; unfold settle in E;
      destruct (pending pool q) eqn:Hq; try discriminate;
      apply pending_spec in Hq; destruct Hq as [_ Hfresh];
      assert (Hne : p <> q) by (intros ->; contradiction);
      destruct how.
    + destruct (processQueue _ _ _) as [[q' r] s] eqn:Eq. injection E as <-.
      apply processQueue_starts in Eq. destruct Eq as [fresh (Hr & _)]. subst r.
      simpl. apply in_or_app. left. now apply splice_other.
    + injection E as <-. exact Hin.
    + destruct (processQueue _ _ _) as [[q' r] s]. injection E as <-.
      simpl. rewrite map_app. apply in_or_app. now left.
    + injection E as <-. simpl. rewrite map_app. apply in_or_app. now left.
    + destruct (processQueue _ _ _) as [[q' r] s]. injection E as <-.
      simpl. now rewrite Hw.
    + injection E as <-. simpl. now rewrite Hw.
Qed.

(** X19.  One rejection ends Supervision for good.  When the promise of a
    [run] call rejects, at any point of any history, then whatever settles
    afterwards the promise is still in [running] (the slot is never freed)
    and the loop of [continue] has been left by the exception: it is never
    drained, so Synthesis is not reached. *)
Theorem rejection_ends_supervision (repos : list Repo)
    (before after : list (nat * Settlement)) (p : nat) (pool1 pool2 pool3 : Pool) :
  settleAll (supervise repos) before = Some pool1 ->
  settle pool1 p Rejected = Some pool2 ->
  settleAll pool2 after = Some pool3 ->
  In p (running pool3) /\ waiter pool3 = Aborted /\ waiter pool3 <> Drained.
Proof.
  intros Hbefore Hreject Hafter.
  pose proof (settleAll_live _ (supervise_live repos) Hbefore) as Hlive.
  unfold settle in Hreject.
  destruct (pending pool1 p) eqn:Hp; [|discriminate].
  pose proof (pending_running p Hlive Hp) as Hin.
  assert (Hwait : waiter pool1 <> Drained).
  { intros Hd. rewrite (live_drained Hlive Hd) in Hin. destruct Hin. }
  injection Hreject as <-.
  assert (Hstays : In p (running pool3) /\ waiter pool3 = Aborted).
  { eapply (@rejected_stays p after); [| | |exact Hafter]; simpl.
    - exact Hin.
    - rewrite map_app. apply in_or_app. right. now left.
    - destruct (waiter pool1); try reflexivity. contradiction. }
  destruct Hstays as [Hstill Hw]. repeat split; try assumption.
  rewrite Hw. discriminate.
Qed.

Lemma rejection_ends_supervision_acme :
  exists pool, settleAll (supervise repos23)
                 ([(0, Fulfilled); (2, Rejected)] ++ map (fun p => (p, Fulfilled))
                    [1; 3; 4; 5; 6; 7])
               = Some pool
               /\ In 2 (running pool) /\ waiter pool = Aborted.
Proof.
  destruct (settleAll (supervise repos23) [(0, Fulfilled)]) as [pool1|] eqn:E1;
    [|vm_compute in E1; discriminate].
  destruct (settle pool1 2 Rejected) as [pool2|] eqn:E2;
    [|vm_compute in E1; injection E1 as <-; vm_compute in E2; discriminate].
  destruct (settleAll pool2 (map (fun p => (p, Fulfilled)) [1; 3; 4; 5; 6; 7]))
    as [pool3|] eqn:E3;
    [|vm_compute in E1; injection E1 as <-; vm_compute in E2; injection E2 as <-;
      vm_compute in E3; discriminate].
  exists pool3.
  destruct (@rejection_ends_supervision repos23 [(0, Fulfilled)] _ 2 pool1 pool2 pool3
              E1 E2 E3) as (Hin & Hw & _).
  split; [|split; assumption].
  vm_compute in E1. injection E1 as <-.
  vm_compute in E2. injection E2 as <-.
  vm_compute in E3. injection E3 as <-.
  reflexivity.
Defined.

(* --------------------------------------------------------------------- *)
(** ** Ties in Synthesis *)

Lemma insert_keeps_ties (k : Z) (x : RepoAnalysis) (l : list RepoAnalysis) :
  filter (fun r => (ranking r =? k)%Z) (insert compareRanking x l)
  = filter (fun r => (ranking r =? k)%Z) (x :: l).
Proof.
  induction l as [|y l IH]; [reflexivity|].
  cbn [insert]. unfold compareRanking at 1.
  destruct (Z.leb_spec (ranking y - ranking x) 0) as [Hle|Hgt]; [reflexivity|].
  cbn [filter] in *. rewrite IH.
  destruct (Z.eqb_spec (ranking x) k) as [Hx|Hx];
    destruct (Z.eqb_spec (ranking y) k) as [Hy|Hy]; try reflexivity.
  lia.
Qed.

(** X20.  Synthesis breaks ties by stored order: among the results with
    one and the same score (an absent score counting as 0) the sort keeps
    the order in which the table returned them. *)
Theorem synthesis_keeps_ties_in_order (st : Store) (requestId : string) (score : Z) :
  filter (fun r => (ranking r =? score)%Z) (sort compareRanking (findAnalyses st requestId))
  = filter (fun r => (ranking r =? score)%Z) (findAnalyses st requestId).
Proof.
  induction (findAnalyses st requestId) as [|x l IH]; [reflexivity|].
  cbn [sort]. rewrite insert_keeps_ties. cbn [filter]. now rewrite IH.
Qed.

(* --------------------------------------------------------------------- *)
(** ** A quiet tick *)

(** X21.  A tick of the monitor sends nothing and writes nothing when
    every result of the request so far has a score of at least 10; in
    particular when the request has no result yet. *)
Theorem monitor_tick_quiet (analystSockets : list nat) (requestId : string) (st : Store) :
  (forall r, In r (repoAnalysis st) -> ra_requestId r = requestId ->
             exists n, aiRanking r = Some n /\ (10 <= n)%Z) ->
  monitorTick analystSockets requestId st = (st, Ok tt).
Proof.
  intros Hall. apply monitor_tick_silent.
  intros r Hr. apply findAnalyses_spec in Hr. destruct Hr as [Hin Hreq].
  destruct (Hall r Hin Hreq) as [n [Hn Hle]]. unfold ranking. now rewrite Hn.
Qed.

Lemma monitor_tick_quiet_acme :
  monitorTick [7; 8] "req-1" analysedStore = (analysedStore, Ok tt)
  /\ monitorTick [7; 8] "req-2" analysedStore = (analysedStore, Ok tt).
Proof.
  split.
  - apply monitor_tick_quiet.
    intros r [<-|[<-|[<-|[]]]] _; eexists; (split; [reflexivity|lia]).
  - apply monitor_tick_quiet.
    intros r [<-|[<-|[<-|[]]]] Hreq; discriminate.
Defined.

(* --------------------------------------------------------------------- *)
(** ** Requests *)

Lemma setRequestStatus_core (requestId s : string) (requests : list GithubRequest) :
  map (fun r => (req_id r, req_query r, req_config r, req_sessionId r))
    (map (setRequestStatus requestId s) requests)
  = map (fun r => (req_id r, req_query r, req_config r, req_sessionId r)) requests.
Proof.
  rewrite map_map. apply map_ext. intros r. unfold setRequestStatus.
  now destruct (String.eqb (req_id r) requestId).
Qed.

Lemma setRequestStatus_others (requestId s : string) (requests : list GithubRequest) :
  filter (fun r => negb (String.eqb (req_id r) requestId))
    (map (setRequestStatus requestId s) requests)
  = filter (fun r => negb (String.eqb (req_id r) requestId)) requests.
Proof.
  induction requests as [|r requests IH]; simpl; [reflexivity|].
  unfold setRequestStatus at 1 2.
  destruct (String.eqb (req_id r) requestId) eqn:Hid; simpl; rewrite Hid; simpl.
  - exact IH.
  - now rewrite IH.
Qed.

Lemma status_core (agent requestId s : string) (message : option string) :
  preserves requestCore (status agent requestId s message).
Proof.
  intros st. unfold status, unchanged, requestCore. simpl.
  destruct (String.eqb agent OrchestratorAgent_name); [|reflexivity].
  apply setRequestStatus_core.
Qed.

Lemma status_others (agent requestId s : string) (message : option string) :
  preserves (otherRequests requestId) (status agent requestId s message).
Proof.
  intros st. unfold status, unchanged, otherRequests. simpl.
  destruct (String.eqb agent OrchestratorAgent_name); [|reflexivity].
  apply setRequestStatus_others.
Qed.

(** Leaves of the frame rules for the actions that write one table or
    the effects only. *)
Ltac frame_leaf :=
  match goal with
  | |- preserves _ (insertAnalysis _ _) =>
      let st := fresh "st" in
      intros st; unfold insertAnalysis, unchanged;
      destruct (insert_error _ _); reflexivity
  | |- preserves _ (insertHitlReviews ?rows) => intros ?; destruct rows; reflexivity
  | |- preserves _ (closeAll _) => intros ?; reflexivity
  | |- preserves _ (sendAll _ _) => intros ?; reflexivity
  | |- preserves _ (logRequest _ _ _ _) => intros ?; reflexivity
  | |- preserves _ (broadcast _ _ _) => intros ?; reflexivity
  end.

Lemma hitlReviewsToCreate_frame (T : Type) (f : Store -> T) (env : Env)
    (requestId : string) (repos : list Repo) :
  (forall rq hr ra sc ef u u', f (mkStore rq hr ra sc ef u) = f (mkStore rq hr ra sc ef u')) ->
  preserves f (hitlReviewsToCreate env requestId repos).
Proof.
  intros Hf st. unfold unchanged.
  destruct (hitlReviewsToCreate_rows env requestId repos st) as (rows & Hrun & _).
  rewrite Hrun. cbn [fst]. rewrite <- (Hf _ _ _ _ _ (uuids st)). now destruct st.
Qed.

Lemma start_core (env : Env) (requestId query : string) (config : Json) :
  preserves requestCore (start env requestId query config).
Proof.
  unfold start, generateSearchQueries, searchAll, logRequest, broadcast.
  frame_with ltac:(first [ apply status_core | frame_leaf
                         | apply hitlReviewsToCreate_frame; reflexivity ]).
Qed.

Lemma start_others (env : Env) (requestId query : string) (config : Json) :
  preserves (otherRequests requestId) (start env requestId query config).
Proof.
  unfold start, generateSearchQueries, searchAll, logRequest, broadcast.
  frame_with ltac:(first [ apply status_others | frame_leaf
                         | apply hitlReviewsToCreate_frame; reflexivity ]).
Qed.

Lemma review_core (env : Env) (requestId userQuery : string)
    (results : list RepoAnalysis) :
  preserves requestCore (review env requestId userQuery results).
Proof.
  unfold review, logRequest.
  frame_with ltac:(apply status_core).
Qed.

(** X22.  The query, the configuration and the session of a request are
    never rewritten, and no request is added or removed, by any operation
    of the agents or of the review route: [start], [continue] up to
    Supervision and from Synthesis on, [run], [review], a tick of the
    monitor and a posted verdict leave every request as it was apart from
    its status. *)
Theorem requests_keep_query_and_config (env : Env) (self : AnalystState)
    (requestId url query : string) (config : Json) (analystSockets : list nat)
    (request : GithubRequest) (results : list RepoAnalysis) (s : Submission)
    (st : Store) :
  requestCore (fst (start env requestId query config st)) = requestCore st
  /\ requestCore (fst (continue_delegation env requestId st)) = requestCore st
  /\ requestCore (fst (continue_synthesis env analystSockets request st)) = requestCore st
  /\ requestCore (fst (run env self requestId url query st)) = requestCore st
  /\ requestCore (fst (review env requestId query results st)) = requestCore st
  /\ requestCore (fst (monitorTick analystSockets requestId st)) = requestCore st
  /\ requestCore (fst (reviewHitlRoute s st)) = requestCore st.
Proof.
  split; [apply start_core|].
  split.
  { revert st. change (preserves requestCore (continue_delegation env requestId)).
    unfold continue_delegation, refineSearchQueries, searchAll, broadcast.
    frame_with ltac:(first [apply status_core | frame_leaf]). }
  split.
  { revert st.
    change (preserves requestCore (continue_synthesis env analystSockets request)).
    unfold continue_synthesis, logRequest, broadcast.
    frame_with ltac:(first [apply status_core | apply review_core | frame_leaf]). }
  split.
  { revert st. change (preserves requestCore (run env self requestId url query)).
    unfold run, run_enter, run_catch, run_try, logRequest.
    frame_with ltac:(first [apply status_core | frame_leaf]). }
  split; [apply review_core|].
  split.
  { revert st. change (preserves requestCore (monitorTick analystSockets requestId)).
    unfold monitorTick.
    frame_with ltac:(first [apply status_core | frame_leaf]). }
  reflexivity.
Qed.

Lemma find_app_none (A : Type) (f : A -> bool) (l l' : list A) :
  find f l = None -> find f (l ++ l') = find f l'.
Proof.
  induction l as [|x l IH]; simpl; [reflexivity|].
  destruct (f x); [discriminate | exact IH].
Qed.

Lemma find_other_request (requestId id : string) (requests : list GithubRequest) :
  id <> requestId ->
  find (fun r => String.eqb (req_id r) id) requests
  = find (fun r => String.eqb (req_id r) id)
      (filter (fun r => negb (String.eqb (req_id r) requestId)) requests).
Proof.
  intros Hne. induction requests as [|r requests IH]; simpl; [reflexivity|].
  destruct (String.eqb_spec (req_id r) requestId) as [Heq|Hdiff]; simpl.
  - destruct (String.eqb_spec (req_id r) id) as [Hid|_]; [congruence | exact IH].
  - destruct (String.eqb (req_id r) id); [reflexivity | exact IH].
Qed.

Lemma find_same_core (id : string) (requests requests' : list GithubRequest) :
  map (fun r => (req_id r, req_query r, req_config r, req_sessionId r)) requests'
  = map (fun r => (req_id r, req_query r, req_config r, req_sessionId r)) requests ->
  forall r, find (fun r => String.eqb (req_id r) id) requests = Some r ->
  exists r', find (fun r => String.eqb (req_id r) id) requests' = Some r'
             /\ req_id r' = req_id r /\ req_query r' = req_query r
             /\ req_config r' = req_config r /\ req_sessionId r' = req_sessionId r.
Proof.
  revert requests'. induction requests as [|x requests IH]; intros [|x' requests'];
    simpl; try discriminate.
  intros [= Hid Hq Hc Hs Hrest] r. rewrite Hid.
  destruct (String.eqb (req_id x) id).
  - intros [= <-]. exists x'. now repeat split.
  - now apply IH.
Qed.

(** What [start] leaves of a request that has just been registered, and of
    the others. *)
Lemma start_after_registration (env : Env) (st registered : Store)
    (new : GithubRequest) (query : string) (config : Json) :
  (forall r, In r (githubRequests st) -> req_id r <> req_id new) ->
  githubRequests registered = githubRequests st ++ [new] ->
  (exists r,
     findRequest (fst (start env (req_id new) query config registered)) (req_id new) = Some r
     /\ req_query r = req_query new /\ req_sessionId r = req_sessionId new
     /\ req_config r = req_config new)
  /\ (forall id, id <> req_id new ->
        findRequest (fst (start env (req_id new) query config registered)) id
        = findRequest st id).
Proof.
  intros Hfresh Hrequests.
  set (started := start env (req_id new) query config registered).
  pose proof (start_core env (req_id new) query config registered) as Hcore.
  pose proof (start_others env (req_id new) query config registered) as Hothers.
  fold started in Hcore, Hothers. unfold unchanged, requestCore, otherRequests in *.
  assert (Hnew : findRequest registered (req_id new) = Some new).
  { unfold findRequest. rewrite Hrequests, find_app_none.
    - simpl. now rewrite String.eqb_refl.
    - apply find_all_false. intros r Hr. apply String.eqb_neq. now apply Hfresh. }
  split.
  - destruct (@find_same_core (req_id new) _ _ Hcore _ Hnew)
      as (r & Hfind & _ & Hq & Hc & Hs).
    exists r. now repeat split.
  - intros other Hne. unfold findRequest.
    rewrite (@find_other_request (req_id new) other (githubRequests (fst started)) Hne),
      Hothers, Hrequests, filter_app.
    simpl. rewrite String.eqb_refl. simpl. rewrite app_nil_r.
    symmetry. now apply find_other_request.
Qed.

(** X23.  [POST /search] always answers with the identifier it drew, also
    when Sampling fails afterwards.  When that identifier is not yet in
    use, the request is stored under it with the posted query, the posted
    configuration (the empty object when none was posted) and the caller's
    session, or, for a caller without one, the session the handler creates
    under the next identifier it draws; and every other request is found
    exactly as it was, status included. *)
Theorem search_registers_request (env : Env) (session : option string) (query : string)
    (config : option Json) (st : Store) :
  (forall r, In r (githubRequests st) -> req_id r <> randomUUID env (uuids st)) ->
  snd (searchRoute env session query config st) = Ok (randomUUID env (uuids st))
  /\ (exists r,
        findRequest (fst (searchRoute env session query config st))
          (randomUUID env (uuids st)) = Some r
        /\ req_query r = query
        /\ req_sessionId r = match session with
                             | Some id => id
                             | None => randomUUID env (S (uuids st))
                             end
        /\ req_config r = match config with Some c => c | None => JObj [] end)
  /\ (forall id, id <> randomUUID env (uuids st) ->
        findRequest (fst (searchRoute env session query config st)) id
        = findRequest st id).
Proof.
  intros Hfresh.
  set (id := randomUUID env (uuids st)) in *.
  set (sessionId := match session with
                    | Some s => s
                    | None => randomUUID env (S (uuids st))
                    end).
  set (new := mkRequest id query "pending"
                (match config with Some c => c | None => JObj [] end) sessionId).
  assert (Hroute : exists registered,
            githubRequests registered = githubRequests st ++ [new]
            /\ searchRoute env session query config st
               = (fst (start env id query
                         (match config with Some c => c | None => JNull end) registered),
                  Ok id)).
  { unfold searchRoute, bind, newUUID, try_catch, ret, insertRequest, insertSession, emit.
    cbn [githubRequests hitlReviews repoAnalysis searchConfigs effects uuids].
    fold id. destruct session as [s|];
      cbn [githubRequests hitlReviews repoAnalysis searchConfigs effects uuids];
      fold id;
      match goal with
      | |- context [start env id query ?c ?registered] =>
          exists registered; split; [reflexivity|];
          destruct (start env id query c registered) as [st' [[]|m]]; reflexivity
      end. }
  destruct Hroute as (registered & Hrequests & Hroute).
  rewrite Hroute. cbn [fst snd].
  destruct (@start_after_registration env st registered new query
              (match config with Some c => c | None => JNull end) Hfresh Hrequests)
    as [Hnew Hothers].
  split; [reflexivity|]. split; [exact Hnew | exact Hothers].
Qed.

Lemma search_registers_request_acme :
  snd (searchRoute (orchestratorEnv (firstn 4 repos23)) None "edge caching" None twoItems)
    = Ok "uuid-c"
  /\ option_map req_sessionId
       (findRequest
          (fst (searchRoute (orchestratorEnv (firstn 4 repos23)) None "edge caching" None
                  twoItems)) "uuid-c")
     = Some "uuid-d".
Proof.
  destruct (@search_registers_request (orchestratorEnv (firstn 4 repos23)) None
              "edge caching" None twoItems) as (Hid & (r & Hfind & _ & Hsession & _) & _).
  - intros r [<-|[]]. discriminate.
  - split; [exact Hid|].
    change (randomUUID (orchestratorEnv (firstn 4 repos23)) (uuids twoItems))
      with "uuid-c" in Hfind.
    rewrite Hfind. cbn [option_map]. now rewrite Hsession.
Defined.

(* --------------------------------------------------------------------- *)
(** ** From Sampling to the resumption *)

Lemma submitAll_rows (subs : list Submission) :
  forall st r',
    In r' (hitlReviews (fst (submitAll st subs))) ->
    exists r, In r (hitlReviews st)
              /\ hitl_id r' = hitl_id r /\ hitl_requestId r' = hitl_requestId r
              /\ (reviewed r = true -> reviewed r' = true).
Proof.
  induction subs as [|s subs IH]; intros st r' Hin.
  - exists r'. now repeat split.
  - destruct (submitAll_store s subs st) as [Hfst _]. rewrite Hfst in Hin.
    destruct (IH _ _ Hin) as (r1 & Hin1 & Hid & Hreq & Hrev).
    apply reviewUpdate_In in Hin1. destruct Hin1 as [r [<- Hr]].
    exists r. rewrite setVerdict_id in Hid. rewrite setVerdict_request in Hreq.
    repeat split; try assumption.
    intros Hdone. apply Hrev, setVerdict_reviewed. now right.
Qed.

Lemma submitAll_reviews_submitted (subs : list Submission) :
  forall st r',
    In r' (hitlReviews (fst (submitAll st subs))) ->
    In (hitl_id r') (map sub_reviewId subs) ->
    reviewed r' = true.
Proof.
  induction subs as [|s subs IH]; intros st r' Hin Hid; [destruct Hid|].
  destruct (submitAll_store s subs st) as [Hfst _]. rewrite Hfst in Hin.
  destruct (in_dec string_dec (hitl_id r') (map sub_reviewId subs)) as [Hlater|Hnot].
  - eapply IH; eassumption.
  - destruct Hid as [Hnow|Hlater]; [|contradiction].
    destruct (submitAll_rows _ _ _ Hin) as (r1 & Hin1 & Hid1 & _ & Hrev).
    apply Hrev. apply reviewUpdate_In in Hin1. destruct Hin1 as [r [<- Hr]].
    apply setVerdict_reviewed. left.
    rewrite setVerdict_id in Hid1. congruence.
Qed.

(** X24.  From Sampling to the resumption.  On a store without review
    items, let [start] find at least one candidate, the UUIDs drawn for
    the items being distinct.  Then post one verdict for each item [start]
    created, in any order, whatever the verdicts: the route calls
    [continue] for the request exactly once (on the verdict that completes
    the review). *)
Theorem sampling_then_reviews_resume_once (env : Env) (requestId query : string)
    (config : Json) (st : Store) (reply : Json) (found : list (list Repo))
    (subs : list Submission) :
  hitlReviews st = [] ->
  model env (searchQueriesPrompt query) = Ok reply ->
  conforms (ZArray ZString) reply = true ->
  all env (map (github_search_code env) (strings_of reply)) = Ok found ->
  List.concat found <> [] ->
  NoDup (map (randomUUID env) (seq (uuids st) 5)) ->
  Permutation (map sub_reviewId subs)
    (map hitl_id (hitlReviews (fst (start env requestId query config st)))) ->
  calls_of requestId (snd (submitAll (fst (start env requestId query config st)) subs))
  = 1.
Proof.
  intros Hempty Hmodel Hconf Hall Hsome Huuids Hsubs.
  destruct (@start_appends_rows env requestId query config st reply found
              Hmodel Hconf Hall)
    as (rows & Hrows & Hsnap & Hlen & Hids & Heach & _).
  rewrite Hempty in Hrows. simpl in Hrows.
  set (st' := fst (start env requestId query config st)) in *.
  rewrite Hrows in Hsubs.
  rewrite Forall_forall in Heach.
  assert (Hkeys : NoDup (map hitl_id (hitlReviews st'))).
  { rewrite Hrows, Hids.
    assert (Hfive : List.length rows <= 5) by lia.
    replace 5 with (List.length rows + (5 - List.length rows)) in Huuids by lia.
    rewrite seq_app, map_app in Huuids.
    now apply NoDup_app_remove_r in Huuids. }
  assert (Hpending : forall r, In r (hitlReviews st') -> reviewed r = false).
  { intros r Hr. rewrite Hrows in Hr. destruct (Heach r Hr) as (_ & Hstatus & _).
    unfold reviewed. now rewrite Hstatus. }
  assert (Hnd : NoDup (map sub_reviewId subs)).
  { eapply Permutation_NoDup; [symmetry; exact Hsubs|]. now rewrite <- Hrows. }
  assert (Hitem : exists item, In item (hitlReviews st') /\ hitl_requestId item = requestId).
  { rewrite Hrows. destruct rows as [|item rows].
    - exfalso. simpl in Hlen. destruct (List.concat found); [contradiction|discriminate].
    - exists item. split; [now left|]. apply (Heach item). now left. }
  destruct Hitem as (item & Hitem & Hreq).
  assert (Hnot : ~ complete st' requestId).
  { intros Hc. specialize (Hc item Hitem Hreq).
    rewrite (Hpending item Hitem) in Hc. discriminate. }
  assert (Hdone : complete (fst (submitAll st' subs)) requestId).
  { intros r' Hr' _.
    apply (submitAll_reviews_submitted subs st'); [assumption|].
    destruct (submitAll_rows _ _ _ Hr') as (r & Hr & Hid & _).
    rewrite Hid. apply (Permutation_in _ (Permutation_sym Hsubs)).
    rewrite Hrows in Hr. now apply in_map. }
  pose proof (@calls_of_In _ _ (@called_when_completed requestId subs st' Hkeys Hnot Hdone))
    as Hleast.
  assert (Hwithin : reviewedWithin requestId [] st').
  { intros r Hin _ Hrev. rewrite (Hpending r Hin) in Hrev. discriminate. }
  destruct (@calls_at_most_once requestId subs st' [] Hwithin (fun s _ H => H) Hnd)
    as [Hmost _].
  lia.
Qed.

Lemma sampling_then_reviews_resume_once_acme :
  calls_of "req-1"
    (snd (submitAll
            (fst (start (orchestratorEnv (firstn 4 repos23)) "req-1"
                    "auth libraries for CF Workers" (JObj []) submitted))
            [approve "uuid-d"; mkSubmission "uuid-b" false None; approve "uuid-f";
             mkSubmission "uuid-c" false (Some "unmaintained"); approve "uuid-e"]))
  = 1.
Proof.
  apply (@sampling_then_reviews_resume_once (orchestratorEnv (firstn 4 repos23)) "req-1"
           "auth libraries for CF Workers" (JObj []) submitted
           (JArr [JStr "cloudflare workers auth"; JStr "workers jwt session"])
           [firstn 4 repos23; firstn 4 repos23]);
    try reflexivity.
  - discriminate.
  - repeat constructor; simpl; intuition discriminate.
  - apply NoDup_Permutation_bis.
    + repeat constructor; simpl; intuition discriminate.
    + reflexivity.
    + intros x Hx. vm_compute in Hx |- *. intuition.
Defined.
